(* ===== verification/_CoqProject ===== *)
-Q . S2P
Prelude.v
PyVal.v
Config.v
Provisioner.v
Threads.v
Planner.v
Growth.v
Base64.v
Patch.v
Webhook.v
InPlace.v
Server.v
Diff.v
