(* ===== verification/Prelude.v ===== *)
(** * kac-ca-injector: a verification development

    The program ([src/src/app.py], about a hundred lines of Python) is a
    Kubernetes mutating admission webhook.  Its parts and how they
    interact:

    - configuration: four environment variables read once at import time
      ([app.py] lines 13-16);
    - the ResourceProvisioner: [create_configmap] (lines 19-37) fetches the
      CA bundle over HTTP, decodes it as ASCII and creates a ConfigMap; the
      [try]/[except ApiException] block of [mutate] (lines 50-53) reads the
      ConfigMap first and calls [create_configmap] on any API error;
    - the MutationPlanner: the body of [mutate] (lines 42-84) copies the
      admitted object, checks the trigger annotation, provisions, and
      appends the CA-bundle volume and one volume mount per container and
      init container, with Python's dictionary and list semantics;
    - the PatchEncoder: [jsonpatch.JsonPatch.from_diff], [str] (that is
      [json.dumps]) and [base64.b64encode] (lines 86 and 93);
    - the AdmissionResponder: the [AdmissionReview] envelope (lines 87-96)
      and the [/health] endpoint (lines 99-101).

    Control flow: [mutate] reads the request, the planner decides and calls
    the provisioner, which talks to the Kubernetes API and to the remote
    bundle URL; the diff of the original and the modified object is
    serialised and base64-encoded into the response.  Any Python exception
    escapes [mutate] and Flask answers with HTTP 500.

    ** Files
    - [Prelude] (this file): the error type [exc] of the Python exceptions
      the handler can raise, the result type [res] (a value or a raised
      exception) and the state-and-error monad [ST] in which the stateful
      code is written, their notations (scope [kac_scope]), tactics, the
      hint database [kac] and shared lemmas on [res], [ST] and [mapM].
    - [PyVal]: the Python values produced by [request.json] (None, bool,
      int, str, list, dict as an insertion-ordered association list), with
      the operations the handler applies to them: subscription, [.get],
      [in], item assignment, [.append] and iteration, each with the
      exception Python raises on the wrong type.
    - [Config]: the configuration record and its loading from the
      environment (lines 13-16).
    - [Provisioner]: the Kubernetes ConfigMap API as an interface (a class
      of operations [CoreV1Api] and a class of laws [CoreV1ApiLaws]), a
      concrete API-server model on a [gmap] with RBAC that satisfies the
      laws, the HTTP fetch and ASCII decoding, [create_configmap] and the
      read-then-create block; two concurrent requests as a step relation.
    - [Threads]: the threaded server [app.run] starts (line 105): a pool
      of request threads, each running the block of lines 50-53 on the
      shared cluster, stepped in any order, new requests arriving at any
      time.
    - [Planner]: [plan], lines 43-84 statement by statement on values, and
      the abstract specification [planned_spec] of the injected spec with
      the refinement theorem.
    - [Growth]: the order [grows] in which one JSON value extends another
      (elements appended to lists, keys appended to dicts, at any depth),
      a preorder, and the proof that every step of [inject] follows it.
    - [Base64]: [base64.b64encode] and the strict decoder of the API server.
    - [Patch]: JSON Patch operations and their application (RFC 6902), the
      diff as an interface [JsonDiff] with laws [JsonDiffLaws] and a lawful
      instance, [json.dumps], UTF-8 encoding and the [patch] field.
    - [Webhook]: the [mutate] view on values, Flask's 500 for an escaping
      exception, the [AdmissionReview] envelope and [/health].
    - [InPlace]: Python's object store (identities, references as access
      paths, [copy.deepcopy], writes through references, the [for] loop
      over a live list) and the handler as written on it.
    - [Server]: Flask's dispatch of the routes of lines 40 and 99 (404,
      405, automatic [HEAD] and [OPTIONS], [request.json]'s 415 and 400).
    - [Diff]: [struct_diff], a structural instance of [JsonDiff] after
      [jsonpatch]'s documented algorithm (dict keys removed, recursed into,
      added; list elements recursed into, then added or removed at the
      end; anything else replaced), proved lawful, and the additive patch.

    ** Modelling choices
    - [Planner] and [Webhook] treat Python values as immutable trees.
      [InPlace] models the references the code really mutates through and
      proves ([mutate_inplace_equiv]) that the in-place handler answers as
      the value model and changes the cluster identically, and that
      [request.json] is left intact ([mutate_inplace_request_intact]).  The
      only objects shared between two places ([volume_mount], appended to
      every container) are never mutated afterwards, so the store holds
      them by value.
    - A raised exception is a value [Err e] of [res]; state changes made
      before the exception (a ConfigMap already created) persist, as they
      do in the cluster.
    - The Kubernetes API and the HTTP fetch are the program's external
      collaborators: the API is a class with laws, the fetch an oracle
      function passed to the handler.
    - Integers are [Z] (Python integers are unbounded); bytes are
      [Byte.byte]; a Rocq string character stands for a code point below
      256.

    ** Theorems
    - Responses ([Webhook]): the patch of a triggered pod applies to the
      object and yields the planned spec (C1), the untriggered and error
      cases (C3, C15), the shape of every response (C5).
    - Planning ([Planner]): refinement of [planned_spec] (C2), the
      trigger (C4), provisioning errors (C16), the missing-field errors
      (C17, C18), non-idempotence on reinvocation (C19).
    - In place ([InPlace]): equivalence with the value model (C6), the
      request untouched (C7).
    - Provisioning ([Provisioner]): the ConfigMap exists afterwards (C8),
      the read hit (C9), idempotence on the server model (C10), the
      create race of two requests (C11), read-error masking (C12), the
      fetch and decode errors (C13, C14).
    - Encoding ([Patch], [Base64]): the API server reads back [str(patch)]
      (C20).
    - Configuration ([Config]): success and the first missing variable
      (C21, C22).
    - Routing ([Server]): only [POST /mutate] with a JSON body reaches
      the view (C23).
    - Additivity ([Growth], [Diff]): with the structural diff, the patch
      of a triggered pod is not empty and only adds (C24); whatever [plan]
      returns grows from the admitted object (C25).
    - The threaded server ([Threads]): in every run, a request past the
      block has its ConfigMap (C26); ConfigMaps are never changed or
      removed and only the CA bundle is ever created (C27).

    ** Bounds and fuel
    Every function is structurally recursive except the [for] loop over
    a list in [InPlace], which reads the live list by index and is given
    one step more than the list's length at the start: the loop body of
    lines 75-78 and 81-84 never changes the length of the list it
    iterates, so the bound is never exhausted, and C6 (equality with the
    value model, which has no bound) shows it.  The schedules of
    [Provisioner] and [Threads] are relations; no claim is made about
    their termination, since the model's [requests.get] always returns
    while the code's call (line 20) has no timeout.

    ** Not modelled
    - [config.load_incluster_config()] and [client.CoreV1Api()] (lines
      47-48): client set-up, without effect on the modelled state.
    - The socket I/O and WSGI protocol of [app.run] (lines 104-105): a
      request reaches [Server.dispatch] as its method, path and parsed
      body.  The concurrency of the threaded server is modelled
      ([Threads]); only the cluster operations of a request interleave,
      since the rest of a request works on its own data.
    - [jsonpatch]'s own code: the handler is proved for every lawful diff
      ([JsonDiffLaws]); [Diff.struct_diff] follows the library's documented
      algorithm without its [move] and [copy] operations, and replaces a
      dict whole when removals and appends cannot give the new key order.
    - [test_app.py] is not modelled as code; its expectations disagree
      with the code on objects without annotations (C18) and on the
      status of [/health] (200, where the test expects 204).
*)

From stdpp Require Export base list strings gmap.
From Stdlib Require Export ZArith.

Declare Scope kac_scope.
Delimit Scope kac_scope with kac.
Open Scope kac_scope.

(** ** Python exceptions that can escape the handler *)
Inductive exc :=
| KeyError (k : string)          (** subscription of a missing dict key *)
| IndexError                     (** a list index out of range *)
| TypeError                      (** an operation on a value of the wrong type *)
| AttributeError                 (** a method the value's type lacks *)
| FetchError (status : Z)        (** [raise Exception(f"fetch ... failed")] *)
| UnicodeDecodeError             (** [bytes.decode('ascii')] on a byte >= 128 *)
| RequestError                   (** [requests.get] could not reach the URL *)
| ApiValueError                  (** the Kubernetes client rejects a None parameter *)
| ApiException (status : Z)      (** the Kubernetes API answered an error status *)
| OutOfFuel.                     (** not a Python exception: a loop of the model ran out of its bound *)

#[export] Instance exc_eq_dec : EqDecision exc.
Proof. solve_decision. Defined.

(** A computation that returns a value or raises. *)
Inductive res (A : Type) :=
| Ok (a : A)
| Err (e : exc).
Arguments Ok {A} a.
Arguments Err {A} e.

#[export] Instance res_ret : MRet res := @Ok.
#[export] Instance res_bind : MBind res :=
  λ A B (k : A → res B) (m : res A), match m with Ok a => k a | Err e => Err e end.
#[export] Instance res_fmap : FMap res :=
  λ A B (f : A → B) (m : res A), match m with Ok a => Ok (f a) | Err e => Err e end.

Notation "'raise' e" := (Err e) (at level 10) : kac_scope.

(** ** The state-and-error monad of the stateful code *)
Definition ST (S A : Type) : Type := S → S * res A.

#[export] Instance st_ret {S} : MRet (ST S) := λ A a s, (s, Ok a).
#[export] Instance st_bind {S} : MBind (ST S) :=
  λ A B (k : A → ST S B) (m : ST S A) s,
    match m s with
    | (s', Ok a) => k a s'
    | (s', Err e) => (s', Err e)
    end.

(** Run a pure, possibly raising, computation inside [ST]. *)
Definition lift {S A} (r : res A) : ST S A := λ s, (s, r).

(** [try m except ApiException: h]: only [ApiException] is caught. *)
Definition try_api {S A} (m : ST S A) (h : Z → ST S A) : ST S A :=
  λ s, match m s with
       | (s', Err (ApiException st)) => h st s'
       | r => r
       end.

Notation "'try' m 'except' 'ApiException' st '=>' h" := (try_api m (λ st, h))
  (at level 10, m at level 100, st name, h at level 200) : kac_scope.

(** ** Tactics and hints *)
Create HintDb kac discriminated.
Create Rewrite HintDb kac_rw.

(** Unfold the monad instances so that [simpl] evaluates binds. *)
Ltac unfold_monads :=
  unfold mbind, mret, fmap, res_bind, res_ret, res_fmap, st_bind, st_ret, lift, try_api in *.

(** Case on every [res] or pair scrutinee in the goal and clean up. *)
Ltac res_cases :=
  repeat match goal with
         | |- context [match ?m with Ok _ => _ | Err _ => _ end] =>
             let E := fresh "E" in destruct m eqn:E
         | |- context [match ?m with (_, _) => _ end] =>
             let E := fresh "E" in destruct m eqn:E
         end; simplify_eq/=.

(** ** Shared lemmas on [res] and [mapM] *)
Section ResLemmas.
Context {A B : Type}.

Lemma bind_Ok (m : res A) (k : A → res B) (b : B) :
  (m ≫= k) = Ok b ↔ ∃ a, m = Ok a ∧ k a = Ok b.
Proof. destruct m; simpl; [split; [eauto | by intros (? & [= ->] & ?)]|]. by split; [|intros (? & ? & ?)]. Qed.

Lemma bind_Err (m : res A) (k : A → res B) (e : exc) :
  (m ≫= k) = Err e ↔ m = Err e ∨ ∃ a, m = Ok a ∧ k a = Err e.
Proof.
  destruct m as [a|e']; simpl; split.
  - intros H. right. eauto.
  - by intros [? | (? & [= ->] & ?)].
  - intros [= ->]. by left.
  - intros [[= ->] | (? & ? & ?)]; done.
Qed.

Lemma mapM_res_Ok (f : A → res B) (l : list A) (k : list B) :
  mapM f l = Ok k ↔ Forall2 (λ x y, f x = Ok y) l k.
Proof.
  revert k; induction l as [|x l IH]; intros k; simpl.
  - split; [intros [= <-]; constructor | by inversion 1].
  - unfold mbind, res_bind, mret, res_ret.
    destruct (f x) as [y|e] eqn:Ef; [|split; [done | inversion 1; congruence]].
    destruct (mapM f l) as [k'|e] eqn:E.
    + split; [intros [= <-]; constructor; [done | by apply IH]|].
      inversion 1 as [|? ? ? ? Hy Hl]; subst. apply IH in Hl. congruence.
    + split; [done|]. inversion 1 as [|? ? ? ? Hy Hl]; subst.
      apply IH in Hl. congruence.
Qed.

Lemma mapM_res_length (f : A → res B) (l : list A) (k : list B) :
  mapM f l = Ok k → length k = length l.
Proof. rewrite mapM_res_Ok. intros H. symmetry. by eapply Forall2_length. Qed.

Lemma mapM_res_map (f : A → B) (l : list A) :
  mapM (λ x, Ok (f x)) l = Ok (map f l).
Proof. induction l; simpl; [done|]. by rewrite IHl. Qed.

Lemma mapM_res_Err (f : A → res B) (l : list A) (e : exc) :
  mapM f l = Err e ↔
    ∃ pre x post, l = pre ++ x :: post ∧ Forall (λ y, ∃ b, f y = Ok b) pre ∧ f x = Err e.
Proof.
  induction l as [|x l IH]; simpl.
  - split; [done|]. intros ([|] & ? & ? & ? & _); discriminate.
  - destruct (f x) as [b|e'] eqn:Ef; simpl; split.
    + destruct (mapM f l) eqn:E; simpl; [done|]. intros [= ->].
      destruct (proj1 IH eq_refl) as (pre & z & post & -> & ? & ?). exists (x :: pre), z, post. eauto.
    + intros ([|y pre] & z & post & Heq & Hpre & Hz); simplify_eq/=; [congruence|].
      apply Forall_cons in Hpre as [_ Hpre].
      assert (Hl : mapM f (pre ++ z :: post) = Err e) by (apply IH; by exists pre, z, post).
      by rewrite Hl.
    + intros [= ->]. exists [], x, l. eauto.
    + intros ([|y pre] & z & post & Heq & Hpre & Hz); simplify_eq/=; [congruence|].
      apply Forall_cons in Hpre as [[? ?] _]. congruence.
Qed.
End ResLemmas.

(** Running a bind of the state monad. *)
Lemma st_bind_Ok {S A B} (m : ST S A) (k : A → ST S B) s s' a :
  m s = (s', Ok a) → (m ≫= k) s = k a s'.
Proof. intros Hm. unfold mbind, st_bind. by rewrite Hm. Qed.

Lemma st_bind_Err {S A B} (m : ST S A) (k : A → ST S B) s s' e :
  m s = (s', Err e) → (m ≫= k) s = (s', Err e).
Proof. intros Hm. unfold mbind, st_bind. by rewrite Hm. Qed.

Lemma lift_bind_Ok {S A B} (a : A) (k : A → ST S B) s : (lift (Ok a) ≫= k) s = k a s.
Proof. done. Qed.

Lemma lift_bind_Err {S A B} e (k : A → ST S B) s : (lift (Err e) ≫= k) s = (s, Err e).
Proof. done. Qed.

(** Undo the binds of a successful [res] computation in hypothesis [H]. *)
Ltac res_inv H :=
  repeat match type of H with
         | (_ ≫= _) = Ok _ => let x := fresh "x" in let Hx := fresh "Hx" in apply bind_Ok in H as (x & Hx & H)
         end;
  unfold mret, res_ret in H; simplify_eq.

(** ** Filters that keep everything or nothing *)
Lemma filter_all {A} (P : A → Prop) `{!∀ x, Decision (P x)} (l : list A) : Forall P l → filter P l = l.
Proof. induction 1; [done|]. rewrite filter_cons_True by done. by f_equal. Qed.

Lemma filter_none {A} (P : A → Prop) `{!∀ x, Decision (P x)} (l : list A) : Forall (λ x, ¬ P x) l → filter P l = [].
Proof. induction 1; [done|]. by rewrite filter_cons_False. Qed.

#[export] Hint Resolve mapM_res_length : kac.
#[export] Hint Rewrite @mapM_res_map : kac_rw.
