(* ===== verification/PyVal.v ===== *)
(** * Python values of a parsed JSON request and the operations on them

    [request.json] turns the admission request into nested Python
    objects: [None], [bool], [int], [str], [list] and [dict].  A dict is an
    association list in insertion order (Python dicts keep it, and
    [json.dumps] prints in that order); assigning an existing key keeps
    its position, a new key goes to the end.  Each operation the handler
    applies ([o[k]], [o.get(k)], [k in o], [o[k] = v], [o.append(x)],
    [for x in o]) is a function that returns the value or the exception
    Python raises for that type of [o].  JSON floats are not modelled:
    the webhook never reads a number. *)

From S2P Require Import Prelude.

#[warnings="-register-all"]
Inductive pyval :=
| PNone
| PBool (b : bool)
| PInt (z : Z)
| PStr (s : string)
| PList (l : list pyval)
| PDict (kvs : list (string * pyval)).

(** Induction with hypotheses on the elements of lists and dicts. *)
Section pyval_ind'.
Variable P : pyval → Prop.
Hypothesis HNone : P PNone.
Hypothesis HBool : ∀ b, P (PBool b).
Hypothesis HInt : ∀ z, P (PInt z).
Hypothesis HStr : ∀ s, P (PStr s).
Hypothesis HList : ∀ l, Forall P l → P (PList l).
Hypothesis HDict : ∀ kvs, Forall (P ∘ snd) kvs → P (PDict kvs).

Fixpoint pyval_ind' (v : pyval) : P v :=
  match v with
  | PNone => HNone
  | PBool b => HBool b
  | PInt z => HInt z
  | PStr s => HStr s
  | PList l =>
      HList l ((fix go l : Forall P l :=
                  match l with
                  | [] => Forall_nil_2 _
                  | x :: r => Forall_cons_2 _ _ _ (pyval_ind' x) (go r)
                  end) l)
  | PDict kvs =>
      HDict kvs ((fix go kvs : Forall (P ∘ snd) kvs :=
                    match kvs with
                    | [] => Forall_nil_2 _
                    | kv :: r => Forall_cons_2 _ _ _ (pyval_ind' kv.2) (go r)
                    end) kvs)
  end.
End pyval_ind'.

(** Structural equality, which is Python's [==] on JSON values. *)
Fixpoint pyval_eqb (a b : pyval) : bool :=
  match a, b with
  | PNone, PNone => true
  | PBool x, PBool y => Bool.eqb x y
  | PInt x, PInt y => Z.eqb x y
  | PStr x, PStr y => String.eqb x y
  | PList xs, PList ys =>
      (fix go xs ys :=
         match xs, ys with
         | [], [] => true
         | x :: xs, y :: ys => pyval_eqb x y && go xs ys
         | _, _ => false
         end) xs ys
  | PDict xs, PDict ys =>
      (fix go xs ys :=
         match xs, ys with
         | [], [] => true
         | (k, x) :: xs, (k', y) :: ys => String.eqb k k' && pyval_eqb x y && go xs ys
         | _, _ => false
         end) xs ys
  | _, _ => false
  end.

(** ** Dicts as insertion-ordered association lists *)
Definition dict := list (string * pyval).

Fixpoint dict_lookup (k : string) (kvs : dict) : option pyval :=
  match kvs with
  | [] => None
  | (k', v) :: r => if String.eqb k k' then Some v else dict_lookup k r
  end.

(** [d[k] = v]: replace in place, or append a new key at the end. *)
Fixpoint dict_set (k : string) (v : pyval) (kvs : dict) : dict :=
  match kvs with
  | [] => [(k, v)]
  | (k', v') :: r => if String.eqb k k' then (k', v) :: r else (k', v') :: dict_set k v r
  end.

(** [k in s] for two strings: [k] occurs in [s] as a substring. *)
Fixpoint str_contains (k s : string) : bool :=
  String.prefix k s || match s with EmptyString => false | String _ s' => str_contains k s' end.

(** ** The operations of the handler, with Python's exceptions *)

(** [o[k]] with a string [k]. *)
Definition py_getitem (o : pyval) (k : string) : res pyval :=
  match o with
  | PDict kvs => match dict_lookup k kvs with Some v => Ok v | None => raise (KeyError k) end
  | _ => raise TypeError
  end.

(** [o.get(k)]: [None] for a missing key; only dicts have [.get]. *)
Definition py_get (o : pyval) (k : string) : res pyval :=
  match o with
  | PDict kvs => Ok (default PNone (dict_lookup k kvs))
  | _ => raise AttributeError
  end.

(** [k in o] with a string [k]: a key of a dict, an element of a list
    (by [==], so only an equal string), a substring of a string. *)
Definition py_contains (k : string) (o : pyval) : res bool :=
  match o with
  | PDict kvs => Ok (bool_decide (is_Some (dict_lookup k kvs)))
  | PList l => Ok (existsb (λ x, match x with PStr s => String.eqb s k | _ => false end) l)
  | PStr s => Ok (str_contains k s)
  | _ => raise TypeError
  end.

(** [o[k] = v] with a string [k]. *)
Definition py_setitem (o : pyval) (k : string) (v : pyval) : res pyval :=
  match o with
  | PDict kvs => Ok (PDict (dict_set k v kvs))
  | _ => raise TypeError
  end.

(** [o.append(x)]: only lists have it. *)
Definition py_append (o : pyval) (x : pyval) : res pyval :=
  match o with
  | PList l => Ok (PList (l ++ [x]))
  | _ => raise AttributeError
  end.

(** [for x in o]: the elements of a list, the keys of a dict, the
    one-character strings of a string. *)
Definition py_iter (o : pyval) : res (list pyval) :=
  match o with
  | PList l => Ok l
  | PDict kvs => Ok (map (λ kv, PStr kv.1) kvs)
  | PStr s => Ok (map (λ c, PStr (String c EmptyString)) (String.list_ascii_of_string s))
  | _ => raise TypeError
  end.

(** [o == s] for a string literal [s]: no coercion, [True] is not ['true']. *)
Definition py_eq_str (o : pyval) (s : string) : bool :=
  match o with PStr s' => String.eqb s' s | _ => false end.

(** ** Well-formed values: the dicts [json.loads] builds have distinct keys *)
Fixpoint wf (v : pyval) : Prop :=
  match v with
  | PList l => Forall id (map wf l)
  | PDict kvs => NoDup kvs.*1 ∧ Forall id (map (λ kv, wf kv.2) kvs)
  | _ => True
  end.

(** ** Equality is decidable *)
Lemma pyval_eqb_eq (a b : pyval) : pyval_eqb a b = true ↔ a = b.
Proof.
  revert b; induction a as [| | | |xs IH|xs IH] using pyval_ind'; intros [] ; simpl;
    rewrite ?Bool.eqb_true_iff, ?Z.eqb_eq, ?String.eqb_eq; try (split; congruence).
  - revert l; induction IH as [|x xs Hx _ IHxs]; intros [|y ys]; simpl; try (split; congruence).
    rewrite andb_true_iff, Hx, IHxs. split; [by intros [-> [= ->]] | by intros [= -> ->]].
  - revert kvs; induction IH as [|[k x] xs Hx _ IHxs]; intros [|[k' y] ys]; simpl;
      try (split; congruence).
    simpl in Hx. rewrite !andb_true_iff, String.eqb_eq, Hx, IHxs.
    split; [by intros [[-> ->] [= ->]] | by intros [= -> -> ->]].
Qed.

#[export] Instance pyval_eq_dec : EqDecision pyval :=
  λ a b, match decide (pyval_eqb a b = true) with
         | left H => left (proj1 (pyval_eqb_eq a b) H)
         | right H => right (λ E, H (proj2 (pyval_eqb_eq a b) E))
         end.

(** ** Dict lemmas *)
Section DictLemmas.
Implicit Types (kvs : dict) (k : string) (v : pyval).

Lemma dict_lookup_set_eq kvs k v : dict_lookup k (dict_set k v kvs) = Some v.
Proof.
  induction kvs as [|[k' v'] r IH]; simpl; [by rewrite String.eqb_refl|].
  destruct (String.eqb_spec k k'); simpl; [subst; by rewrite String.eqb_refl|].
  by destruct (String.eqb_spec k k').
Qed.

Lemma dict_lookup_set_ne kvs k k' v :
  k ≠ k' → dict_lookup k' (dict_set k v kvs) = dict_lookup k' kvs.
Proof.
  intros Hne. induction kvs as [|[k0 v0] r IH]; simpl.
  - destruct (String.eqb_spec k' k); congruence.
  - destruct (String.eqb_spec k k0); simpl; [subst|];
      destruct (String.eqb_spec k' k0); congruence.
Qed.

Lemma dict_set_set kvs k v v' : dict_set k v (dict_set k v' kvs) = dict_set k v kvs.
Proof.
  induction kvs as [|[k0 v0] r IH]; simpl; [by rewrite String.eqb_refl|].
  destruct (String.eqb_spec k k0); simpl; [subst; by rewrite String.eqb_refl|].
  destruct (String.eqb_spec k k0); [done|]. by rewrite IH.
Qed.

(** Assigning a key the value it already has changes nothing. *)
Lemma dict_set_lookup kvs k v : dict_lookup k kvs = Some v → dict_set k v kvs = kvs.
Proof.
  induction kvs as [|[k0 v0] r IH]; simpl; [done|].
  destruct (String.eqb_spec k k0); [by intros [= ->]; subst|]. intros H. by rewrite IH.
Qed.

Lemma dict_lookup_None kvs k : dict_lookup k kvs = None ↔ k ∉ kvs.*1.
Proof.
  induction kvs as [|[k' v'] r IH]; simpl; [set_solver|].
  rewrite elem_of_cons. destruct (String.eqb_spec k k'); [naive_solver|].
  rewrite IH. naive_solver.
Qed.

Lemma dict_lookup_elem kvs k v : dict_lookup k kvs = Some v → (k, v) ∈ kvs.
Proof.
  induction kvs as [|[k' v'] r IH]; simpl; [done|].
  destruct (String.eqb_spec k k'); [intros [= <-]; subst; left|right; auto].
Qed.

(** Assigning a present key keeps the keys and their order. *)
Lemma dict_set_keys_present kvs k v :
  is_Some (dict_lookup k kvs) → (dict_set k v kvs).*1 = kvs.*1.
Proof.
  induction kvs as [|[k' v'] r IH]; simpl; [by intros []|].
  destruct (String.eqb_spec k k'); simpl; [done|]. intros H. f_equal. by apply IH.
Qed.

(** Assigning a new key appends it at the end. *)
Lemma dict_set_absent kvs k v :
  dict_lookup k kvs = None → dict_set k v kvs = kvs ++ [(k, v)].
Proof.
  induction kvs as [|[k' v'] r IH]; simpl; [done|].
  destruct (String.eqb_spec k k'); [done|]. intros H. by rewrite IH.
Qed.

Lemma dict_set_NoDup kvs k v : NoDup kvs.*1 → NoDup (dict_set k v kvs).*1.
Proof.
  intros Hnd. destruct (dict_lookup k kvs) eqn:E.
  - rewrite dict_set_keys_present; [done|eauto].
  - rewrite dict_set_absent, fmap_app by done. simpl.
    apply NoDup_app; split_and!; [done| |by apply NoDup_singleton].
    intros x Hx ->%list_elem_of_singleton. by apply dict_lookup_None in E.
Qed.

Lemma Forall_id_map {A} (f : A → Prop) (l : list A) : Forall id (map f l) ↔ Forall f l.
Proof. induction l; simpl; rewrite ?Forall_cons, ?IHl; [split; constructor|done]. Qed.

Lemma wf_dict kvs : wf (PDict kvs) ↔ NoDup kvs.*1 ∧ Forall (λ kv, wf kv.2) kvs.
Proof. simpl. by rewrite Forall_id_map. Qed.

Lemma wf_list l : wf (PList l) ↔ Forall wf l.
Proof. simpl. by rewrite Forall_id_map. Qed.

Lemma dict_set_Forall (P : pyval → Prop) kvs k v :
  Forall (λ kv, P kv.2) kvs → P v → Forall (λ kv, P kv.2) (dict_set k v kvs).
Proof.
  induction 1 as [|[k' v'] r Hv' Hr IH]; simpl; intros Hv; [by repeat constructor|].
  destruct (String.eqb k k'); constructor; auto.
Qed.
Lemma dict_lookup_app kvs1 kvs2 k :
  dict_lookup k (kvs1 ++ kvs2) = match dict_lookup k kvs1 with Some v => Some v | None => dict_lookup k kvs2 end.
Proof. induction kvs1 as [|[k' v'] r IH]; simpl; [done|]. by destruct (String.eqb k k'). Qed.

(** Filtering on keys keeps the lookups of the kept keys.  The two
    decision procedures are arguments, so that the lemma applies whatever
    instance the filter was elaborated with. *)
Lemma dict_lookup_filter (P : string → Prop) `{Hk : ∀ k, Decision (P k)}
    (Hkv : ∀ kv : string * pyval, Decision (P kv.1)) kvs k :
  dict_lookup k (@filter _ _ _ (λ kv, P kv.1) Hkv kvs) = if decide (P k) then dict_lookup k kvs else None.
Proof.
  induction kvs as [|[k' v'] r IH]; [simpl; by case_decide|].
  rewrite (@filter_cons _ (λ kv : string * pyval, P kv.1) Hkv). unfold decide at 1.
  destruct (Hkv (k', v')) as [Hp|Hp]; simpl in *;
    destruct (String.eqb_spec k k') as [->|Hne]; rewrite ?IH; case_decide; naive_solver.
Qed.

Lemma dict_lookup_NoDup_elem kvs k v : NoDup kvs.*1 → (k, v) ∈ kvs → dict_lookup k kvs = Some v.
Proof.
  induction kvs as [|[k' v'] r IH]; simpl; [by intros _ ?%elem_of_nil|].
  intros [Hk' Hnd]%NoDup_cons [[= -> ->]|Hin]%elem_of_cons; [by rewrite String.eqb_refl|].
  destruct (String.eqb_spec k k') as [->|]; [|by apply IH].
  exfalso. apply Hk'. apply list_elem_of_fmap. by exists (k', v).
Qed.

Lemma fst_filter (P : string → Prop) `{Hk : ∀ k, Decision (P k)}
    (Hkv : ∀ kv : string * pyval, Decision (P kv.1)) (kvs : dict) :
  (@filter _ _ _ (λ kv, P kv.1) Hkv kvs).*1 = filter P kvs.*1.
Proof.
  induction kvs as [|[k v] r IH]; [done|].
  rewrite (@filter_cons _ (λ kv : string * pyval, P kv.1) Hkv), fmap_cons, (@filter_cons _ P Hk).
  destruct (decide _) as [H1|H1], (decide _) as [H2|H2]; cbn [fst] in H1; try tauto; rewrite ?fmap_cons; first [exact IH | f_equal; exact IH].
Qed.

(** Two dicts with the same keys in the same order and the same lookups
    are equal. *)
Lemma dict_eq_of_lookup kvs1 kvs2 :
  kvs1.*1 = kvs2.*1 → NoDup kvs1.*1 → (∀ k, dict_lookup k kvs1 = dict_lookup k kvs2) → kvs1 = kvs2.
Proof.
  revert kvs2. induction kvs1 as [|[k v] r IH]; intros [|[k2 v2] r2]; simpl; try done.
  intros [= <- Hr] [Hk Hnd]%NoDup_cons Hl. pose proof (Hl k) as Hk1. rewrite !String.eqb_refl in Hk1.
  injection Hk1 as <-. f_equal. apply IH; [done|done|]. intros k'.
  specialize (Hl k'). destruct (String.eqb_spec k' k) as [Heq|]; [subst k'|done].
  assert (Hk2 : k ∉ r2.*1) by (change (k ∉ list_fmap _ _ fst r2); by rewrite <- Hr).
  by rewrite (proj2 (dict_lookup_None _ _) Hk), (proj2 (dict_lookup_None _ _) Hk2).
Qed.
End DictLemmas.

(** ** The operations preserve well-formedness *)
Lemma py_getitem_wf o k v : wf o → py_getitem o k = Ok v → wf v.
Proof.
  destruct o as [| | | | |kvs]; intros Ho H; simplify_eq/=.
  apply wf_dict in Ho as [_ Hall]. destruct (dict_lookup k kvs) eqn:E; simplify_eq.
  apply dict_lookup_elem in E. rewrite Forall_forall in Hall. apply (Hall _ E).
Qed.

Lemma py_setitem_wf o k v o' : wf o → wf v → py_setitem o k v = Ok o' → wf o'.
Proof.
  destruct o as [| | | | |kvs]; intros Ho Hv H; simplify_eq/=.
  apply wf_dict in Ho as [Hnd Hall].
  apply wf_dict. split; [by apply dict_set_NoDup | by apply dict_set_Forall].
Qed.

Lemma py_append_wf o x o' : wf o → wf x → py_append o x = Ok o' → wf o'.
Proof.
  destruct o; intros Ho Hx H; simplify_eq/=.
  apply wf_list in Ho. apply wf_list, Forall_app. auto.
Qed.

#[export] Hint Resolve py_getitem_wf py_setitem_wf py_append_wf : kac.

(** Reading back an assigned key gives the assigned value. *)
Lemma py_getitem_setitem o k v o' : py_setitem o k v = Ok o' → py_getitem o' k = Ok v.
Proof. destruct o; intros H; simplify_eq/=. by rewrite dict_lookup_set_eq. Qed.

Lemma py_setitem_getitem o k v : py_getitem o k = Ok v → py_setitem o k v = Ok o.
Proof. destruct o; simpl; try done. case_match; intros [= ->]. by rewrite dict_set_lookup. Qed.

Lemma py_setitem_setitem o k v v' o' :
  py_setitem o k v' = Ok o' → py_setitem o' k v = py_setitem o k v.
Proof. destruct o; intros H; simplify_eq/=. by rewrite dict_set_set. Qed.

Lemma py_getitem_setitem_ne o k k' v o' :
  k ≠ k' → py_setitem o k v = Ok o' → py_getitem o' k' = py_getitem o k'.
Proof. destruct o; intros Hne H; simplify_eq/=. by rewrite dict_lookup_set_ne. Qed.
