(* ===== verification/Config.v ===== *)
(** * The configuration read from the environment ([app.py] lines 13-16)

    The four settings are module-level globals read with [os.environ[...]]
    when the module is imported; a missing variable raises [KeyError] and
    the application never starts.  Here they form one immutable record
    that every other component receives as an argument. *)

From S2P Require Import Prelude.

Record Config := {
  configmap_name : string;        (** [CA_BUNDLE_CONFIGMAP] *)
  ca_bundle_filename : string;    (** [CA_BUNDLE_FILENAME] *)
  ca_bundle_url : string;         (** [CA_BUNDLE_URL] *)
  ca_bundle_annotation : string   (** [CA_BUNDLE_ANNOTATION] *)
}.

(** [os.environ[k]]. *)
Definition environ_get (env : gmap string string) (k : string) : res string :=
  match env !! k with Some v => Ok v | None => raise (KeyError k) end.

(** Lines 13-16, evaluated in this order at import time. *)
Definition load_config (env : gmap string string) : res Config :=
  cm ← environ_get env "CA_BUNDLE_CONFIGMAP";
  fn ← environ_get env "CA_BUNDLE_FILENAME";
  url ← environ_get env "CA_BUNDLE_URL";
  ann ← environ_get env "CA_BUNDLE_ANNOTATION";
  mret {| configmap_name := cm; ca_bundle_filename := fn;
          ca_bundle_url := url; ca_bundle_annotation := ann |}.

Definition config_vars : list string :=
  ["CA_BUNDLE_CONFIGMAP"; "CA_BUNDLE_FILENAME"; "CA_BUNDLE_URL"; "CA_BUNDLE_ANNOTATION"].

Lemma environ_get_Ok env k v : environ_get env k = Ok v ↔ env !! k = Some v.
Proof. unfold environ_get. destruct (env !! k); split; congruence. Qed.

Lemma environ_get_Err env k e : environ_get env k = Err e ↔ env !! k = None ∧ e = KeyError k.
Proof. unfold environ_get. destruct (env !! k); split; naive_solver. Qed.

(** The four reads of lines 13-16 are [mapM] over [config_vars]. *)
Lemma load_config_vars env e : load_config env = Err e ↔ mapM (environ_get env) config_vars = Err e.
Proof.
  unfold load_config, config_vars. simpl.
  repeat (destruct (environ_get env _); simpl; try done); split; by intros [= ->].
Qed.

(** C21: importing [app.py] succeeds exactly when the four variables
    are set, and the configuration holds their values. *)
Theorem load_config_ok env c :
  load_config env = Ok c ↔
    env !! "CA_BUNDLE_CONFIGMAP" = Some c.(configmap_name) ∧
    env !! "CA_BUNDLE_FILENAME" = Some c.(ca_bundle_filename) ∧
    env !! "CA_BUNDLE_URL" = Some c.(ca_bundle_url) ∧
    env !! "CA_BUNDLE_ANNOTATION" = Some c.(ca_bundle_annotation).
Proof.
  destruct c as [cm fn url ann]. unfold load_config, environ_get. simpl.
  repeat (case_match; simpl); unfold mret, res_ret; split; intros; destruct_and?; simplify_eq/=; done.
Qed.

(** C22: with a variable unset, importing raises [KeyError] of the
    first unset one in the order of lines 13-16, and nothing else. *)
Theorem load_config_missing env e :
  load_config env = Err e ↔
    ∃ pre k post, config_vars = pre ++ k :: post ∧ Forall (λ x, is_Some (env !! x)) pre ∧
      env !! k = None ∧ e = KeyError k.
Proof.
  rewrite load_config_vars, mapM_res_Err.
  split; intros (pre & k & post & Hvars & Hpre & Hk); exists pre, k, post;
    rewrite environ_get_Err in *; split_and!; try tauto;
    (eapply Forall_impl; [exact Hpre|]); simpl;
    [intros x [b ?%environ_get_Ok]; eauto | intros x [b ?]; exists b; by apply environ_get_Ok].
Qed.
