(* ===== verification/Provisioner.v ===== *)
(** * The ResourceProvisioner: [create_configmap] and read-then-create

    [app.py] lines 19-37 ([create_configmap]) and 50-53 (the
    [try]/[except ApiException] block of [mutate]).  The Kubernetes API is
    the collaborator: its ConfigMap operations are the class [CoreV1Api],
    the guarantees the provisioner relies on are the class [CoreV1ApiLaws],
    stated on an abstract view [stored] of the ConfigMaps in the cluster.
    [ApiServer] is a concrete API server (ConfigMaps in a [gmap] keyed by
    namespace and name, the existing namespaces, and the verbs the
    webhook's service account may use) that satisfies the laws.  The
    remote bundle source is the oracle [requests_get]. *)

From S2P Require Import Prelude Config.
From Stdlib Require Import Strings.Byte.

(** ** The Kubernetes objects the code builds *)
Record V1ObjectMeta := { meta_name : string; meta_namespace : string }.

Record V1ConfigMap := {
  cm_api_version : string;
  cm_kind : string;
  cm_metadata : V1ObjectMeta;
  cm_data : list (string * string)
}.

(** ** The API client, as an interface *)
Class CoreV1Api (S : Type) := {
  (** [read_namespaced_config_map(namespace=ns, name=n)]; does not change
      the cluster; raises [ApiException] on an error status *)
  read_namespaced_config_map : string → string → S → res V1ConfigMap;
  (** [create_namespaced_config_map(namespace=ns, body=cm)] *)
  create_namespaced_config_map : string → V1ConfigMap → S → S * res V1ConfigMap
}.

(** What the provisioner relies on, on an abstract view [stored] of the
    ConfigMaps the cluster holds, by namespace and name. *)
Class CoreV1ApiLaws (S : Type) `{CoreV1Api S} := {
  stored : S → string → string → option V1ConfigMap;
  read_stored : ∀ s ns n cm, read_namespaced_config_map ns n s = Ok cm → stored s ns n = Some cm;
  read_missing : ∀ s ns n, stored s ns n = None → ∃ st, read_namespaced_config_map ns n s = Err (ApiException st);
  create_ok : ∀ s ns cm s' r, create_namespaced_config_map ns cm s = (s', Ok r) →
    stored s ns cm.(cm_metadata).(meta_name) = None ∧
    ∀ ns' n', stored s' ns' n' =
      if decide ((ns', n') = (ns, cm.(cm_metadata).(meta_name))) then Some cm else stored s ns' n';
  create_err : ∀ s ns cm s' e, create_namespaced_config_map ns cm s = (s', Err e) → s' = s;
  create_conflict : ∀ s ns cm, is_Some (stored s ns cm.(cm_metadata).(meta_name)) →
    ∃ e, create_namespaced_config_map ns cm s = (s, Err e)
}.

(** ** A concrete API server *)
Record ApiServer := {
  configmaps : gmap (string * string) V1ConfigMap;
  namespaces : gset string;
  (** RBAC of the webhook's service account: verb, namespace *)
  authorized : string → string → bool
}.

Definition server_read (ns n : string) (srv : ApiServer) : res V1ConfigMap :=
  if negb (srv.(authorized) "get" ns) then raise (ApiException 403)
  else match srv.(configmaps) !! (ns, n) with
       | Some cm => Ok cm
       | None => raise (ApiException 404)
       end.

Definition server_create (ns : string) (cm : V1ConfigMap) (srv : ApiServer)
    : ApiServer * res V1ConfigMap :=
  let key := (ns, cm.(cm_metadata).(meta_name)) in
  if negb (srv.(authorized) "create" ns) then (srv, raise (ApiException 403))
  else if bool_decide (ns ∉ srv.(namespaces)) then (srv, raise (ApiException 404))
  else if bool_decide (cm.(cm_metadata).(meta_namespace) ≠ ns) then (srv, raise (ApiException 400))
  else match srv.(configmaps) !! key with
       | Some _ => (srv, raise (ApiException 409))
       | None => ({| configmaps := <[key := cm]> srv.(configmaps);
                    namespaces := srv.(namespaces);
                    authorized := srv.(authorized) |}, Ok cm)
       end.

#[export] Instance server_api : CoreV1Api ApiServer := {
  read_namespaced_config_map := server_read;
  create_namespaced_config_map := server_create
}.

(** ** The remote bundle source *)
Record Response := { status_code : Z; content : list byte }.

(** [r.content.decode('ascii')]: strict, any byte above 127 raises. *)
Definition ascii_decode (bs : list byte) : res string :=
  if forallb (λ b, (Byte.to_N b <? 128)%N) bs then Ok (String.string_of_list_byte bs)
  else raise UnicodeDecodeError.

Section Provisioner.
Context {S : Type} `{CoreV1Api S}.
(** [requests.get(url, stream=True)] *)
Variable requests_get : string → res Response.
Variable cfg : Config.

(** The body built on lines 27-37. *)
Definition configmap_body (namespace ca_bundle : string) : V1ConfigMap := {|
  cm_api_version := "v1";
  cm_kind := "ConfigMap";
  cm_metadata := {| meta_name := cfg.(configmap_name); meta_namespace := namespace |};
  cm_data := [(cfg.(ca_bundle_filename), ca_bundle)]
|}.

(** Lines 20-25: fetch, check the status, decode. *)
Definition fetch_bundle : res string :=
  r ← requests_get cfg.(ca_bundle_url);
  if bool_decide (r.(status_code) ≠ 200%Z) then raise (FetchError r.(status_code))
  else ascii_decode r.(content).

(** [create_configmap(v1_api, namespace)], lines 19-37. *)
Definition create_configmap (namespace : string) : ST S unit :=
  ca_bundle ← lift fetch_bundle;
  _ ← create_namespaced_config_map namespace (configmap_body namespace ca_bundle);
  mret ().

(** The read, as a step of [ST] that leaves the cluster unchanged. *)
Definition read_configmap (namespace : string) : ST S V1ConfigMap :=
  λ s, (s, read_namespaced_config_map namespace cfg.(configmap_name) s).

(** Lines 50-53: read, and on any [ApiException] create. *)
Definition ensure_configmap (namespace : string) : ST S unit :=
  try (_ ← read_configmap namespace; mret ())
  except ApiException _ => create_configmap namespace.
End Provisioner.

(** ** The concrete server satisfies the laws *)
Lemma server_create_cases ns cm srv :
  (∃ srv' , server_create ns cm srv = (srv', Ok cm) ∧
     srv.(configmaps) !! (ns, cm.(cm_metadata).(meta_name)) = None ∧
     srv'.(configmaps) = <[(ns, cm.(cm_metadata).(meta_name)) := cm]> srv.(configmaps) ∧
     srv'.(authorized) = srv.(authorized)) ∨
  (∃ st, server_create ns cm srv = (srv, Err (ApiException st))).
Proof.
  unfold server_create. destruct (authorized srv "create" ns); simpl; [|right; eauto].
  case_bool_decide; [right; eauto|]. case_bool_decide; [right; eauto|].
  destruct (configmaps srv !! _) eqn:E; [right; eauto|left; eauto].
Qed.

#[export] Program Instance server_laws : CoreV1ApiLaws ApiServer := {
  stored srv ns n := srv.(configmaps) !! (ns, n)
}.
Next Obligation.
  intros s ns n cm. simpl. unfold server_read.
  destruct (authorized s "get" ns); simpl; [|done]. destruct (_ !! _); congruence.
Qed.
Next Obligation.
  intros s ns n Hn. simpl. unfold server_read.
  destruct (authorized s "get" ns); simpl; [rewrite Hn|]; eauto.
Qed.
Next Obligation.
  intros s ns cm s' r. simpl.
  destruct (server_create_cases ns cm s) as [(srv' & -> & Hnone & Hm & _) | (st & ->)]; [|done].
  intros [= <- <-]. split; [done|]. intros ns' n'. rewrite Hm, lookup_insert.
  do 2 case_decide; congruence.
Qed.
Next Obligation.
  intros s ns cm s' e. simpl.
  destruct (server_create_cases ns cm s) as [(srv' & -> & _) | (st & ->)]; [done|].
  by intros [= <- <-].
Qed.
Next Obligation.
  intros s ns cm [c Hc]. simpl in *.
  destruct (server_create_cases ns cm s) as [(srv' & -> & Hnone & _ & _) | (st & ->)]; [congruence|eauto].
Qed.

(** ** The provisioner, against the interface *)
Section ProvisionerProps.
Context {S : Type} `{CoreV1ApiLaws S}.
Variable requests_get : string → res Response.
Variable cfg : Config.

Abbreviation create_cm := (create_configmap requests_get cfg).
Abbreviation name := cfg.(configmap_name).

(** The read-then-create block, unfolded. *)
Lemma ensure_configmap_unfold ns s :
  ensure_configmap requests_get cfg ns s =
    match read_namespaced_config_map ns name s with
    | Ok _ => (s, Ok ())
    | Err (ApiException _) => create_cm ns s
    | Err e => (s, Err e)
    end.
Proof. unfold ensure_configmap, read_configmap. unfold_monads. by destruct (read_namespaced_config_map _ _ _) as [|[]]. Qed.

Lemma create_configmap_unfold ns s :
  create_cm ns s =
    match fetch_bundle requests_get cfg with
    | Ok b => match create_namespaced_config_map ns (configmap_body cfg ns b) s with
              | (s', Ok _) => (s', Ok ())
              | (s', Err e) => (s', Err e)
              end
    | Err e => (s, Err e)
    end.
Proof. unfold create_configmap. unfold_monads. destruct (fetch_bundle _ _); [|done]. by destruct (create_namespaced_config_map _ _ _) as [? []]. Qed.

(** The created ConfigMap sits at the configured name in [ns]. *)
Lemma create_configmap_stored ns s s' :
  create_cm ns s = (s', Ok ()) →
  ∃ b, fetch_bundle requests_get cfg = Ok b ∧ stored s ns name = None ∧
       stored s' ns name = Some (configmap_body cfg ns b).
Proof.
  rewrite create_configmap_unfold. destruct (fetch_bundle _ _) as [b|]; [|done].
  destruct (create_namespaced_config_map _ _ _) as [s1 []] eqn:E; intros [= <-].
  apply create_ok in E as [Hnone Hst]. exists b. split_and!; [done|done|].
  rewrite Hst. by rewrite decide_True.
Qed.

(** Every step leaves the ConfigMaps already stored in place. *)
Lemma create_configmap_mono ns s s' r ns' n' cm :
  create_cm ns s = (s', r) → stored s ns' n' = Some cm → stored s' ns' n' = Some cm.
Proof.
  rewrite create_configmap_unfold. destruct (fetch_bundle _ _) as [b|]; [|by intros [= <- _]].
  destruct (create_namespaced_config_map _ _ _) as [s1 [a|e]] eqn:E; intros Heq Hs; simplify_eq.
  - apply create_ok in E as [Hnone Hst]. rewrite Hst. case_decide as Heq; [|done].
    simplify_eq/=; congruence.
  - by apply create_err in E as ->.
Qed.

(** C8: after [ensure_configmap] returns normally, the ConfigMap named
    [configmap_name] exists in the namespace. *)
Theorem ensure_configmap_establishes ns s s' :
  ensure_configmap requests_get cfg ns s = (s', Ok ()) → ∃ cm, stored s' ns name = Some cm.
Proof.
  rewrite ensure_configmap_unfold.
  destruct (read_namespaced_config_map ns name s) as [cm|[]] eqn:E; intros Hr; simplify_eq;
    [by eapply read_stored in E; eauto| ].
  apply create_configmap_stored in Hr as (b & _ & _ & Hb). eauto.
Qed.

(** C9: when the read finds the ConfigMap, the block does nothing more:
    no fetch, no create, the cluster is unchanged. *)
Theorem ensure_configmap_read_hit ns s cm :
  read_namespaced_config_map ns name s = Ok cm → ensure_configmap requests_get cfg ns s = (s, Ok ()).
Proof. intros E. by rewrite ensure_configmap_unfold, E. Qed.

(** C13: when the read raises and the bundle URL answers a status other
    than 200, the request fails with that status and nothing is created. *)
Theorem ensure_configmap_fetch_error ns s st r :
  read_namespaced_config_map ns name s = Err (ApiException st) →
  requests_get cfg.(ca_bundle_url) = Ok r → r.(status_code) ≠ 200%Z →
  ensure_configmap requests_get cfg ns s = (s, Err (FetchError r.(status_code))).
Proof.
  intros E Hget Hst. rewrite ensure_configmap_unfold, E, create_configmap_unfold.
  unfold fetch_bundle. rewrite Hget. simpl. by rewrite bool_decide_true.
Qed.

(** C14: a bundle with a byte above 127 raises [UnicodeDecodeError]
    before anything is created: the text is never truncated or patched. *)
Theorem ensure_configmap_decode_error ns s st r :
  read_namespaced_config_map ns name s = Err (ApiException st) →
  requests_get cfg.(ca_bundle_url) = Ok r → r.(status_code) = 200%Z →
  Exists (λ b, (128 <= Byte.to_N b)%N) r.(content) →
  ensure_configmap requests_get cfg ns s = (s, Err UnicodeDecodeError).
Proof.
  intros E Hget Hst Hbad. rewrite ensure_configmap_unfold, E, create_configmap_unfold.
  unfold fetch_bundle. rewrite Hget. simpl. rewrite bool_decide_false by lia.
  unfold ascii_decode. destruct (forallb _ _) eqn:Hall; [|done].
  apply Exists_exists in Hbad as (b & Hin & Hb). rewrite forallb_forall in Hall.
  specialize (Hall b (proj1 (list_elem_of_In _ _) Hin)). apply N.ltb_lt in Hall. lia.
Qed.
End ProvisionerProps.

#[export] Hint Resolve create_configmap_mono : kac.

(** ** Two requests for the same namespace, interleaved

    Each request runs the block of lines 50-53 as a thread with two
    cluster interactions (the read, then perhaps the create); [step2]
    interleaves two such threads on one cluster. *)
Inductive thread := TRead | TCreate | TDone (r : res unit).

Section Interleaving.
Context {S : Type} `{CoreV1ApiLaws S}.
Variable requests_get : string → res Response.
Variable cfg : Config.
Variable ns : string.

Abbreviation create_cm := (create_configmap requests_get cfg).
Abbreviation name := cfg.(configmap_name).

Inductive tstep : S * thread → S * thread → Prop :=
| tstep_found s cm :
    read_namespaced_config_map ns name s = Ok cm → tstep (s, TRead) (s, TDone (Ok ()))
| tstep_missing s st :
    read_namespaced_config_map ns name s = Err (ApiException st) → tstep (s, TRead) (s, TCreate)
| tstep_error s e :
    read_namespaced_config_map ns name s = Err e → (∀ st, e ≠ ApiException st) →
    tstep (s, TRead) (s, TDone (Err e))
| tstep_create s s' r :
    create_cm ns s = (s', r) → tstep (s, TCreate) (s', TDone r).

Inductive step2 : S * thread * thread → S * thread * thread → Prop :=
| step2_l s a b s' a' : tstep (s, a) (s', a') → step2 (s, a, b) (s', a', b)
| step2_r s a b s' b' : tstep (s, b) (s', b') → step2 (s, a, b) (s', a, b').

(** A thread run alone to completion computes [ensure_configmap]. *)
Lemma ensure_configmap_thread s s' r :
  ensure_configmap requests_get cfg ns s = (s', r) → rtc tstep (s, TRead) (s', TDone r).
Proof.
  rewrite ensure_configmap_unfold.
  destruct (read_namespaced_config_map ns name s) as [cm|e] eqn:E.
  - intros [= <- <-]. apply rtc_once. by econstructor.
  - destruct e; intros Hr; try (injection Hr as <- <-; apply rtc_once; by econstructor).
    eapply rtc_l; [by econstructor|]. apply rtc_once. by constructor.
Qed.

Lemma tstep_mono s a s' a' ns' n' cm :
  tstep (s, a) (s', a') → stored s ns' n' = Some cm → stored s' ns' n' = Some cm.
Proof. inversion 1; subst; eauto using create_configmap_mono. Qed.

(** The invariant of any interleaving: a request that got past the
    block has seen the ConfigMap exist, and it still exists. *)
Definition passed_ok (s : S) (t : thread) : Prop :=
  t = TDone (Ok ()) → is_Some (stored s ns name).

Lemma tstep_passed_ok s a s' a' : tstep (s, a) (s', a') → passed_ok s' a'.
Proof.
  inversion 1; subst; intros Hd; simplify_eq.
  - eexists. eapply read_stored; eauto.
  - match goal with Hc : create_configmap _ _ _ _ = _ |- _ =>
      apply create_configmap_stored in Hc as (b & _ & _ & Hb) end. eauto.
Qed.

(** C11: read-then-create is not atomic.  Two requests that both read
    before either creates: the first creates the ConfigMap, the second
    one's create is refused and its request fails, although the
    ConfigMap exists. *)
Theorem concurrent_ensure_conflict s b s1 r1 :
  stored s ns name = None →
  fetch_bundle requests_get cfg = Ok b →
  create_namespaced_config_map ns (configmap_body cfg ns b) s = (s1, Ok r1) →
  ∃ e, rtc step2 (s, TRead, TRead) (s1, TDone (Ok ()), TDone (Err e)) ∧
       is_Some (stored s1 ns name).
Proof.
  intros Hnone Hb Hc.
  destruct (read_missing _ _ _ Hnone) as [st Hread].
  pose proof Hc as Hc'. apply create_ok in Hc' as [_ Hst1].
  assert (Hs1 : stored s1 ns name = Some (configmap_body cfg ns b))
    by (rewrite Hst1; by rewrite decide_True).
  destruct (create_conflict s1 ns (configmap_body cfg ns b)) as [e He]; [by eexists|].
  exists e. split; [|by eexists].
  eapply rtc_l; [apply step2_l; by eapply tstep_missing|].
  eapply rtc_l; [apply step2_r; by eapply tstep_missing|].
  eapply rtc_l; [apply step2_l, tstep_create; by rewrite create_configmap_unfold, Hb, Hc|].
  apply rtc_once, step2_r, tstep_create. by rewrite create_configmap_unfold, Hb, He.
Qed.

End Interleaving.

(** ** Against the concrete server *)
Section ServerProps.
Variable requests_get : string → res Response.
Variable cfg : Config.
Abbreviation name := cfg.(configmap_name).

Lemma server_create_authorized ns cm srv srv' r :
  server_create ns cm srv = (srv', r) → authorized srv' = authorized srv.
Proof.
  destruct (server_create_cases ns cm srv) as [(? & -> & _ & _ & ?) | (? & ->)]; by intros [= <- _].
Qed.

Lemma ensure_configmap_authorized ns srv srv' r :
  ensure_configmap requests_get cfg ns srv = (srv', r) → authorized srv' = authorized srv.
Proof.
  rewrite ensure_configmap_unfold, create_configmap_unfold.
  destruct (read_namespaced_config_map _ _ _) as [|[]]; try (by intros [= <- _]).
  destruct (fetch_bundle _ _); [|by intros [= <- _]].
  destruct (create_namespaced_config_map _ _ _) as [s1 []] eqn:E; intros [= <- _];
    by eapply server_create_authorized.
Qed.

(** C10: with read permission, a second run of the block right after a
    successful one is a no-op that returns normally. *)
Theorem ensure_configmap_idempotent ns srv srv' :
  srv.(authorized) "get" ns = true →
  ensure_configmap requests_get cfg ns srv = (srv', Ok ()) → ensure_configmap requests_get cfg ns srv' = (srv', Ok ()).
Proof.
  intros Hauth Hrun. destruct (ensure_configmap_establishes _ _ _ _ _ Hrun) as [cm Hcm].
  apply (ensure_configmap_read_hit _ _ _ _ cm). simpl. unfold server_read.
  rewrite (ensure_configmap_authorized _ _ _ _ Hrun), Hauth. simpl in Hcm. by rewrite Hcm.
Qed.

(** C12: every [ApiException] of the read is taken for "not found".
    Without read permission, a ConfigMap that exists is not seen: the
    bundle is fetched, the create is refused with 409 Conflict, and the
    request fails. *)
Theorem ensure_configmap_masks_read_error ns srv cm b :
  srv.(authorized) "get" ns = false → srv.(authorized) "create" ns = true →
  ns ∈ srv.(namespaces) → srv.(configmaps) !! (ns, name) = Some cm →
  fetch_bundle requests_get cfg = Ok b →
  ensure_configmap requests_get cfg ns srv = (srv, Err (ApiException 409)).
Proof.
  intros Hget Hcreate Hns Hcm Hb.
  rewrite ensure_configmap_unfold, create_configmap_unfold, Hb. simpl.
  unfold server_read, server_create. rewrite Hget, Hcreate. simpl.
  rewrite !bool_decide_false by (intros Hn; by apply Hn). by rewrite Hcm.
Qed.
End ServerProps.

(** ** Concrete scenarios *)
Module Demo.
Definition cfg : Config := {|
  configmap_name := "ca-bundle"; ca_bundle_filename := "ca.crt";
  ca_bundle_url := "https://pki.example/ca.pem";
  ca_bundle_annotation := "ca-bundle.nodis.com.br/inject" |}.

Definition pem : list byte := String.list_byte_of_string "-----BEGIN CERTIFICATE-----".

Definition get_ok (url : string) : res Response :=
  Ok {| status_code := 200; content := pem |}.
Definition get_500 (url : string) : res Response :=
  Ok {| status_code := 500; content := [] |}.
Definition get_latin1 (url : string) : res Response :=
  Ok {| status_code := 200; content := [x43; xe9] |}.

Definition server (cms : gmap (string * string) V1ConfigMap) : ApiServer :=
  {| configmaps := cms; namespaces := {["ns1"]}; authorized := λ _ _, true |}.
Definition no_get_server (cms : gmap (string * string) V1ConfigMap) : ApiServer :=
  {| configmaps := cms; namespaces := {["ns1"]};
     authorized := λ verb _, negb (String.eqb verb "get") |}.

Definition bundle_cm : V1ConfigMap := configmap_body cfg "ns1" "-----BEGIN CERTIFICATE-----".
Definition other_cm : V1ConfigMap := configmap_body {| configmap_name := "other";
  ca_bundle_filename := "x"; ca_bundle_url := ""; ca_bundle_annotation := "" |} "ns1" "x".
Definition with_bundle : gmap (string * string) V1ConfigMap := {[("ns1", "ca-bundle") := bundle_cm]}.
Definition with_other : gmap (string * string) V1ConfigMap := {[("ns1", "other") := other_cm]}.
End Demo.

Lemma ensure_configmap_establishes_witness :
  let r := ensure_configmap Demo.get_ok Demo.cfg "ns1" (Demo.server ∅) in
  r = (r.1, Ok ()) ∧ ∃ cm, stored r.1 "ns1" "ca-bundle" = Some cm.
Proof.
  intros r. split; [vm_compute; reflexivity|].
  apply (ensure_configmap_establishes Demo.get_ok Demo.cfg "ns1" (Demo.server ∅)).
  vm_compute. reflexivity.
Defined.

Lemma ensure_configmap_read_hit_witness :
  ensure_configmap Demo.get_ok Demo.cfg "ns1" (Demo.server Demo.with_bundle)
  = (Demo.server Demo.with_bundle, Ok ()).
Proof.
  apply (ensure_configmap_read_hit Demo.get_ok Demo.cfg "ns1" _ Demo.bundle_cm).
  vm_compute. reflexivity.
Defined.

Lemma ensure_configmap_fetch_error_witness :
  ensure_configmap Demo.get_500 Demo.cfg "ns1" (Demo.server ∅) = (Demo.server ∅, Err (FetchError 500)).
Proof.
  apply (ensure_configmap_fetch_error Demo.get_500 Demo.cfg "ns1" _ 404
    {| status_code := 500; content := [] |}); [vm_compute; reflexivity | reflexivity | simpl; lia].
Defined.

Lemma ensure_configmap_decode_error_witness :
  ensure_configmap Demo.get_latin1 Demo.cfg "ns1" (Demo.server ∅) = (Demo.server ∅, Err UnicodeDecodeError).
Proof.
  apply (ensure_configmap_decode_error Demo.get_latin1 Demo.cfg "ns1" _ 404
    {| status_code := 200; content := [x43; xe9] |}); [vm_compute; reflexivity | reflexivity | reflexivity |].
  simpl. apply Exists_cons. right. apply Exists_cons. left. vm_compute. discriminate.
Defined.

Lemma concurrent_ensure_conflict_witness :
  ∃ e s1, rtc (step2 Demo.get_ok Demo.cfg "ns1") (Demo.server ∅, TRead, TRead) (s1, TDone (Ok ()), TDone (Err e)).
Proof.
  destruct (concurrent_ensure_conflict Demo.get_ok Demo.cfg "ns1" (Demo.server ∅)
    "-----BEGIN CERTIFICATE-----"
    (server_create "ns1" Demo.bundle_cm (Demo.server ∅)).1 Demo.bundle_cm)
    as (e & Hr & _); [vm_compute; reflexivity | vm_compute; reflexivity | vm_compute; reflexivity |].
  eauto.
Defined.

Lemma ensure_configmap_idempotent_witness :
  let s1 := (ensure_configmap Demo.get_ok Demo.cfg "ns1" (Demo.server ∅)).1 in
  ensure_configmap Demo.get_ok Demo.cfg "ns1" s1 = (s1, Ok ()).
Proof.
  intros s1. apply (ensure_configmap_idempotent Demo.get_ok Demo.cfg "ns1" (Demo.server ∅));
    vm_compute; reflexivity.
Defined.

Lemma ensure_configmap_masks_read_error_witness :
  ensure_configmap Demo.get_ok Demo.cfg "ns1" (Demo.no_get_server Demo.with_bundle)
  = (Demo.no_get_server Demo.with_bundle, Err (ApiException 409)).
Proof.
  apply (ensure_configmap_masks_read_error Demo.get_ok Demo.cfg "ns1" _ Demo.bundle_cm
    "-----BEGIN CERTIFICATE-----"); try (vm_compute; reflexivity).
Defined.
