(* ===== verification/Threads.v ===== *)
(** * The threaded server: any number of requests on one cluster

    [app.run] (line 105) starts Werkzeug's development server, which
    since Flask 1.0 serves each request in a thread of its own
    ([threaded=True] by default).  The requests share one thing: the
    cluster, which each triggered request reads and perhaps writes in
    the block of lines 50-53 ([Provisioner.tstep]).  The rest of a
    request works on its own copy of the object and on the bundle URL,
    so the cluster operations are the only interleaving points.

    A configuration is the cluster and the pool of request threads, each
    with its namespace.  [prun] runs one step of any thread of the pool;
    [pstep] also lets a new request arrive at any time.  The theorems
    hold of every run: a request that got past the block has a
    ConfigMap behind it, ConfigMaps in the cluster are never changed or
    removed, and the only ConfigMaps created are the CA bundles under the
    configured name with the fetched content.  Termination of the
    schedules is not claimed: the model's [requests.get] always returns,
    while the code's call (line 20) has no timeout. *)

From S2P Require Import Prelude PyVal Config Provisioner.

(** The request threads of the server: a namespace and the thread's
    position in lines 50-53. *)
Definition pool := list (string * thread).

Section Pool.
Context {S : Type} `{CoreV1ApiLaws S}.
Variable requests_get : string → res Response.
Variable cfg : Config.

Abbreviation name := cfg.(configmap_name).

(** One step of one thread of the pool, any thread. *)
Inductive prun : S * pool → S * pool → Prop :=
| prun_step s ts1 ns a ts2 s' a' :
    tstep requests_get cfg ns (s, a) (s', a') →
    prun (s, ts1 ++ (ns, a) :: ts2) (s', ts1 ++ (ns, a') :: ts2).

(** Line 105: the server runs the threads it has and accepts a new
    request, for the namespace of its object, at any time. *)
Inductive pstep : S * pool → S * pool → Prop :=
| pstep_spawn s ts ns : pstep (s, ts) (s, ts ++ [(ns, TRead)])
| pstep_run x y : prun x y → pstep x y.

(** ** The cluster operations of a thread *)
(** A create adds nothing but the CA bundle: the configured name, the
    fetched content, in the thread's namespace. *)
Lemma create_configmap_new ns s s' r ns' n' cm :
  create_configmap requests_get cfg ns s = (s', r) → stored s ns' n' = None → stored s' ns' n' = Some cm →
  ns' = ns ∧ n' = name ∧ ∃ b, fetch_bundle requests_get cfg = Ok b ∧ cm = configmap_body cfg ns b.
Proof.
  rewrite create_configmap_unfold. destruct (fetch_bundle _ _) as [b|]; [|by intros [= <- _]; congruence].
  destruct (create_namespaced_config_map _ _ _) as [s1 [a|e]] eqn:E; intros Heq Hn Hs; simplify_eq.
  - apply create_ok in E as [_ Hst]. rewrite Hst in Hs. case_decide as Hk; [|congruence].
    simplify_eq. eauto.
  - apply create_err in E as ->. congruence.
Qed.

Lemma tstep_new ns s a s' a' ns' n' cm :
  tstep requests_get cfg ns (s, a) (s', a') → stored s ns' n' = None → stored s' ns' n' = Some cm →
  n' = name ∧ ∃ b, fetch_bundle requests_get cfg = Ok b ∧ cm = configmap_body cfg ns' b.
Proof.
  inversion 1; subst; intros Hn Hs; try congruence.
  match goal with Hc : create_configmap _ _ _ _ = _ |- _ =>
    destruct (create_configmap_new _ _ _ _ _ _ _ Hc Hn Hs) as (-> & -> & ?) end. eauto.
Qed.

(** ** Invariants of the pool *)
(** A thread that has passed the block without exception has a
    ConfigMap in its namespace. *)
Definition pool_ok (s : S) (ts : pool) : Prop :=
  ∀ ns, (ns, TDone (Ok ())) ∈ ts → is_Some (stored s ns name).

Lemma pool_ok_frame s s' ts :
  (∀ ns n cm, stored s ns n = Some cm → stored s' ns n = Some cm) → pool_ok s ts → pool_ok s' ts.
Proof. intros Hm Hok ns Hin. destruct (Hok ns Hin) as [cm Hcm]. eauto. Qed.

Lemma prun_mono x y ns n cm : prun x y → stored x.1 ns n = Some cm → stored y.1 ns n = Some cm.
Proof. destruct 1. simpl. by eapply tstep_mono. Qed.

Lemma pstep_mono x y ns n cm : pstep x y → stored x.1 ns n = Some cm → stored y.1 ns n = Some cm.
Proof. destruct 1; [done|by eapply prun_mono]. Qed.

Lemma rtc_pstep_mono x y ns n cm : rtc pstep x y → stored x.1 ns n = Some cm → stored y.1 ns n = Some cm.
Proof. induction 1; eauto using pstep_mono. Qed.

Lemma pstep_pool_ok x y : pstep x y → pool_ok x.1 x.2 → pool_ok y.1 y.2.
Proof.
  destruct 1 as [s ts ns|x y [s ts1 ns a ts2 s' a' Ht]]; simpl; intros Hok ns' Hin.
  - apply elem_of_app in Hin as [Hin|Hin]; [by apply Hok|].
    by apply list_elem_of_singleton in Hin.
  - apply elem_of_app in Hin as [Hin|[[= <- <-]|Hin]%elem_of_cons].
    + eapply (pool_ok_frame s); [intros; by eapply tstep_mono| |]; [|done].
      intros ns'' Hin''. apply Hok. set_solver.
    + exact (tstep_passed_ok requests_get cfg ns' s a s' _ Ht eq_refl).
    + eapply (pool_ok_frame s); [intros; by eapply tstep_mono| |]; [|done].
      intros ns'' Hin''. apply Hok. set_solver.
Qed.

Lemma rtc_pstep_pool_ok x y : rtc pstep x y → pool_ok x.1 x.2 → pool_ok y.1 y.2.
Proof. induction 1; eauto using pstep_pool_ok. Qed.

Lemma rtc_pstep_new x y ns n cm :
  rtc pstep x y → stored x.1 ns n = None → stored y.1 ns n = Some cm →
  n = name ∧ ∃ b, fetch_bundle requests_get cfg = Ok b ∧ cm = configmap_body cfg ns b.
Proof.
  induction 1 as [x|x z y Hxz Hzy IH]; intros Hn Hs; [congruence|].
  destruct (stored z.1 ns n) as [cm'|] eqn:E; [|by apply IH].
  assert (cm' = cm) as <-.
  { pose proof (rtc_pstep_mono _ _ _ _ _ Hzy E). congruence. }
  destruct Hxz as [s ts ns0|x z [s ts1 ns0 a ts2 s' a' Ht]]; simpl in *; [congruence|].
  by eapply tstep_new.
Qed.

End Pool.

Section PoolProps.
Context {S : Type} `{CoreV1ApiLaws S}.
Variable requests_get : string → res Response.
Variable cfg : Config.

(** C26: in every run of the threaded server from an empty pool, any
    number of requests in any namespaces and any interleaving of their
    cluster operations, a request that has passed the block of lines
    50-53 without exception has the ConfigMap in its namespace. *)
Theorem pool_passed_ok s0 s ts ns :
  rtc (pstep requests_get cfg) (s0, []) (s, ts) → (ns, TDone (Ok ())) ∈ ts →
  is_Some (stored s ns cfg.(configmap_name)).
Proof.
  intros Hr Hin. refine (rtc_pstep_pool_ok requests_get cfg _ _ Hr _ ns Hin).
  by intros ? ?%elem_of_nil.
Qed.

(** C27: the server changes the cluster only by adding CA bundles: in
    every run, a ConfigMap present is never changed or removed, and a
    ConfigMap that appears has the configured name and the fetched
    bundle as content. *)
Theorem pool_cluster_changes x y ns n :
  rtc (pstep requests_get cfg) x y →
  (∀ cm, stored x.1 ns n = Some cm → stored y.1 ns n = Some cm) ∧
  (stored x.1 ns n = None → ∀ cm, stored y.1 ns n = Some cm →
     n = cfg.(configmap_name) ∧ ∃ b, fetch_bundle requests_get cfg = Ok b ∧ cm = configmap_body cfg ns b).
Proof.
  intros Hr. split; [intros cm; by apply (rtc_pstep_mono requests_get cfg x)|intros Hn cm; by apply (rtc_pstep_new requests_get cfg x)].
Qed.

End PoolProps.

(** ** Concrete runs *)
Module ThreadDemo.
Definition s1 : ApiServer := (create_configmap Demo.get_ok Demo.cfg "ns1" (Demo.server ∅)).1.
End ThreadDemo.

(** One request for [ns1] arrives at an empty cluster, reads, creates. *)
Lemma demo_run :
  rtc (pstep Demo.get_ok Demo.cfg) (Demo.server ∅, []) (ThreadDemo.s1, [("ns1", TDone (Ok ()))]).
Proof.
  eapply rtc_l; [apply (pstep_spawn _ _ _ [] "ns1")|].
  eapply rtc_l; [apply pstep_run, (prun_step _ _ _ [] "ns1" TRead [] (Demo.server ∅) TCreate); by eapply tstep_missing|].
  apply rtc_once, pstep_run, (prun_step _ _ _ [] "ns1" TCreate [] ThreadDemo.s1 (TDone (Ok ()))).
  apply tstep_create. vm_compute. reflexivity.
Qed.

Lemma pool_passed_ok_witness : is_Some (stored ThreadDemo.s1 "ns1" "ca-bundle").
Proof. apply (pool_passed_ok Demo.get_ok Demo.cfg _ _ _ "ns1" demo_run). by left. Defined.

Lemma pool_cluster_changes_witness :
  stored (Demo.server ∅) "ns1" "ca-bundle" = None ∧
  stored ThreadDemo.s1 "ns1" "ca-bundle" = Some Demo.bundle_cm ∧
  "ca-bundle" = Demo.cfg.(configmap_name) ∧
  ∃ b, fetch_bundle Demo.get_ok Demo.cfg = Ok b ∧ Demo.bundle_cm = configmap_body Demo.cfg "ns1" b.
Proof.
  assert (Hn : stored (Demo.server ∅) "ns1" "ca-bundle" = None) by reflexivity.
  assert (Hs : stored ThreadDemo.s1 "ns1" "ca-bundle" = Some Demo.bundle_cm) by (vm_compute; reflexivity).
  split; [exact Hn|split; [exact Hs|]].
  exact (proj2 (pool_cluster_changes Demo.get_ok Demo.cfg _ _ "ns1" "ca-bundle" demo_run) Hn _ Hs).
Defined.
