(* ===== verification/Planner.v ===== *)
(** * The MutationPlanner: the body of [mutate] ([app.py] lines 43-84)

    The object copy is checked for the trigger annotation; when it is
    set, the ConfigMap is provisioned ([Provisioner.ensure_configmap]) and
    the CA-bundle volume and mounts are appended, with the Python
    semantics of [PyVal] for every subscription, membership test,
    [.append] and assignment.  In-place mutation of a nested dict or list
    is written as reading the inner value, changing it, and assigning it
    back at the same key, which keeps the key's position.

    [planned_spec] is the abstract specification of the mutation (spec
    section 4.2): the volumes gain the CA volume at the end, each
    container and init container gains the mount at the end, every other
    field is unchanged.  [plan_triggered] proves that the code refines it
    and returns on every well-shaped pod. *)

From S2P Require Import Prelude PyVal Config Provisioner.

Section Planner.
Context {S : Type} `{CoreV1Api S}.
Variable requests_get : string → res Response.
Variable cfg : Config.

(** Lines 55-61. *)
Definition ca_volume : pyval :=
  PDict [("name", PStr "ca-bundle");
         ("configMap", PDict [("name", PStr cfg.(configmap_name)); ("defaultMode", PInt 420)])].

(** Lines 62-66. *)
Definition ca_volume_mount : pyval :=
  PDict [("name", PStr "ca-bundle");
         ("mountPath", PStr ("/etc/ssl/certs/" +:+ cfg.(ca_bundle_filename)));
         ("subPath", PStr cfg.(ca_bundle_filename))].

(** The idiom of lines 68-71, 75-78 and 81-84:
    [if k in o: o[k].append(x) else: o[k] = [x]]. *)
Definition append_or_init (k : string) (x o : pyval) : res pyval :=
  b ← py_contains k o;
  if (b : bool) then
    l ← py_getitem o k;
    l' ← py_append l x;
    py_setitem o k l'
  else py_setitem o k (PList [x]).

(** [for c in cs: ...] with the body of lines 75-78 or 81-84.  The
    elements of a list are mutated through the list; iterating a dict or
    a string yields new strings, on which the body can only raise, so
    such an iterable is returned unchanged when the loop completes. *)
Definition mount_all (cs : pyval) : res pyval :=
  match cs with
  | PList l => l' ← mapM (append_or_init "volumeMounts" ca_volume_mount) l; mret (PList l')
  | _ => xs ← py_iter cs; _ ← mapM (append_or_init "volumeMounts" ca_volume_mount) xs; mret cs
  end.

(** Lines 73-78. *)
Definition mount_init_containers (sp : pyval) : res pyval :=
  b ← py_contains "initContainers" sp;
  if (b : bool) then
    ics ← py_getitem sp "initContainers";
    ics' ← mount_all ics;
    py_setitem sp "initContainers" ics'
  else mret sp.

(** Lines 80-84. *)
Definition mount_containers (sp : pyval) : res pyval :=
  cs ← py_getitem sp "containers";
  cs' ← mount_all cs;
  py_setitem sp "containers" cs'.

(** Lines 68-84, on [modified_spec['spec']], assigned back. *)
Definition inject (o : pyval) : res pyval :=
  sp ← py_getitem o "spec";
  sp ← append_or_init "volumes" ca_volume sp;
  sp ← mount_init_containers sp;
  sp ← mount_containers sp;
  py_setitem o "spec" sp.

(** The [namespace] argument as the Kubernetes client takes it: [None]
    is refused before any request ([ApiValueError]).  The API server's
    schema makes [metadata.namespace] a string when present, so other
    types do not reach the webhook; they are a [TypeError] here. *)
Definition namespace_param (v : pyval) : res string :=
  match v with
  | PStr s => Ok s
  | PNone => raise ApiValueError
  | _ => raise TypeError
  end.

(** Lines 43-84: [modified_spec = copy.deepcopy(spec)] and the
    [if] block; the copy is the value itself. *)
Definition plan (spec : pyval) : ST S pyval :=
  let modified_spec := spec in
  md ← lift (py_getitem modified_spec "metadata");
  ann ← lift (py_getitem md "annotations");
  flag ← lift (py_get ann cfg.(ca_bundle_annotation));
  if py_eq_str flag "true" then
    nsv ← lift (py_getitem md "namespace");
    ns ← lift (namespace_param nsv);
    _ ← ensure_configmap requests_get cfg ns;
    lift (inject modified_spec)
  else mret modified_spec.
End Planner.

(** ** Views of an object and the abstract specification *)

(** The value at a key of a dict; [None] for a missing key or a non-dict. *)
Definition field (k : string) (o : pyval) : option pyval :=
  match o with PDict kvs => dict_lookup k kvs | _ => None end.

(** The list at a key, [[]] when absent. *)
Definition items (k : string) (o : pyval) : list pyval :=
  match field k o with Some (PList l) => l | _ => [] end.

Definition is_dict (o : pyval) : bool := match o with PDict _ => true | _ => false end.

(** The key is absent or holds a list. *)
Definition list_field_ok (k : string) (o : pyval) : bool :=
  match field k o with None | Some (PList _) => true | _ => false end.

Definition container_ok (c : pyval) : bool := is_dict c && list_field_ok "volumeMounts" c.

Definition containers_ok (v : pyval) : bool :=
  match v with PList l => forallb container_ok l | _ => false end.

(** The shape of a pod spec the mutation is specified for. *)
Definition pod_spec_ok (sp : pyval) : bool :=
  is_dict sp && list_field_ok "volumes" sp &&
  match field "initContainers" sp with None => true | Some v => containers_ok v end &&
  match field "containers" sp with Some v => containers_ok v | None => false end.

(** [o'] is [o] with [x] appended to the list at [k], created if absent. *)
Definition appended (k : string) (x o o' : pyval) : Prop :=
  field k o' = Some (PList (items k o ++ [x])) ∧ ∀ k', k' ≠ k → field k' o' = field k' o.

(** Each container of a list gained the mount. *)
Definition mounted_list (vm : pyval) (v v' : option pyval) : Prop :=
  match v, v' with
  | Some (PList cs), Some (PList cs') => Forall2 (appended "volumeMounts" vm) cs cs'
  | None, None => True
  | _, _ => False
  end.

(** Spec section 4.2, steps 3-7, on [spec]. *)
Definition planned_spec (vol vm sp sp' : pyval) : Prop :=
  field "volumes" sp' = Some (PList (items "volumes" sp ++ [vol])) ∧
  mounted_list vm (field "initContainers" sp) (field "initContainers" sp') ∧
  mounted_list vm (field "containers" sp) (field "containers" sp') ∧
  ∀ k, k ∉ ["volumes"; "initContainers"; "containers"] → field k sp' = field k sp.

(** ** Lemmas on the Python operations through [field] *)
Section FieldLemmas.
Implicit Types (o v x : pyval) (k : string).

Lemma field_dict o k v : field k o = Some v → is_dict o = true.
Proof. by destruct o. Qed.

Lemma py_getitem_field o k v : field k o = Some v → py_getitem o k = Ok v.
Proof. destruct o; simpl; try done. by intros ->. Qed.

Lemma py_getitem_field_None o k : is_dict o = true → field k o = None → py_getitem o k = Err (KeyError k).
Proof. destruct o; simpl; try done. by intros _ ->. Qed.

Lemma py_contains_field o k :
  is_dict o = true → py_contains k o = Ok (bool_decide (is_Some (field k o))).
Proof. by destruct o. Qed.

Lemma py_setitem_field o k v :
  is_dict o = true → ∃ o', py_setitem o k v = Ok o' ∧ is_dict o' = true ∧
    field k o' = Some v ∧ ∀ k', k' ≠ k → field k' o' = field k' o.
Proof.
  destruct o as [| | | | |kvs]; try done. intros _. eexists; split_and!; [done|done| |].
  - apply dict_lookup_set_eq.
  - intros k' Hne. by apply dict_lookup_set_ne.
Qed.

Lemma list_field_ok_cases o k :
  list_field_ok k o = true → field k o = None ∨ ∃ l, field k o = Some (PList l).
Proof. unfold list_field_ok. destruct (field k o) as [[]|]; naive_solver. Qed.

(** The idiom [if k in o: o[k].append(x) else: o[k] = [x]]. *)
Lemma append_or_init_spec k x o :
  is_dict o = true → list_field_ok k o = true →
  ∃ o', append_or_init k x o = Ok o' ∧ is_dict o' = true ∧ appended k x o o'.
Proof.
  intros Hd Hl. unfold append_or_init, appended, items. rewrite py_contains_field by done.
  destruct (list_field_ok_cases o k Hl) as [Hn | [l Hs]].
  - rewrite Hn, bool_decide_false by (by intros []). simpl.
    destruct (py_setitem_field o k (PList [x]) Hd) as (o' & -> & ? & ? & ?). eauto.
  - rewrite Hs, bool_decide_true by eauto. simpl. rewrite (py_getitem_field _ _ _ Hs). simpl.
    destruct (py_setitem_field o k (PList (l ++ [x])) Hd) as (o' & -> & ? & ? & ?). eauto.
Qed.

Lemma appended_list_field_ok k k' x o o' :
  k' ≠ k → appended k x o o' → list_field_ok k' o' = list_field_ok k' o.
Proof. intros Hne [_ Ho]. unfold list_field_ok. by rewrite Ho. Qed.
End FieldLemmas.

#[export] Hint Resolve field_dict py_getitem_field : kac.

(** ** The mutation steps meet their specifications *)
Section InjectSpec.
Variable cfg : Config.
Abbreviation vm := (ca_volume_mount cfg).
Abbreviation vol := (ca_volume cfg).

Lemma container_ok_appended c c' :
  is_dict c' = true → appended "volumeMounts" vm c c' → container_ok c' = true.
Proof. intros Hd [Hf _]. unfold container_ok, list_field_ok. by rewrite Hd, Hf. Qed.

Lemma mount_all_spec cs :
  containers_ok cs = true →
  ∃ cs', mount_all cfg cs = Ok cs' ∧ containers_ok cs' = true ∧ mounted_list vm (Some cs) (Some cs').
Proof.
  destruct cs as [| | | |l|]; try done. simpl. intros Hl.
  enough (∃ l', mapM (append_or_init "volumeMounts" vm) l = Ok l' ∧
            forallb container_ok l' = true ∧ Forall2 (appended "volumeMounts" vm) l l')
    as (l' & -> & ? & ?) by (eexists; eauto).
  induction l as [|c l IH]; simpl in *; [eauto|].
  apply andb_true_iff in Hl as [Hc Hl]. apply andb_true_iff in Hc as [Hd Hv].
  destruct (append_or_init_spec "volumeMounts" vm c Hd Hv) as (c' & -> & Hd' & Happ).
  destruct (IH Hl) as (l' & El & Hok & Hall). exists (c' :: l'). simpl. rewrite El.
  split_and!; [done| |by constructor]. simpl. rewrite Hok, andb_true_r.
  by eapply container_ok_appended.
Qed.

Lemma mount_init_containers_spec sp :
  is_dict sp = true →
  match field "initContainers" sp with None => true | Some v => containers_ok v end = true →
  ∃ sp', mount_init_containers cfg sp = Ok sp' ∧ is_dict sp' = true ∧
    mounted_list vm (field "initContainers" sp) (field "initContainers" sp') ∧
    ∀ k, k ≠ "initContainers" → field k sp' = field k sp.
Proof.
  intros Hd Hic. unfold mount_init_containers. rewrite py_contains_field by done.
  destruct (field "initContainers" sp) as [ics|] eqn:E.
  - rewrite bool_decide_true by eauto. simpl. rewrite (py_getitem_field _ _ _ E). simpl.
    destruct (mount_all_spec ics Hic) as (ics' & -> & _ & Hm). simpl.
    destruct (py_setitem_field sp "initContainers" ics' Hd) as (sp' & -> & Hd' & Hf & Ho).
    exists sp'. by rewrite Hf.
  - rewrite bool_decide_false by (by intros []). simpl. exists sp. by rewrite E.
Qed.

Lemma mount_containers_spec sp cs :
  is_dict sp = true → field "containers" sp = Some cs → containers_ok cs = true →
  ∃ sp', mount_containers cfg sp = Ok sp' ∧ is_dict sp' = true ∧
    mounted_list vm (field "containers" sp) (field "containers" sp') ∧
    ∀ k, k ≠ "containers" → field k sp' = field k sp.
Proof.
  intros Hd Hf Hok. unfold mount_containers. rewrite (py_getitem_field _ _ _ Hf). simpl.
  destruct (mount_all_spec cs Hok) as (cs' & -> & _ & Hm). simpl.
  destruct (py_setitem_field sp "containers" cs' Hd) as (sp' & -> & Hd' & Hf' & Ho).
  exists sp'. by rewrite Hf, Hf'.
Qed.

(** Lines 68-84 on a well-shaped pod: they return, and do what spec
    section 4.2 says. *)
Lemma inject_spec o sp :
  field "spec" o = Some sp → pod_spec_ok sp = true →
  ∃ o' sp', inject cfg o = Ok o' ∧ field "spec" o' = Some sp' ∧ planned_spec vol vm sp sp' ∧
    ∀ k, k ≠ "spec" → field k o' = field k o.
Proof.
  intros Hsp Hok. unfold pod_spec_ok in Hok. apply andb_true_iff in Hok as [Hok Hc].
  apply andb_true_iff in Hok as [Hok Hic]. apply andb_true_iff in Hok as [Hd Hv].
  destruct (field "containers" sp) as [cs|] eqn:Ecs; [|done].
  unfold inject. rewrite (py_getitem_field _ _ _ Hsp). simpl.
  destruct (append_or_init_spec "volumes" vol sp Hd Hv) as (sp1 & -> & Hd1 & Hv1 & Ho1). simpl.
  rewrite <- (Ho1 "initContainers") in Hic by done.
  destruct (mount_init_containers_spec sp1 Hd1 Hic) as (sp2 & -> & Hd2 & Hm2 & Ho2). simpl.
  assert (Ecs2 : field "containers" sp2 = Some cs) by (rewrite Ho2, Ho1; done).
  destruct (mount_containers_spec sp2 cs Hd2 Ecs2 Hc) as (sp3 & -> & Hd3 & Hm3 & Ho3). simpl.
  destruct (py_setitem_field o "spec" sp3 (field_dict _ _ _ Hsp)) as (o' & -> & _ & Hf' & Ho').
  exists o', sp3. split_and!; [done|done| |done]. split_and!.
  - by rewrite Ho3, Ho2.
  - rewrite Ho3 by done. by rewrite <- (Ho1 "initContainers").
  - by rewrite Ecs2, <- Ecs in Hm3.
  - intros k Hk. rewrite Ho3, Ho2, Ho1; [done| set_solver..].
Qed.
End InjectSpec.

Lemma py_get_field ann k v : field k ann = Some v → py_get ann k = Ok v.
Proof. destruct ann; simpl; try done. by intros ->. Qed.

Lemma container_ok_of_appended vm c c' : appended "volumeMounts" vm c c' → container_ok c' = true.
Proof. intros [Hf _]. unfold container_ok, list_field_ok. rewrite Hf. by rewrite (field_dict _ _ _ Hf). Qed.

Lemma mounted_list_ok vm v v' :
  mounted_list vm (Some v) v' → ∃ v'', v' = Some v'' ∧ containers_ok v'' = true.
Proof.
  destruct v as [| | | |cs|], v' as [[| | | |cs'|]|]; try done. intros Hall. eexists; split; [done|].
  simpl. apply forallb_forall. intros c' Hc'%list_elem_of_In.
  apply list_elem_of_lookup in Hc' as [i Hi].
  destruct (Forall2_lookup_r _ _ _ _ _ Hall Hi) as (c & _ & Happ).
  by eapply container_ok_of_appended.
Qed.

(** The planned spec is again a well-shaped pod spec. *)
Lemma planned_spec_ok vol vm sp sp' :
  pod_spec_ok sp = true → is_dict sp' = true → planned_spec vol vm sp sp' → pod_spec_ok sp' = true.
Proof.
  unfold pod_spec_ok. intros Hok Hd (Hv & Hic & Hc & _).
  apply andb_true_iff in Hok as [Hok Hcs]. apply andb_true_iff in Hok as [_ Hics].
  rewrite Hd. unfold list_field_ok. rewrite Hv. simpl.
  destruct (field "containers" sp) as [cs|]; [|done].
  destruct (mounted_list_ok _ _ _ Hc) as (cs' & -> & ->).
  destruct (field "initContainers" sp) as [ics|].
  - by destruct (mounted_list_ok _ _ _ Hic) as (ics' & -> & ->).
  - by destruct (field "initContainers" sp').
Qed.

Section PlanProps.
Context {S : Type} `{CoreV1Api S}.
Variable requests_get : string → res Response.
Variable cfg : Config.
Abbreviation key := cfg.(ca_bundle_annotation).

(** With the trigger set and a string namespace, [plan] is provisioning
    followed by [inject]. *)
Lemma plan_triggered_unfold spec s md ann ns :
  field "metadata" spec = Some md → field "annotations" md = Some ann →
  field key ann = Some (PStr "true") → field "namespace" md = Some (PStr ns) →
  plan requests_get cfg spec s = match ensure_configmap requests_get cfg ns s with
                 | (s', Ok _) => (s', inject cfg spec)
                 | (s', Err e) => (s', Err e)
                 end.
Proof.
  intros Hmd Hann Hflag Hns. unfold plan. unfold_monads.
  rewrite (py_getitem_field _ _ _ Hmd), (py_getitem_field _ _ _ Hann).
  rewrite (py_get_field _ _ _ Hflag). simpl. rewrite (py_getitem_field _ _ _ Hns). simpl.
  by destruct (ensure_configmap _ _ _ _) as [? []].
Qed.

(** C2: refinement.  On a pod whose trigger annotation is the string
    ["true"], with a string namespace and a well-shaped spec, [plan]
    returns (after provisioning) an object whose spec is related to the
    original by [planned_spec] and whose other fields are unchanged. *)
Theorem plan_triggered spec s s' md ann ns sp :
  field "metadata" spec = Some md → field "annotations" md = Some ann →
  field key ann = Some (PStr "true") → field "namespace" md = Some (PStr ns) →
  field "spec" spec = Some sp → pod_spec_ok sp = true →
  ensure_configmap requests_get cfg ns s = (s', Ok ()) →
  ∃ spec' sp', plan requests_get cfg spec s = (s', Ok spec') ∧ field "spec" spec' = Some sp' ∧
    planned_spec (ca_volume cfg) (ca_volume_mount cfg) sp sp' ∧
    ∀ k, k ≠ "spec" → field k spec' = field k spec.
Proof.
  intros Hmd Hann Hflag Hns Hsp Hok Hens.
  destruct (inject_spec cfg spec sp Hsp Hok) as (spec' & sp' & Hinj & Hrest).
  exists spec', sp'. split; [|done].
  by rewrite (plan_triggered_unfold _ _ _ _ _ Hmd Hann Hflag Hns), Hens, Hinj.
Qed.

(** C4: any annotation value other than the string ["true"] (absent,
    ["True"], a JSON [true]) leaves the object and the cluster alone. *)
Theorem plan_untriggered spec s md ann flag :
  field "metadata" spec = Some md → field "annotations" md = Some ann →
  py_get ann key = Ok flag → py_eq_str flag "true" = false →
  plan requests_get cfg spec s = (s, Ok spec).
Proof.
  intros Hmd Hann Hflag Hf. unfold plan. unfold_monads.
  by rewrite (py_getitem_field _ _ _ Hmd), (py_getitem_field _ _ _ Hann), Hflag, Hf.
Qed.

(** C18: a pod with no [metadata.annotations] at all makes the handler
    raise [KeyError('annotations')]. *)
Theorem plan_missing_annotations spec s md :
  field "metadata" spec = Some md → is_dict md = true → field "annotations" md = None →
  plan requests_get cfg spec s = (s, Err (KeyError "annotations")).
Proof.
  intros Hmd Hd Hann. unfold plan. unfold_monads.
  by rewrite (py_getitem_field _ _ _ Hmd), (py_getitem_field_None _ _ Hd Hann).
Qed.

(** C17: a triggered object whose spec has no [containers] raises
    [KeyError('containers')], after the ConfigMap was provisioned. *)
Theorem plan_missing_containers spec s s' md ann ns sp :
  field "metadata" spec = Some md → field "annotations" md = Some ann →
  field key ann = Some (PStr "true") → field "namespace" md = Some (PStr ns) →
  field "spec" spec = Some sp → is_dict sp = true → list_field_ok "volumes" sp = true →
  field "initContainers" sp = None → field "containers" sp = None →
  ensure_configmap requests_get cfg ns s = (s', Ok ()) →
  plan requests_get cfg spec s = (s', Err (KeyError "containers")).
Proof.
  intros Hmd Hann Hflag Hns Hsp Hd Hv Hic Hc Hens.
  rewrite (plan_triggered_unfold _ _ _ _ _ Hmd Hann Hflag Hns), Hens. unfold inject. rewrite (py_getitem_field _ _ _ Hsp). simpl.
  destruct (append_or_init_spec "volumes" (ca_volume cfg) sp Hd Hv) as (sp1 & -> & Hd1 & _ & Ho1).
  simpl. unfold mount_init_containers. rewrite py_contains_field, Ho1, Hic by done. simpl.
  unfold mount_containers. rewrite (py_getitem_field_None sp1 "containers"); [done|done|by rewrite Ho1].
Qed.

(** C16: a failure of provisioning aborts the mutation with the same
    exception and the cluster state provisioning left. *)
Theorem plan_ensure_error spec s s' md ann ns e :
  field "metadata" spec = Some md → field "annotations" md = Some ann →
  field key ann = Some (PStr "true") → field "namespace" md = Some (PStr ns) →
  ensure_configmap requests_get cfg ns s = (s', Err e) →
  plan requests_get cfg spec s = (s', Err e).
Proof.
  intros Hmd Hann Hflag Hns Hens.
  by rewrite (plan_triggered_unfold _ _ _ _ _ Hmd Hann Hflag Hns), Hens.
Qed.
End PlanProps.

(** ** Well-formedness is preserved *)
Lemma append_or_init_wf k x o o' : wf o → wf x → append_or_init k x o = Ok o' → wf o'.
Proof.
  intros Ho Hx. unfold append_or_init.
  destruct (py_contains k o) as [[]|]; simpl; [| |done].
  2: { intros Hs. apply (py_setitem_wf o k (PList [x]) o' Ho); [apply wf_list; by repeat constructor | exact Hs]. }
  destruct (py_getitem o k) as [l|] eqn:El; simpl; [|done].
  destruct (py_append l x) as [l'|] eqn:El'; simpl; [|done].
  eauto with kac.
Qed.

Lemma mapM_append_or_init_wf k x l l' :
  Forall wf l → wf x → mapM (append_or_init k x) l = Ok l' → Forall wf l'.
Proof.
  intros Hl Hx Hm. apply mapM_res_Ok in Hm. induction Hm; inversion Hl; subst; constructor;
    eauto using append_or_init_wf.
Qed.

Section PlanWf.
Variable cfg : Config.

Lemma ca_volume_wf : wf (ca_volume cfg).
Proof. simpl. split_and!; repeat constructor; set_solver. Qed.

Lemma ca_volume_mount_wf : wf (ca_volume_mount cfg).
Proof. simpl. split_and!; repeat constructor; set_solver. Qed.

Lemma mount_all_wf cs cs' : wf cs → mount_all cfg cs = Ok cs' → wf cs'.
Proof.
  intros Hcs. destruct cs as [| | | |l|kvs]; simpl; try done;
    destruct (mapM _ _) as [l'|] eqn:E; simpl; intros Hm;
    unfold mret, res_ret in Hm; simplify_eq; try done.
  apply wf_list. apply wf_list in Hcs. eauto using mapM_append_or_init_wf, ca_volume_mount_wf.
Qed.

Lemma mount_init_containers_wf sp sp' : wf sp → mount_init_containers cfg sp = Ok sp' → wf sp'.
Proof.
  unfold mount_init_containers. intros Hs H. apply bind_Ok in H as ([|] & _ & H); res_inv H; [|done].
  eapply py_setitem_wf; [done| |done]. eapply mount_all_wf; [eapply py_getitem_wf|]; done.
Qed.

Lemma mount_containers_wf sp sp' : wf sp → mount_containers cfg sp = Ok sp' → wf sp'.
Proof.
  unfold mount_containers. intros Hs H. res_inv H.
  eapply py_setitem_wf; [done| |done]. eapply mount_all_wf; [eapply py_getitem_wf|]; done.
Qed.

Lemma inject_wf o o' : wf o → inject cfg o = Ok o' → wf o'.
Proof.
  unfold inject. intros Ho H. res_inv H. eapply py_setitem_wf; [done| |done].
  eapply mount_containers_wf; [|done]. eapply mount_init_containers_wf; [|done].
  eapply append_or_init_wf; [eapply py_getitem_wf; done|apply ca_volume_wf|done].
Qed.
End PlanWf.

Section PlanInvariants.
Context {S : Type} `{CoreV1Api S}.
Variable requests_get : string → res Response.
Variable cfg : Config.

(** [plan] returns either its input or the result of [inject]. *)
Lemma plan_result spec s s' spec' :
  plan requests_get cfg spec s = (s', Ok spec') → spec' = spec ∨ inject cfg spec = Ok spec'.
Proof.
  unfold plan. unfold_monads. repeat case_match; intros; simplify_eq; eauto.
Qed.

End PlanInvariants.

Section Reinvocation.
Context {S : Type} `{CoreV1Api S}.
Variable requests_get : string → res Response.
Variable cfg : Config.

(** C19: the mutation is not idempotent.  Run again on its own output
    (a reinvoked webhook, or an object that already carries the
    volume), it appends a second [ca-bundle] volume. *)
Theorem plan_reinvocation_duplicates spec s s1 s2 md ann ns sp :
  field "metadata" spec = Some md → field "annotations" md = Some ann →
  field cfg.(ca_bundle_annotation) ann = Some (PStr "true") → field "namespace" md = Some (PStr ns) →
  field "spec" spec = Some sp → pod_spec_ok sp = true →
  ensure_configmap requests_get cfg ns s = (s1, Ok ()) → ensure_configmap requests_get cfg ns s1 = (s2, Ok ()) →
  ∃ spec1 spec2 sp2, plan requests_get cfg spec s = (s1, Ok spec1) ∧ plan requests_get cfg spec1 s1 = (s2, Ok spec2) ∧
    field "spec" spec2 = Some sp2 ∧
    items "volumes" sp2 = items "volumes" sp ++ [ca_volume cfg; ca_volume cfg].
Proof.
  intros Hmd Hann Hflag Hns Hsp Hok He1 He2.
  destruct (inject_spec cfg spec sp Hsp Hok) as (spec1 & sp1 & Hi1 & Hsp1 & Hpl1 & Ho1).
  assert (Hok1 : pod_spec_ok sp1 = true).
  { eapply planned_spec_ok; [done| |done]. destruct Hpl1 as [Hv _]. by eapply field_dict. }
  destruct (inject_spec cfg spec1 sp1 Hsp1 Hok1) as (spec2 & sp2 & Hi2 & Hsp2 & Hpl2 & _).
  assert (Hmd1 : field "metadata" spec1 = Some md) by (rewrite Ho1; done).
  exists spec1, spec2, sp2. split_and!; [| |done|].
  - by rewrite (plan_triggered_unfold _ _ _ _ _ _ _ Hmd Hann Hflag Hns), He1, Hi1.
  - by rewrite (plan_triggered_unfold _ _ _ _ _ _ _ Hmd1 Hann Hflag Hns), He2, Hi2.
  - destruct Hpl1 as [Hv1 _], Hpl2 as [Hv2 _]. unfold items at 1. rewrite Hv2.
    unfold items at 1. rewrite Hv1. by rewrite <- app_assoc.
Qed.
End Reinvocation.

(** ** Concrete scenarios *)
Module PodDemo.
Definition trig : pyval := PDict [("ca-bundle.nodis.com.br/inject", PStr "true")].
Definition meta (ann : pyval) : pyval :=
  PDict [("name", PStr "app"); ("namespace", PStr "ns1"); ("annotations", ann)].
Definition app : pyval := PDict [("name", PStr "app"); ("image", PStr "nginx")].
Definition pod (ann : pyval) : pyval :=
  PDict [("metadata", meta ann); ("spec", PDict [("containers", PList [app])])].
Definition empty_spec_pod : pyval :=
  PDict [("metadata", meta trig); ("spec", PDict [])].
Definition labels_only : pyval := PDict [("metadata", PDict [("labels", PDict [])])].
Definition s1 : ApiServer := (ensure_configmap Demo.get_ok Demo.cfg "ns1" (Demo.server ∅)).1.
End PodDemo.

Lemma plan_triggered_witness :
  ∃ spec' sp', plan Demo.get_ok Demo.cfg (PodDemo.pod PodDemo.trig) (Demo.server ∅) = (PodDemo.s1, Ok spec') ∧
    field "spec" spec' = Some sp' ∧
    planned_spec (ca_volume Demo.cfg) (ca_volume_mount Demo.cfg) (PDict [("containers", PList [PodDemo.app])]) sp' ∧
    ∀ k, k ≠ "spec" → field k spec' = field k (PodDemo.pod PodDemo.trig).
Proof.
  apply (plan_triggered Demo.get_ok Demo.cfg (PodDemo.pod PodDemo.trig) (Demo.server ∅) PodDemo.s1
    (PodDemo.meta PodDemo.trig) PodDemo.trig "ns1"); try reflexivity; vm_compute; reflexivity.
Defined.

Lemma plan_untriggered_witness :
  let pod := PodDemo.pod (PDict [("ca-bundle.nodis.com.br/inject", PBool true)]) in
  plan Demo.get_ok Demo.cfg pod (Demo.server ∅) = (Demo.server ∅, Ok pod).
Proof.
  intros pod. apply (plan_untriggered Demo.get_ok Demo.cfg pod (Demo.server ∅)
    (PodDemo.meta (PDict [("ca-bundle.nodis.com.br/inject", PBool true)]))
    (PDict [("ca-bundle.nodis.com.br/inject", PBool true)]) (PBool true)); reflexivity.
Defined.

Lemma plan_missing_annotations_witness :
  plan Demo.get_ok Demo.cfg PodDemo.labels_only (Demo.server ∅)
  = (Demo.server ∅, Err (KeyError "annotations")).
Proof. apply (plan_missing_annotations _ _ _ _ (PDict [("labels", PDict [])])); reflexivity. Defined.

Lemma plan_missing_containers_witness :
  plan Demo.get_ok Demo.cfg PodDemo.empty_spec_pod (Demo.server ∅)
  = (PodDemo.s1, Err (KeyError "containers")).
Proof.
  apply (plan_missing_containers _ _ _ _ _ (PodDemo.meta PodDemo.trig) PodDemo.trig "ns1" (PDict []));
    try reflexivity; vm_compute; reflexivity.
Defined.

Lemma plan_ensure_error_witness :
  plan Demo.get_500 Demo.cfg (PodDemo.pod PodDemo.trig) (Demo.server ∅)
  = (Demo.server ∅, Err (FetchError 500)).
Proof.
  apply (plan_ensure_error _ _ _ _ _ (PodDemo.meta PodDemo.trig) PodDemo.trig "ns1"); try reflexivity; vm_compute; reflexivity.
Defined.

Lemma plan_reinvocation_duplicates_witness :
  ∃ spec1 spec2 sp2,
    plan Demo.get_ok Demo.cfg (PodDemo.pod PodDemo.trig) (Demo.server ∅) = (PodDemo.s1, Ok spec1) ∧
    plan Demo.get_ok Demo.cfg spec1 PodDemo.s1 = (PodDemo.s1, Ok spec2) ∧
    field "spec" spec2 = Some sp2 ∧
    items "volumes" sp2 = [ca_volume Demo.cfg; ca_volume Demo.cfg].
Proof.
  apply (plan_reinvocation_duplicates Demo.get_ok Demo.cfg (PodDemo.pod PodDemo.trig) (Demo.server ∅)
    PodDemo.s1 PodDemo.s1 (PodDemo.meta PodDemo.trig) PodDemo.trig "ns1"
    (PDict [("containers", PList [PodDemo.app])])); try reflexivity; vm_compute; reflexivity.
Defined.
