(* ===== verification/Growth.v ===== *)
(** * Growth: a JSON value extended without removing or reordering

    [grows a b] holds when [b] is [a] with elements appended at the end of
    its lists and new keys appended at the end of its dicts, at any
    depth, every scalar unchanged.  It is the shape of every change the
    planner makes ([app.py] lines 68-84: [.append] on a list, [o[k] = v]
    on an existing key, which keeps its position, or on a new key, which
    goes to the end), and [inject_grows] proves that [inject] produces a
    value that grows from its input.  [Diff] uses it to show that the
    webhook's patch only adds. *)

From S2P Require Import Prelude PyVal Config Provisioner Planner.

Fixpoint grows (a b : pyval) {struct a} : bool :=
  match a, b with
  | PList la, PList lb =>
      (fix go (la lb : list pyval) : bool :=
         match la, lb with
         | [], _ => true
         | x :: la', y :: lb' => grows x y && go la' lb'
         | _ :: _, [] => false
         end) la lb
  | PDict ka, PDict kb =>
      (fix go (ka kb : dict) : bool :=
         match ka, kb with
         | [], _ => true
         | (k, x) :: ka', (k', y) :: kb' => String.eqb k k' && grows x y && go ka' kb'
         | _ :: _, [] => false
         end) ka kb &&
      bool_decide (Forall (λ k, k ∉ ka.*1) (drop (length ka) kb).*1)
  | _, _ => bool_decide (a = b)
  end.

(** The two inner loops of [grows]. *)
Fixpoint grows_list (la lb : list pyval) : bool :=
  match la, lb with
  | [], _ => true
  | x :: la', y :: lb' => grows x y && grows_list la' lb'
  | _ :: _, [] => false
  end.

Fixpoint grows_kvs (ka kb : dict) : bool :=
  match ka, kb with
  | [], _ => true
  | (k, x) :: ka', (k', y) :: kb' => String.eqb k k' && grows x y && grows_kvs ka' kb'
  | _ :: _, [] => false
  end.

(** Two key-value pairs with the same key, the second value grown. *)
Definition kv_grows (kv kv' : string * pyval) : Prop := kv.1 = kv'.1 ∧ grows kv.2 kv'.2 = true.

Lemma grows_eq a b :
  grows a b =
    match a, b with
    | PList la, PList lb => grows_list la lb
    | PDict ka, PDict kb => grows_kvs ka kb && bool_decide (Forall (λ k, k ∉ ka.*1) (drop (length ka) kb).*1)
    | _, _ => bool_decide (a = b)
    end.
Proof. destruct a, b; reflexivity. Qed.

Lemma grows_list_spec la lb :
  grows_list la lb = true ↔ ∃ lb1 lb2, lb = lb1 ++ lb2 ∧ Forall2 (λ x y, grows x y = true) la lb1.
Proof.
  revert lb. induction la as [|x la IH]; intros [|y lb]; simpl.
  - split; [exists [], []; split; constructor|done].
  - split; [exists [], (y :: lb); split; [done|constructor]|done].
  - split; [done|]. intros ([|? ?] & ? & ? & H); [inversion H|done].
  - rewrite andb_true_iff, IH. split.
    + intros [Hxy (lb1 & lb2 & -> & H)]. exists (y :: lb1), lb2. split; [done|by constructor].
    + intros ([|y' lb1] & lb2 & E & H); inversion H; simplify_eq/=. eauto.
Qed.

Lemma grows_kvs_spec ka kb :
  grows_kvs ka kb = true ↔ ∃ kb1 kb2, kb = kb1 ++ kb2 ∧ Forall2 kv_grows ka kb1.
Proof.
  revert kb. induction ka as [|[k x] ka IH]; intros [|[k' y] kb]; simpl.
  - split; [exists [], []; split; constructor|done].
  - split; [exists [], ((k', y) :: kb); split; [done|constructor]|done].
  - split; [done|]. intros ([|? ?] & ? & ? & H); [inversion H|done].
  - rewrite !andb_true_iff, String.eqb_eq, IH. unfold kv_grows. split.
    + intros [[-> Hxy] (kb1 & kb2 & -> & H)]. exists ((k', y) :: kb1), kb2. split; [done|by constructor].
    + intros ([|[k1 y'] kb1] & kb2 & E & H); inversion H as [|? ? ? ? [Hk Hg]]; simplify_eq/=. naive_solver.
Qed.

Lemma kv_grows_keys ka kb : Forall2 kv_grows ka kb → ka.*1 = kb.*1.
Proof. induction 1 as [|kv kv' l l' [Hk _] _ IH]; [done|]. rewrite !fmap_cons. by f_equal. Qed.

(** [grows] on lists and on dicts, in words. *)
Lemma grows_PList la lb :
  grows (PList la) (PList lb) = true ↔ ∃ lb1 lb2, lb = lb1 ++ lb2 ∧ Forall2 (λ x y, grows x y = true) la lb1.
Proof. rewrite grows_eq. apply grows_list_spec. Qed.

Lemma grows_PDict ka kb :
  grows (PDict ka) (PDict kb) = true ↔
    ∃ kb1 kb2, kb = kb1 ++ kb2 ∧ Forall2 kv_grows ka kb1 ∧ Forall (λ k, k ∉ ka.*1) kb2.*1.
Proof.
  rewrite grows_eq, andb_true_iff, grows_kvs_spec, bool_decide_eq_true. split.
  - intros [(kb1 & kb2 & -> & H) Hf]. exists kb1, kb2. split_and!; [done|done|].
    by rewrite (drop_app_length' kb1 kb2) in Hf by (by eapply Forall2_length).
  - intros (kb1 & kb2 & -> & H & Hf). split; [eauto|].
    by rewrite (drop_app_length' kb1 kb2) by (by eapply Forall2_length).
Qed.

(** Only lists and dicts can grow; any other value grows only into itself. *)
Lemma grows_cases a b :
  grows a b = true →
  (∃ la lb, a = PList la ∧ b = PList lb) ∨ (∃ ka kb, a = PDict ka ∧ b = PDict kb) ∨ a = b.
Proof. rewrite grows_eq. destruct a, b; rewrite ?bool_decide_eq_true; naive_solver. Qed.

(** ** [grows] is a preorder *)
Lemma Forall2_grows_refl l : Forall (λ x, grows x x = true) l → Forall2 (λ x y, grows x y = true) l l.
Proof. induction 1; by constructor. Qed.

Lemma Forall2_trans_IH {A} (R : A → A → Prop) la lb lc :
  Forall (λ a, ∀ b c, R a b → R b c → R a c) la → Forall2 R la lb → Forall2 R lb lc → Forall2 R la lc.
Proof.
  intros HIH Hab. revert lc. induction Hab as [|a b la lb Hab _ IH]; intros lc Hbc; [by inversion Hbc|].
  inversion Hbc as [|? c ? lc' Hbc' Hl]; subst. apply Forall_cons in HIH as [Ha Hla].
  constructor; [by eapply Ha|by apply IH].
Qed.

Lemma grows_refl a : grows a a = true.
Proof.
  induction a as [| | | |l IH|kvs IH] using pyval_ind'; try by apply bool_decide_eq_true.
  - apply grows_PList. exists l, []. split; [by rewrite app_nil_r|by apply Forall2_grows_refl].
  - apply grows_PDict. exists kvs, []. split_and!; [by rewrite app_nil_r| |constructor].
    induction IH; constructor; [by split|done].
Qed.

Lemma Forall2_kv_grows_refl kvs : Forall2 kv_grows kvs kvs.
Proof. induction kvs; constructor; [split; [done|apply grows_refl]|done]. Qed.

Lemma grows_trans a b c : grows a b = true → grows b c = true → grows a c = true.
Proof.
  revert b c. induction a as [?|?|?|?|la IH|ka IH] using pyval_ind'; intros y w Hab Hbc;
    destruct (grows_cases _ _ Hab) as [(la' & lb & [=] & ->)|[(ka' & kb & [=] & ->)|<-]]; subst; try done.
  - destruct (grows_cases _ _ Hbc) as [(? & lc & [= <-] & ->)|[(? & ? & ? & ?)|<-]]; [|done|done].
    apply grows_PList in Hab as (lb1 & lb2 & -> & H1), Hbc as (lc1 & lc2 & -> & H2).
    apply Forall2_app_inv_l in H2 as (lc11 & lc12 & H21 & H22 & ->).
    apply grows_PList. exists lc11, (lc12 ++ lc2). split; [by rewrite app_assoc|].
    by eapply Forall2_trans_IH.
  - destruct (grows_cases _ _ Hbc) as [(? & ? & ? & ?)|[(? & kc & [= <-] & ->)|<-]]; [done| |done].
    apply grows_PDict in Hab as (kb1 & kb2 & -> & H1 & Hf1), Hbc as (kc1 & kc2 & -> & H2 & Hf2).
    apply Forall2_app_inv_l in H2 as (kc11 & kc12 & H21 & H22 & ->).
    apply grows_PDict. exists kc11, (kc12 ++ kc2). split_and!; [by rewrite app_assoc| |].
    + eapply Forall2_trans_IH; [|done|done]. eapply Forall_impl; [done|].
      intros [k x] Hx [k' y] [k'' z] [Hk1 Hg1] [Hk2 Hg2]. split; [simpl in *; congruence|by eapply Hx].
    + rewrite fmap_app, Forall_app, <- (kv_grows_keys _ _ H22). split; [done|].
      eapply Forall_impl; [done|]. intros k Hk. rewrite fmap_app, <- (kv_grows_keys _ _ H1) in Hk. set_solver.
Qed.

(** ** The planner's operations grow the value they change *)
Section Operations.
Implicit Types (o v x : pyval) (k : string).

Lemma dict_set_grows kvs k v v' :
  dict_lookup k kvs = Some v → grows v v' = true → Forall2 kv_grows kvs (dict_set k v' kvs).
Proof.
  induction kvs as [|[k0 v0] r IH]; simpl; [done|]. intros Hl Hg.
  destruct (String.eqb_spec k k0); simplify_eq.
  - constructor; [done|apply Forall2_kv_grows_refl].
  - constructor; [split; [done|apply grows_refl]|by apply IH].
Qed.

(** [o[k] = v'] on a key holding [v], [v'] grown from [v]. *)
Lemma py_setitem_grows o k v v' o' :
  py_getitem o k = Ok v → grows v v' = true → py_setitem o k v' = Ok o' → grows o o' = true.
Proof.
  destruct o as [| | | | |kvs]; simpl; try done. intros Hl Hg [= <-].
  destruct (dict_lookup k kvs) eqn:E; simplify_eq. apply grows_PDict.
  exists (dict_set k v' kvs), []. split_and!; [by rewrite app_nil_r|by eapply dict_set_grows|constructor].
Qed.

(** [o[k] = v] on a new key. *)
Lemma py_setitem_new_grows o k v o' :
  py_contains k o = Ok false → py_setitem o k v = Ok o' → grows o o' = true.
Proof.
  destruct o as [| | | |l|kvs]; simpl; try done. intros [= Hc] [= <-].
  apply bool_decide_eq_false, eq_None_not_Some in Hc.
  apply grows_PDict. exists kvs, [(k, v)]. rewrite dict_set_absent by done.
  split_and!; [done|apply Forall2_kv_grows_refl|]. repeat constructor. by apply dict_lookup_None.
Qed.

Lemma py_append_grows o x o' : py_append o x = Ok o' → grows o o' = true.
Proof.
  destruct o as [| | | |l|]; simpl; try done. intros [= <-]. apply grows_PList.
  exists l, [x]. split; [done|]. apply Forall2_grows_refl, Forall_forall. intros. apply grows_refl.
Qed.
End Operations.

Section PlannerGrowth.
Variable cfg : Config.

(** Lines 68-71, 75-78 and 81-84: [o[k].append(x)] or [o[k] = [x]]. *)
Lemma append_or_init_grows k x o o' : append_or_init k x o = Ok o' → grows o o' = true.
Proof.
  unfold append_or_init. intros H. apply bind_Ok in H as ([|] & Hc & H).
  - res_inv H. eapply py_setitem_grows; [done| |done]. by eapply py_append_grows.
  - by eapply py_setitem_new_grows.
Qed.

Lemma mount_all_grows cs cs' : mount_all cfg cs = Ok cs' → grows cs cs' = true.
Proof.
  destruct cs as [| | | |l|kvs]; intros H; simpl in H; res_inv H; try apply grows_refl.
  apply grows_PList. exists x, []. split; [by rewrite app_nil_r|].
  apply mapM_res_Ok in Hx. eapply Forall2_impl; [done|]. intros c c'. apply append_or_init_grows.
Qed.

Lemma mount_init_containers_grows sp sp' : mount_init_containers cfg sp = Ok sp' → grows sp sp' = true.
Proof.
  unfold mount_init_containers. intros H. apply bind_Ok in H as ([|] & Hc & H); res_inv H; [|apply grows_refl].
  eapply py_setitem_grows; [done| |done]. by eapply mount_all_grows.
Qed.

Lemma mount_containers_grows sp sp' : mount_containers cfg sp = Ok sp' → grows sp sp' = true.
Proof.
  unfold mount_containers. intros H. res_inv H.
  eapply py_setitem_grows; [done| |done]. by eapply mount_all_grows.
Qed.
End PlannerGrowth.

Section InjectGrowth.
Variable cfg : Config.

(** Lines 68-84: every step of [inject] grows the pod, so [inject] does. *)
Lemma inject_grows o o' : inject cfg o = Ok o' → grows o o' = true.
Proof.
  unfold inject. intros H. res_inv H. eapply py_setitem_grows; [done| |done].
  eapply grows_trans; [by eapply append_or_init_grows|].
  eapply grows_trans; [by eapply mount_init_containers_grows|by eapply mount_containers_grows].
Qed.
End InjectGrowth.

Section PlanGrowth.
Context {S : Type} `{CoreV1Api S}.
Variable requests_get : string → res Response.
Variable cfg : Config.

(** C25: whatever [plan] returns (lines 43-84) grows from the admitted
    object: no field is removed, reordered or changed, lists only gain
    elements at their end and dicts only gain keys at their end. *)
Theorem plan_grows spec s s' spec' :
  plan requests_get cfg spec s = (s', Ok spec') → grows spec spec' = true.
Proof.
  intros Hp. destruct (plan_result requests_get cfg spec s s' spec' Hp) as [->|Hi];
    [apply grows_refl|by eapply inject_grows].
Qed.
End PlanGrowth.

Module GrowthDemo.
Definition injected_pod : pyval :=
  Eval vm_compute in match inject Demo.cfg (PodDemo.pod PodDemo.trig) with Ok v => v | Err _ => PNone end.
End GrowthDemo.

Lemma plan_grows_witness :
  plan Demo.get_ok Demo.cfg (PodDemo.pod PodDemo.trig) (Demo.server ∅) = (PodDemo.s1, Ok GrowthDemo.injected_pod) ∧
  grows (PodDemo.pod PodDemo.trig) GrowthDemo.injected_pod = true.
Proof.
  assert (E : plan Demo.get_ok Demo.cfg (PodDemo.pod PodDemo.trig) (Demo.server ∅)
                = (PodDemo.s1, Ok GrowthDemo.injected_pod)) by (vm_compute; reflexivity).
  split; [exact E|exact (plan_grows Demo.get_ok Demo.cfg _ _ _ _ E)].
Defined.
