(* ===== verification/Base64.v ===== *)
(** * RFC 4648 base64 ([base64.b64encode] of [app.py] line 93)

    The encoder is [base64.b64encode] on the bytes of the JSON text; the
    decoder is the strict RFC 4648 decoder with which the API server reads
    the [patch] field back.  The theorem: decoding inverts encoding. *)

From S2P Require Import Prelude.
From Stdlib Require Import Ascii Strings.Byte.

Local Open Scope N_scope.

(** The alphabet [A-Z a-z 0-9 + /]. *)
Definition b64_char (n : N) : ascii :=
  if n <? 26 then ascii_of_N (65 + n)
  else if n <? 52 then ascii_of_N (71 + n)
  else if n <? 62 then ascii_of_N (n - 4)
  else if n =? 62 then "+" else "/".

(** The four characters of a 24-bit group, most significant first. *)
Definition b64_quad (n : N) : string :=
  String (b64_char (n / 262144)) (String (b64_char (n / 4096 mod 64))
    (String (b64_char (n / 64 mod 64)) (String (b64_char (n mod 64)) EmptyString))).

(** [base64.b64encode]: three bytes to four characters, [=] padding. *)
Fixpoint b64encode (bs : list byte) : string :=
  match bs with
  | a :: b :: c :: rest =>
      b64_quad (Byte.to_N a * 65536 + Byte.to_N b * 256 + Byte.to_N c) +:+ b64encode rest
  | [a; b] => String.substring 0 3 (b64_quad (Byte.to_N a * 65536 + Byte.to_N b * 256)) +:+ "="
  | [a] => String.substring 0 2 (b64_quad (Byte.to_N a * 65536)) +:+ "=="
  | [] => EmptyString
  end.

(** The value of an alphabet character. *)
Definition b64_val (c : ascii) : option N :=
  let n := N_of_ascii c in
  if (65 <=? n) && (n <? 91) then Some (n - 65)
  else if (97 <=? n) && (n <? 123) then Some (n - 71)
  else if (48 <=? n) && (n <? 58) then Some (n + 4)
  else if n =? 43 then Some 62
  else if n =? 47 then Some 63
  else None.

(** The strict decoder: groups of four, padding only in the last one. *)
Fixpoint b64decode_chars (cs : list ascii) : option (list byte) :=
  match cs with
  | [] => Some []
  | c0 :: c1 :: c2 :: c3 :: rest =>
      v0 ← b64_val c0; v1 ← b64_val c1;
      if Ascii.eqb c2 "=" then
        guard (c3 = "="%char ∧ rest = []);;
        b0 ← Byte.of_N ((v0 * 262144 + v1 * 4096) / 65536);
        Some [b0]
      else
        v2 ← b64_val c2;
        if Ascii.eqb c3 "=" then
          guard (rest = []);;
          b0 ← Byte.of_N ((v0 * 262144 + v1 * 4096 + v2 * 64) / 65536);
          b1 ← Byte.of_N ((v0 * 262144 + v1 * 4096 + v2 * 64) / 256 mod 256);
          Some [b0; b1]
        else
          v3 ← b64_val c3;
          b0 ← Byte.of_N ((v0 * 262144 + v1 * 4096 + v2 * 64 + v3) / 65536);
          b1 ← Byte.of_N ((v0 * 262144 + v1 * 4096 + v2 * 64 + v3) / 256 mod 256);
          b2 ← Byte.of_N ((v0 * 262144 + v1 * 4096 + v2 * 64 + v3) mod 256);
          r ← b64decode_chars rest;
          Some (b0 :: b1 :: b2 :: r)
  | _ => None
  end.

Definition b64decode (s : string) : option (list byte) :=
  b64decode_chars (String.list_ascii_of_string s).

(** ** Arithmetic of the groups *)
Lemma quad_digits n :
  n < 16777216 →
  (n / 262144) * 262144 + (n / 4096 mod 64) * 4096 + (n / 64 mod 64) * 64 + n mod 64 = n ∧
  n / 262144 < 64.
Proof.
  intros Hn.
  replace (n / 4096) with (n / 64 / 64) by (rewrite N.Div0.div_div; reflexivity).
  replace (n / 262144) with (n / 64 / 64 / 64) by (rewrite !N.Div0.div_div; reflexivity).
  pose proof (N.div_mod n 64 ltac:(lia)). pose proof (N.mod_lt n 64 ltac:(lia)).
  pose proof (N.div_mod (n / 64) 64 ltac:(lia)). pose proof (N.mod_lt (n / 64) 64 ltac:(lia)).
  pose proof (N.div_mod (n / 64 / 64) 64 ltac:(lia)). pose proof (N.mod_lt (n / 64 / 64) 64 ltac:(lia)).
  split; [lia|]. rewrite !N.Div0.div_div. apply N.Div0.div_lt_upper_bound; lia.
Qed.

Lemma bytes3 a b c :
  a < 256 → b < 256 → c < 256 →
  (a * 65536 + b * 256 + c) / 65536 = a ∧ (a * 65536 + b * 256 + c) / 256 mod 256 = b ∧
  (a * 65536 + b * 256 + c) mod 256 = c.
Proof.
  intros Ha Hb Hc. split; [|split].
  - symmetry. apply (N.div_unique _ _ _ (b * 256 + c)); lia.
  - replace ((a * 65536 + b * 256 + c) / 256) with (a * 256 + b)
      by (apply (N.div_unique _ _ _ c); lia).
    symmetry. apply (N.mod_unique _ _ a); lia.
  - symmetry. apply (N.mod_unique _ _ (a * 256 + b)); lia.
Qed.

Lemma byte_to_N_lt (b : byte) : Byte.to_N b < 256.
Proof. destruct b; reflexivity. Qed.

(** Every value below 64 is the value of its character, never [=]. *)
Lemma b64_val_char n : n < 64 → b64_val (b64_char n) = Some n ∧ Ascii.eqb (b64_char n) "=" = false.
Proof.
  intros Hn.
  assert (Hall : forallb (λ k, bool_decide (b64_val (b64_char (N.of_nat k)) = Some (N.of_nat k)) &&
                               negb (Ascii.eqb (b64_char (N.of_nat k)) "=")) (seq 0 64) = true)
    by (vm_compute; reflexivity).
  rewrite forallb_forall in Hall. rewrite <- (N2Nat.id n).
  assert (Hin : In (N.to_nat n) (seq 0 64)) by (apply in_seq; lia).
  destruct (andb_prop _ _ (Hall _ Hin)) as [Hv He%negb_true_iff].
  split; [by apply bool_decide_eq_true in Hv|exact He].
Qed.

Lemma list_ascii_of_string_app (s1 s2 : string) :
  String.list_ascii_of_string (s1 +:+ s2) = String.list_ascii_of_string s1 ++ String.list_ascii_of_string s2.
Proof. induction s1 as [|c s1 IH]; simpl; [done|by rewrite IH]. Qed.

Lemma string_length_app (s1 s2 : string) : String.length (s1 +:+ s2) = (String.length s1 + String.length s2)%nat.
Proof. induction s1 as [|c s1 IH]; simpl; [done|by rewrite IH]. Qed.

Lemma b64_group3 a b c rest :
  b64decode_chars (String.list_ascii_of_string
      (b64_quad (Byte.to_N a * 65536 + Byte.to_N b * 256 + Byte.to_N c)) ++ rest) =
  r ← b64decode_chars rest; Some (a :: b :: c :: r).
Proof.
  pose proof (byte_to_N_lt a) as Ha. pose proof (byte_to_N_lt b) as Hb. pose proof (byte_to_N_lt c) as Hc.
  remember (Byte.to_N a * 65536 + Byte.to_N b * 256 + Byte.to_N c) as n eqn:En.
  destruct (quad_digits n) as [Hsum Hv0]; [lia|].
  destruct (b64_val_char _ Hv0) as [E0 P0].
  destruct (b64_val_char (n / 4096 mod 64)) as [E1 P1]; [apply N.mod_lt; lia|].
  destruct (b64_val_char (n / 64 mod 64)) as [E2 P2]; [apply N.mod_lt; lia|].
  destruct (b64_val_char (n mod 64)) as [E3 P3]; [apply N.mod_lt; lia|].
  simpl. rewrite E0, E1. simpl. rewrite P2. simpl. rewrite E2. simpl. rewrite P3. simpl.
  rewrite E3. simpl. rewrite Hsum. subst n.
  destruct (bytes3 _ _ _ Ha Hb Hc) as (-> & -> & ->). rewrite !Byte.of_to_N. done.
Qed.

Lemma b64_group2 a b :
  b64decode_chars (String.list_ascii_of_string
      (String.substring 0 3 (b64_quad (Byte.to_N a * 65536 + Byte.to_N b * 256)) +:+ "=")) = Some [a; b].
Proof.
  pose proof (byte_to_N_lt a) as Ha. pose proof (byte_to_N_lt b) as Hb.
  remember (Byte.to_N a * 65536 + Byte.to_N b * 256) as n eqn:En.
  destruct (quad_digits n) as [Hsum Hv0]; [lia|].
  destruct (b64_val_char _ Hv0) as [E0 P0].
  destruct (b64_val_char (n / 4096 mod 64)) as [E1 P1]; [apply N.mod_lt; lia|].
  destruct (b64_val_char (n / 64 mod 64)) as [E2 P2]; [apply N.mod_lt; lia|].
  assert (Hm : n mod 64 = 0) by (subst n; apply N.Lcm0.mod_divide; exists (Byte.to_N a * 1024 + Byte.to_N b * 4); lia).
  simpl. rewrite E0, E1. simpl. rewrite P2. simpl. rewrite E2. simpl.
  replace (n / 262144 * 262144 + n / 4096 mod 64 * 4096 + n / 64 mod 64 * 64) with n by lia.
  subst n. replace (Byte.to_N a * 65536 + Byte.to_N b * 256) with (Byte.to_N a * 65536 + Byte.to_N b * 256 + 0) by lia.
  destruct (bytes3 _ _ 0 Ha Hb ltac:(lia)) as (-> & -> & _). rewrite !Byte.of_to_N. done.
Qed.

Lemma b64_group1 a :
  b64decode_chars (String.list_ascii_of_string
      (String.substring 0 2 (b64_quad (Byte.to_N a * 65536)) +:+ "==")) = Some [a].
Proof.
  pose proof (byte_to_N_lt a) as Ha.
  remember (Byte.to_N a * 65536) as n eqn:En.
  destruct (quad_digits n) as [Hsum Hv0]; [lia|].
  destruct (b64_val_char _ Hv0) as [E0 P0].
  destruct (b64_val_char (n / 4096 mod 64)) as [E1 P1]; [apply N.mod_lt; lia|].
  assert (Hm : n mod 64 = 0) by (subst n; apply N.Lcm0.mod_divide; exists (Byte.to_N a * 1024); lia).
  assert (Hd : n / 64 = Byte.to_N a * 1024) by (subst n; symmetry; apply (N.div_unique _ _ _ 0); lia).
  assert (Hm2 : n / 64 mod 64 = 0) by (rewrite Hd; apply N.Lcm0.mod_divide; exists (Byte.to_N a * 16); lia).
  simpl. rewrite E0, E1. simpl.
  replace (n / 262144 * 262144 + n / 4096 mod 64 * 4096) with n by lia.
  subst n. replace (Byte.to_N a * 65536 / 65536) with (Byte.to_N a) by (apply (N.div_unique _ _ _ 0); lia).
  by rewrite Byte.of_to_N.
Qed.

(** The API server's strict decoder recovers exactly the bytes
    [base64.b64encode] was given. *)
Theorem b64decode_b64encode (bs : list byte) : b64decode (b64encode bs) = Some bs.
Proof.
  unfold b64decode. remember (length bs) as k eqn:Hk.
  revert bs Hk. induction k as [k IH] using lt_wf_ind. intros bs Hk.
  destruct bs as [|a [|b [|c rest]]].
  - done.
  - apply b64_group1.
  - apply b64_group2.
  - simpl b64encode. rewrite list_ascii_of_string_app, b64_group3.
    rewrite (IH (length rest)); [done| simpl in Hk; lia | done].
Qed.
