(* ===== verification/Patch.v ===== *)
(** * The PatchEncoder: JSON Patch, [json.dumps] and base64 ([app.py] lines 86, 93)

    Line 86 computes [jsonpatch.JsonPatch.from_diff(spec, modified_spec)]
    and line 93 encodes it as
    [base64.b64encode(str(patch).encode()).decode()], where [str(patch)]
    is [json.dumps] of the list of operations.  The three are library
    code, modelled from their specifications: RFC 6902 (JSON Patch) and
    RFC 6901 (JSON Pointer) for the operations and their application,
    the [json] module's default encoder ([ensure_ascii], separators
    [", "] and [": "]); base64 is in [Base64].

    The diff is an interface: [JsonDiff] is the operation, [JsonDiffLaws]
    what the webhook relies on (applying the diff of [a] and [b] to [a]
    gives [b]; the diff of equal documents is empty).  [replace_diff] is a
    lawful instance. *)

From S2P Require Import Prelude PyVal Base64.
From Stdlib Require Import DecimalString Ascii Strings.Byte.

(** ** JSON Patch operations, their JSON form and their application *)
Inductive patch_op :=
| PAdd (path : list string) (value : pyval)
| PRemove (path : list string)
| PReplace (path : list string) (value : pyval).

(** RFC 6901: [~] is written [~0] and [/] is written [~1] in a token. *)
Fixpoint escape_token (t : string) : string :=
  match t with
  | EmptyString => EmptyString
  | String c r =>
      if Ascii.eqb c "~" then String "~" (String "0" (escape_token r))
      else if Ascii.eqb c "/" then String "~" (String "1" (escape_token r))
      else String c (escape_token r)
  end.

Definition pointer_string (path : list string) : string :=
  String.concat "" (map (λ t, "/" +:+ escape_token t) path).

(** The dict [jsonpatch] builds for each operation, in its key order. *)
Definition op_to_pyval (op : patch_op) : pyval :=
  match op with
  | PAdd p v => PDict [("op", PStr "add"); ("path", PStr (pointer_string p)); ("value", v)]
  | PRemove p => PDict [("op", PStr "remove"); ("path", PStr (pointer_string p))]
  | PReplace p v => PDict [("op", PStr "replace"); ("path", PStr (pointer_string p)); ("value", v)]
  end.

Definition patch_to_pyval (ops : list patch_op) : pyval := PList (map op_to_pyval ops).

(** An array index token: decimal digits, no leading zero. *)
Definition parse_index (t : string) : option nat :=
  match t with
  | String "0" EmptyString => Some 0
  | String "0" _ => None
  | _ => Nat.of_uint <$> NilEmpty.uint_of_string t
  end.

(** Apply [g] to the value at [path]; every token must name an existing
    member or element. *)
Fixpoint update_at (path : list string) (g : pyval → option pyval) (doc : pyval) : option pyval :=
  match path with
  | [] => g doc
  | t :: rest =>
      match doc with
      | PDict kvs => v ← dict_lookup t kvs; v' ← update_at rest g v; Some (PDict (dict_set t v' kvs))
      | PList l => i ← parse_index t; v ← l !! i; v' ← update_at rest g v; Some (PList (<[i := v']> l))
      | _ => None
      end
  end.

(** The three operations on the parent container of the target. *)
Definition add_child (t : string) (v : pyval) (parent : pyval) : option pyval :=
  match parent with
  | PDict kvs => Some (PDict (dict_set t v kvs))
  | PList l =>
      if String.eqb t "-" then Some (PList (l ++ [v]))
      else i ← parse_index t; guard (i ≤ length l);; Some (PList (take i l ++ v :: drop i l))
  | _ => None
  end.

Definition remove_child (t : string) (parent : pyval) : option pyval :=
  match parent with
  | PDict kvs => _ ← dict_lookup t kvs; Some (PDict (filter (λ kv, kv.1 ≠ t) kvs))
  | PList l => i ← parse_index t; guard (i < length l);; Some (PList (take i l ++ drop (S i) l))
  | _ => None
  end.

Definition replace_child (t : string) (v : pyval) (parent : pyval) : option pyval :=
  match parent with
  | PDict kvs => _ ← dict_lookup t kvs; Some (PDict (dict_set t v kvs))
  | PList l => i ← parse_index t; guard (i < length l);; Some (PList (<[i := v]> l))
  | _ => None
  end.

Definition on_parent (path : list string) (whole : option pyval)
    (g : string → pyval → option pyval) (doc : pyval) : option pyval :=
  match path with
  | [] => whole
  | _ => update_at (removelast path) (g (List.last path "")) doc
  end.

Definition apply_op (op : patch_op) (doc : pyval) : option pyval :=
  match op with
  | PAdd p v => on_parent p (Some v) (λ t, add_child t v) doc
  | PRemove p => on_parent p None remove_child doc
  | PReplace p v => on_parent p (Some v) (λ t, replace_child t v) doc
  end.

Fixpoint apply_patch (ops : list patch_op) (doc : pyval) : option pyval :=
  match ops with
  | [] => Some doc
  | op :: rest => doc' ← apply_op op doc; apply_patch rest doc'
  end.

(** ** The diff, as an interface *)
Class JsonDiff := from_diff : pyval → pyval → list patch_op.

Class JsonDiffLaws `{JsonDiff} := {
  diff_apply : ∀ a b, wf a → wf b → apply_patch (from_diff a b) a = Some b;
  diff_refl : ∀ a, from_diff a a = []
}.

(** The simplest lawful diff: replace the whole document. *)
#[export] Instance replace_diff : JsonDiff :=
  λ a b, if decide (a = b) then [] else [PReplace [] b].

#[export] Instance replace_diff_laws : JsonDiffLaws (H := replace_diff).
Proof.
  split.
  - intros a b _ _. unfold from_diff, replace_diff. by case_decide; subst.
  - intros a. unfold from_diff, replace_diff. by rewrite decide_True.
Qed.

(** ** [json.dumps] with the default arguments *)
Definition hex_digit (n : nat) : ascii :=
  if n <? 10 then ascii_of_nat (48 + n) else ascii_of_nat (87 + n).

Definition backslash : ascii := ascii_of_nat 92.
Definition dquote : ascii := ascii_of_nat 34.

(** One character of a string literal: the two-character escapes, and
    [\u00XX] (lower-case hex) for every other character outside the
    printable ASCII range [ ]..[~], as [ensure_ascii=True] does. *)
Definition escape_char (c : ascii) : string :=
  let n := nat_of_ascii c in
  let esc d := String backslash (String d EmptyString) in
  if n =? 34 then esc dquote
  else if n =? 92 then esc backslash
  else if n =? 10 then esc "n"%char
  else if n =? 13 then esc "r"%char
  else if n =? 9 then esc "t"%char
  else if n =? 8 then esc "b"%char
  else if n =? 12 then esc "f"%char
  else if (n <? 32) || (126 <? n) then
    String backslash ("u00" +:+ String (hex_digit (n / 16)) (String (hex_digit (n mod 16)) EmptyString))
  else String c EmptyString.

Definition quote (s : string) : string :=
  String dquote (String.concat "" (map escape_char (String.list_ascii_of_string s)) +:+ String dquote EmptyString).

Fixpoint json_dumps (v : pyval) : string :=
  match v with
  | PNone => "null"
  | PBool true => "true"
  | PBool false => "false"
  | PInt z => NilEmpty.string_of_int (Z.to_int z)
  | PStr s => quote s
  | PList l => "[" +:+ String.concat ", " (map json_dumps l) +:+ "]"
  | PDict kvs => "{" +:+ String.concat ", " (map (λ kv, quote kv.1 +:+ ": " +:+ json_dumps kv.2) kvs) +:+ "}"
  end.

(** [str.encode()]: UTF-8.  A character of a Rocq string stands for a
    code point below 256: one byte below 128, two bytes above. *)
Definition utf8_char (c : ascii) : list byte :=
  let n := nat_of_ascii c in
  if n <? 128 then [byte_of_ascii c]
  else [byte_of_ascii (ascii_of_nat (192 + n / 64)); byte_of_ascii (ascii_of_nat (128 + n mod 64))].

Definition utf8_encode (s : string) : list byte :=
  flat_map utf8_char (String.list_ascii_of_string s).

(** Line 93: [base64.b64encode(str(patch).encode()).decode()]. *)
Definition encode_patch (ops : list patch_op) : string :=
  b64encode (utf8_encode (json_dumps (patch_to_pyval ops))).

Example encode_patch_empty : encode_patch [] = "W10=".
Proof. reflexivity. Qed.

(** ** The JSON text is ASCII *)
Definition is_ascii (s : string) : Prop :=
  Forall (λ c, nat_of_ascii c < 128) (String.list_ascii_of_string s).

Lemma is_ascii_String c s : nat_of_ascii c < 128 → is_ascii s → is_ascii (String c s).
Proof. intros. by constructor. Qed.

Lemma is_ascii_app s1 s2 : is_ascii s1 → is_ascii s2 → is_ascii (s1 +:+ s2).
Proof. unfold is_ascii. rewrite list_ascii_of_string_app. apply Forall_app_2. Qed.

Lemma is_ascii_concat sep l : is_ascii sep → Forall is_ascii l → is_ascii (String.concat sep l).
Proof.
  intros Hsep Hl. induction Hl as [|x l Hx Hl IH]; [constructor|].
  destruct l; simpl; [done|]. by repeat apply is_ascii_app.
Qed.

Ltac ascii_lit := repeat (apply is_ascii_String; [vm_compute; lia|]); constructor.

#[local] Hint Resolve is_ascii_app is_ascii_concat : kac.

Lemma hex_digit_lt n : n < 16 → nat_of_ascii (hex_digit n) < 128.
Proof.
  intros Hn. unfold hex_digit. destruct (Nat.ltb_spec n 10);
    rewrite nat_ascii_embedding; lia.
Qed.

Lemma escape_char_ascii c : is_ascii (escape_char c).
Proof.
  pose proof (nat_ascii_bounded c) as Hc. unfold escape_char.
  repeat match goal with |- context [if ?b then _ else _] => destruct b eqn:? end;
    try ascii_lit.
  - apply hex_digit_lt, Nat.Div0.div_lt_upper_bound. lia.
  - constructor; [|constructor]. apply hex_digit_lt, Nat.mod_upper_bound. lia.
  - match goal with H : (_ <? 32) || (126 <? _) = false |- _ =>
      apply orb_false_iff in H as [_ ?%Nat.ltb_ge] end. lia.
  - constructor.
Qed.

Lemma quote_ascii s : is_ascii (quote s).
Proof.
  unfold quote. apply is_ascii_String; [vm_compute; lia|].
  apply is_ascii_app; [|ascii_lit]. apply is_ascii_concat; [constructor|].
  apply Forall_forall. intros x (c & <- & _)%list_elem_of_In%in_map_iff. apply escape_char_ascii.
Qed.

Lemma string_of_uint_ascii d : is_ascii (NilEmpty.string_of_uint d).
Proof. induction d; simpl; try ascii_lit; by apply is_ascii_String; [vm_compute; lia|]. Qed.

Lemma string_of_int_ascii z : is_ascii (NilEmpty.string_of_int (Z.to_int z)).
Proof.
  unfold NilEmpty.string_of_int. destruct (Z.to_int z); [|apply is_ascii_String; [vm_compute; lia|]];
    apply string_of_uint_ascii.
Qed.

#[local] Hint Resolve quote_ascii string_of_int_ascii : kac.

(** [json.dumps] with [ensure_ascii] prints ASCII only. *)
Lemma json_dumps_ascii v : is_ascii (json_dumps v).
Proof.
  induction v as [| [] | z | s | l IH | kvs IH] using pyval_ind'; simpl;
    try ascii_lit; auto with kac.
  - apply is_ascii_app; [ascii_lit|]. apply is_ascii_app; [|ascii_lit].
    apply is_ascii_concat; [ascii_lit|]. by apply Forall_fmap.
  - apply is_ascii_app; [ascii_lit|]. apply is_ascii_app; [|ascii_lit].
    apply is_ascii_concat; [ascii_lit|]. apply Forall_fmap.
    eapply Forall_impl; [exact IH|]. intros [k v] Hv. simpl in *.
    apply is_ascii_app; [auto with kac|]. apply is_ascii_app; [ascii_lit|done].
Qed.

(** On ASCII text, UTF-8 is one byte per character. *)
Lemma utf8_encode_ascii s : is_ascii s → utf8_encode s = String.list_byte_of_string s.
Proof.
  unfold is_ascii, utf8_encode, String.list_byte_of_string.
  induction 1 as [|c cs Hc _ IH]; [done|]. simpl. rewrite IH.
  unfold utf8_char. by rewrite (proj2 (Nat.ltb_lt _ _) Hc).
Qed.

Lemma encode_patch_bytes ops :
  encode_patch ops = b64encode (String.list_byte_of_string (json_dumps (patch_to_pyval ops))).
Proof. unfold encode_patch. by rewrite utf8_encode_ascii by apply json_dumps_ascii. Qed.

(** ** What the API server reads back *)

(** C20: the API server, decoding the [patch] field (base64, then the
    bytes as text), reads back exactly [str(patch)]. *)
Theorem encode_patch_roundtrip ops :
  String.string_of_list_byte <$> b64decode (encode_patch ops) = Some (json_dumps (patch_to_pyval ops)).
Proof. rewrite encode_patch_bytes, b64decode_b64encode. simpl. by rewrite String.string_of_list_byte_of_string. Qed.
