(* ===== verification/Webhook.v ===== *)
(** * The AdmissionResponder: the [/mutate] and [/health] views

    [app.py] lines 40-101.  [mutate_view] is the body of [mutate] as
    written: it reads [request.json['request']['object']], runs the
    planner, diffs the original and the copy, reads the [uid] and builds
    the [AdmissionReview] with [jsonify].  Flask answers an exception that
    escapes a view with a 500 response ([flask_view]); the handler has no
    [try] of its own, so every failure of provisioning or of the object's
    shape reaches the API server as HTTP 500 (spec section 7, option a).
    The handler is proved against the diff interface [JsonDiffLaws]. *)

From S2P Require Import Prelude PyVal Config Provisioner Planner Patch.

Inductive http_response :=
| JsonResponse (status : Z) (body : pyval)     (** [jsonify(...)] *)
| TextResponse (status : Z) (body : string).  (** a plain body and a status *)

Definition internal_server_error : http_response := TextResponse 500 "Internal Server Error".

(** Flask's handling of an exception raised by a view. *)
Definition flask_view {S} (m : ST S http_response) : ST S http_response :=
  λ s, match m s with
       | (s', Ok r) => (s', Ok r)
       | (s', Err _) => (s', Ok internal_server_error)
       end.

(** Lines 87-96. *)
Definition review_response (uid : pyval) (ops : list patch_op) : pyval :=
  PDict [("apiVersion", PStr "admission.k8s.io/v1"); ("kind", PStr "AdmissionReview");
         ("response", PDict [("allowed", PBool true); ("uid", uid);
                             ("patch", PStr (encode_patch ops)); ("patchType", PStr "JSONPatch")])].

Section Webhook.
Context {S : Type} `{CoreV1Api S} `{JsonDiff}.
Variable requests_get : string → res Response.
Variable cfg : Config.

(** Lines 42-96: [body] is [request.json]. *)
Definition mutate_view (body : pyval) : ST S http_response :=
  req ← lift (py_getitem body "request");
  spec ← lift (py_getitem req "object");
  modified_spec ← plan requests_get cfg spec;
  let patch := from_diff spec modified_spec in
  req' ← lift (py_getitem body "request");
  uid ← lift (py_getitem req' "uid");
  mret (JsonResponse 200 (review_response uid patch)).

Definition mutate (body : pyval) : ST S http_response := flask_view (mutate_view body).
End Webhook.

(** Lines 99-101. *)
Definition health : http_response := TextResponse 200 "Ok".

Section WebhookProps.
Context {S : Type} `{CoreV1Api S} `{JsonDiff}.
Variable requests_get : string → res Response.
Variable cfg : Config.

Lemma mutate_unfold body s req spec :
  field "request" body = Some req → field "object" req = Some spec →
  mutate requests_get cfg body s =
    match plan requests_get cfg spec s with
    | (s', Ok spec') =>
        match field "uid" req with
        | Some uid => (s', Ok (JsonResponse 200 (review_response uid (from_diff spec spec'))))
        | None => (s', Ok internal_server_error)
        end
    | (s', Err _) => (s', Ok internal_server_error)
    end.
Proof.
  intros Hreq Hobj. unfold mutate, flask_view, mutate_view. unfold_monads.
  rewrite (py_getitem_field _ _ _ Hreq), (py_getitem_field _ _ _ Hobj). simpl.
  destruct (plan requests_get cfg spec s) as [s' [spec'|e]]; [|done]. simpl.
  destruct req; simpl in *; try done.
  by destruct (dict_lookup "uid" _).
Qed.

(** C5: the view never lets an exception through and never denies:
    it answers 500, or 200 with [allowed: True], the request's [uid]
    echoed and patch type [JSONPatch]. *)
Theorem mutate_response_shape body s :
  ∃ s' r, mutate requests_get cfg body s = (s', Ok r) ∧
    (r = internal_server_error ∨
     ∃ req uid ops, field "request" body = Some req ∧ field "uid" req = Some uid ∧
       r = JsonResponse 200 (review_response uid ops)).
Proof.
  destruct (field "request" body) as [req|] eqn:Hreq.
  - destruct (field "object" req) as [spec|] eqn:Hobj.
    + rewrite (mutate_unfold _ _ _ _ Hreq Hobj).
      destruct (plan requests_get cfg spec s) as [s' [spec'|e]]; [|eauto].
      destruct (field "uid" req) as [uid|] eqn:Huid; eauto 10.
    + unfold mutate, flask_view, mutate_view. unfold_monads.
      rewrite (py_getitem_field _ _ _ Hreq). destruct req; simpl in *; try eauto.
      by rewrite Hobj; eauto.
  - unfold mutate, flask_view, mutate_view. unfold_monads.
    destruct body; simpl in *; try eauto. by rewrite Hreq; eauto.
Qed.

(** C3: an object without the trigger gets the empty patch and the
    cluster is not touched. *)
Theorem mutate_untriggered `{!JsonDiffLaws} body s req spec uid md ann flag :
  field "request" body = Some req → field "object" req = Some spec → field "uid" req = Some uid →
  field "metadata" spec = Some md → field "annotations" md = Some ann →
  py_get ann cfg.(ca_bundle_annotation) = Ok flag → py_eq_str flag "true" = false →
  mutate requests_get cfg body s = (s, Ok (JsonResponse 200 (review_response uid []))).
Proof.
  intros Hreq Hobj Huid Hmd Hann Hflag Hf. rewrite (mutate_unfold _ _ _ _ Hreq Hobj).
  unfold plan. unfold_monads.
  rewrite (py_getitem_field _ _ _ Hmd), (py_getitem_field _ _ _ Hann), Hflag, Hf. simpl.
  by rewrite Huid, diff_refl.
Qed.

(** C1: on a triggered, well-shaped pod, the response carries a patch
    that, applied to the admitted object, yields the object [plan]
    built: its spec is related to the original by [planned_spec] and
    all other fields are unchanged. *)
Theorem mutate_triggered `{!JsonDiffLaws} body s s' req spec uid md ann ns sp :
  field "request" body = Some req → field "object" req = Some spec → field "uid" req = Some uid →
  wf spec →
  field "metadata" spec = Some md → field "annotations" md = Some ann →
  field cfg.(ca_bundle_annotation) ann = Some (PStr "true") → field "namespace" md = Some (PStr ns) →
  field "spec" spec = Some sp → pod_spec_ok sp = true →
  ensure_configmap requests_get cfg ns s = (s', Ok ()) →
  ∃ ops spec' sp', mutate requests_get cfg body s = (s', Ok (JsonResponse 200 (review_response uid ops))) ∧
    apply_patch ops spec = Some spec' ∧ field "spec" spec' = Some sp' ∧
    planned_spec (ca_volume cfg) (ca_volume_mount cfg) sp sp' ∧
    ∀ k, k ≠ "spec" → field k spec' = field k spec.
Proof.
  intros Hreq Hobj Huid Hwf Hmd Hann Hflag Hns Hsp Hok Hens.
  destruct (inject_spec cfg spec sp Hsp Hok) as (spec' & sp' & Hinj & Hrest).
  exists (from_diff spec spec'), spec', sp'. split; [|split; [by apply diff_apply; eauto using inject_wf|done]].
  rewrite (mutate_unfold _ _ _ _ Hreq Hobj).
  by rewrite (plan_triggered_unfold _ _ _ _ _ _ _ Hmd Hann Hflag Hns), Hens, Hinj, Huid.
Qed.

(** C15: when the planner raises (provisioning failed, or the object
    lacks a field the code subscripts), the view answers HTTP 500: the
    webhook fails closed and never reports [allowed: True] without
    the mount. *)
Theorem mutate_plan_error body s s' req spec e :
  field "request" body = Some req → field "object" req = Some spec →
  plan requests_get cfg spec s = (s', Err e) → mutate requests_get cfg body s = (s', Ok internal_server_error).
Proof. intros Hreq Hobj Hp. by rewrite (mutate_unfold _ _ _ _ Hreq Hobj), Hp. Qed.
End WebhookProps.

(** ** Concrete scenarios *)
Module ReviewDemo.
Definition req (obj : pyval) : pyval := PDict [("uid", PStr "705ab4f5"); ("object", obj)].
Definition body (obj : pyval) : pyval := PDict [("request", req obj)].
Definition untriggered : pyval := PodDemo.pod (PDict []).
End ReviewDemo.

Lemma mutate_untriggered_witness :
  mutate (H0 := replace_diff) Demo.get_ok Demo.cfg (ReviewDemo.body ReviewDemo.untriggered) (Demo.server ∅)
    = (Demo.server ∅, Ok (JsonResponse 200 (review_response (PStr "705ab4f5") []))) ∧
  encode_patch [] = "W10=".
Proof.
  split; [|reflexivity].
  apply (mutate_untriggered (H0 := replace_diff) Demo.get_ok Demo.cfg _ _
    (ReviewDemo.req ReviewDemo.untriggered) ReviewDemo.untriggered
    (PStr "705ab4f5") (PodDemo.meta (PDict [])) (PDict []) PNone); reflexivity.
Defined.

Lemma mutate_triggered_witness :
  ∃ ops spec' sp',
    mutate (H0 := replace_diff) Demo.get_ok Demo.cfg (ReviewDemo.body (PodDemo.pod PodDemo.trig)) (Demo.server ∅)
      = (PodDemo.s1, Ok (JsonResponse 200 (review_response (PStr "705ab4f5") ops))) ∧
    apply_patch ops (PodDemo.pod PodDemo.trig) = Some spec' ∧ field "spec" spec' = Some sp' ∧
    planned_spec (ca_volume Demo.cfg) (ca_volume_mount Demo.cfg) (PDict [("containers", PList [PodDemo.app])]) sp' ∧
    ∀ k, k ≠ "spec" → field k spec' = field k (PodDemo.pod PodDemo.trig).
Proof.
  apply (mutate_triggered (H0 := replace_diff) Demo.get_ok Demo.cfg _ _ PodDemo.s1
    (ReviewDemo.req (PodDemo.pod PodDemo.trig)) (PodDemo.pod PodDemo.trig) (PStr "705ab4f5") (PodDemo.meta PodDemo.trig) PodDemo.trig "ns1"
    (PDict [("containers", PList [PodDemo.app])])); try reflexivity.
  simpl. split_and!; repeat constructor; set_solver.
Defined.

Lemma mutate_plan_error_witness :
  mutate (H0 := replace_diff) Demo.get_500 Demo.cfg (ReviewDemo.body (PodDemo.pod PodDemo.trig)) (Demo.server ∅)
    = (Demo.server ∅, Ok internal_server_error).
Proof.
  apply (mutate_plan_error (H0 := replace_diff) Demo.get_500 Demo.cfg _ _ _
    (ReviewDemo.req (PodDemo.pod PodDemo.trig)) (PodDemo.pod PodDemo.trig)
    (FetchError 500)); try reflexivity; vm_compute; reflexivity.
Defined.
