(* ===== verification/InPlace.v ===== *)
(** * The [/mutate] handler on Python's object store ([app.py] lines 40-96)

    [Planner] and [Webhook] treat [modified_spec] as a value.  The code
    mutates it in place: [spec] is a reference into [request.json],
    [copy.deepcopy] makes a new object, [modified_spec['spec']['volumes']]
    is a reference through which [.append] writes, and [c] in the loops
    of lines 74 and 80 is a reference to an element of the list.  This
    file models that store and proves the functional model right.

    - The store maps object identities to the trees of the JSON request
      (what [json.loads] builds: no object is reachable along two paths).
      A reference is an identity and an access path; writing through it
      updates the tree at the path ([upd_at]).
    - [subscript], [contains], [get_attr], [append], [setitem],
      [deepcopy] and the [for] loop are the Python operations the handler
      uses.  A [for] over a list reads the live list by index, as
      Python's list iterator does; over a dict or a string it yields new
      string objects.  Its bound is one more than the list's length at
      the start ([OutOfFuel] past it).
    - The literal dicts of lines 55-66 are stored by value: the code
      appends the one [volume_mount] object to every container, and no
      one mutates it afterwards, so the sharing is not observable.

    [sim m r f] says that the store computation [m], run on the object at
    reference [r], behaves as the pure function [f] on its value; the
    lemmas compose it through binds, subscripts and loops.  The theorems:
    the in-place handler answers exactly as [Webhook.mutate] and leaves
    the API server in the same state, and it never modifies
    [request.json]. *)

From S2P Require Import Prelude PyVal Config Provisioner Planner Patch Webhook.

(** ** The object store *)
Inductive seg := Key (k : string) | Idx (i : nat).

#[export] Instance seg_eq_dec : EqDecision seg.
Proof. solve_decision. Defined.

(** An object's identity and the access path from it. *)
Abbreviation ref := (nat * list seg)%type.
Abbreviation store := (gmap nat pyval).

(** [o[i]] on a list. *)
Definition py_index (o : pyval) (i : nat) : res pyval :=
  match o with
  | PList l => match l !! i with Some c => Ok c | None => raise IndexError end
  | _ => raise TypeError
  end.

Fixpoint get_at (p : list seg) (v : pyval) : res pyval :=
  match p with
  | [] => Ok v
  | Key k :: p' => c ← py_getitem v k; get_at p' c
  | Idx i :: p' => c ← py_index v i; get_at p' c
  end.

(** Apply [f] to the value at path [p], writing the result back. *)
Fixpoint upd_at (p : list seg) (f : pyval → res pyval) (v : pyval) : res pyval :=
  match p with
  | [] => f v
  | Key k :: p' => c ← py_getitem v k; c' ← upd_at p' f c; py_setitem v k c'
  | Idx i :: p' =>
      c ← py_index v i; c' ← upd_at p' f c;
      match v with PList l => Ok (PList (<[i := c']> l)) | _ => raise TypeError end
  end.

(** A reference always names a live object; a dangling one is a
    [TypeError] (it cannot be built by the operations below). *)
Definition deref (σ : store) (r : ref) : res pyval :=
  match σ !! r.1 with Some v => get_at r.2 v | None => raise TypeError end.

Definition load (r : ref) : ST store pyval := λ σ, (σ, deref σ r).

Definition modify (r : ref) (f : pyval → res pyval) : ST store unit :=
  λ σ, match σ !! r.1 with
       | Some v => match upd_at r.2 f v with
                   | Ok v' => (<[r.1 := v']> σ, Ok ())
                   | Err e => (σ, Err e)
                   end
       | None => (σ, raise TypeError)
       end.

(** A new object. *)
Definition alloc (v : pyval) : ST store ref :=
  λ σ, let i := fresh (dom σ) in (<[i := v]> σ, Ok (i, [])).

(** ** The Python operations of the handler *)

(** [o[k]], kept as a reference into [o]. *)
Definition subscript (r : ref) (k : string) : ST store ref :=
  o ← load r; _ ← lift (py_getitem o k); mret (r.1, r.2 ++ [Key k]).

(** [k in o] *)
Definition contains (k : string) (r : ref) : ST store bool :=
  o ← load r; lift (py_contains k o).

(** [o.get(k)] *)
Definition get_attr (r : ref) (k : string) : ST store pyval :=
  o ← load r; lift (py_get o k).

(** [o.append(x)] *)
Definition append (r : ref) (x : pyval) : ST store unit := modify r (λ o, py_append o x).

(** [o[k] = x] *)
Definition setitem (r : ref) (k : string) (x : pyval) : ST store unit :=
  modify r (λ o, py_setitem o k x).

(** [copy.deepcopy(o)] of a tree: a new object with the same value. *)
Definition deepcopy (r : ref) : ST store ref := o ← load r; alloc o.

(** [for c in o: body(c)] over a list: Python's list iterator, which
    reads the live list at each step. *)
Fixpoint for_list (fuel : nat) (r : ref) (i : nat) (body : ref → ST store unit) : ST store unit :=
  match fuel with
  | O => lift (raise OutOfFuel)
  | S fuel' =>
      o ← load r;
      match o with
      | PList l =>
          if decide (i < length l) then body (r.1, r.2 ++ [Idx i]);; for_list fuel' r (S i) body
          else mret ()
      | _ => lift (raise TypeError)
      end
  end.

(** Over the snapshot of a dict's keys or a string's characters: each
    element is a new string object. *)
Fixpoint for_vals (xs : list pyval) (body : ref → ST store unit) : ST store unit :=
  match xs with
  | [] => mret ()
  | x :: xs' => c ← alloc x; body c;; for_vals xs' body
  end.

Definition for_each (r : ref) (body : ref → ST store unit) : ST store unit :=
  o ← load r;
  match o with
  | PList l => for_list (S (length l)) r 0 body
  | _ => xs ← lift (py_iter o); for_vals xs body
  end.

(** ** The handler *)

(** The API client and the object store, side by side. *)
Definition api {S A} (m : ST S A) : ST (S * store) A :=
  λ w, let '(s', x) := m w.1 in ((s', w.2), x).

Definition heap {S A} (m : ST store A) : ST (S * store) A :=
  λ w, let '(σ', x) := m w.2 in ((w.1, σ'), x).

Section Handler.
Context {S : Type} `{CoreV1Api S} `{JsonDiff}.
Variable requests_get : string → res Response.
Variable cfg : Config.

(** [if k in o: o[k].append(x) else: o[k] = [x]] (lines 68-71, 75-78,
    81-84). *)
Definition append_or_init_at (k : string) (x : pyval) (r : ref) : ST store unit :=
  b ← contains k r;
  if (b : bool) then l ← subscript r k; append l x else setitem r k (PList [x]).

Definition mount_at (c : ref) : ST store unit :=
  append_or_init_at "volumeMounts" (ca_volume_mount cfg) c.

(** Lines 68-84, on [modified_spec]. *)
Definition inject_at (ms : ref) : ST store unit :=
  sp ← subscript ms "spec";
  append_or_init_at "volumes" (ca_volume cfg) sp;;
  (b ← contains "initContainers" sp;
   if (b : bool) then ics ← subscript sp "initContainers"; for_each ics mount_at else mret ());;
  cs ← subscript sp "containers";
  for_each cs mount_at.

(** Lines 45-84 on [modified_spec], the reference [ms]. *)
Definition plan_at (ms : ref) : ST (S * store) unit :=
  flag ← heap (md ← subscript ms "metadata"; ann ← subscript md "annotations";
               get_attr ann cfg.(ca_bundle_annotation));
  if py_eq_str flag "true" then
    nsv ← heap (md ← subscript ms "metadata"; ns ← subscript md "namespace"; load ns);
    ns ← lift (namespace_param nsv);
    api (ensure_configmap requests_get cfg ns);;
    heap (inject_at ms)
  else mret ().

(** Lines 42-96; [rq] is [request.json]. *)
Definition mutate_inplace_view (rq : ref) : ST (S * store) http_response :=
  spec ← heap (r ← subscript rq "request"; subscript r "object");
  modified_spec ← heap (deepcopy spec);
  plan_at modified_spec;;
  s0 ← heap (load spec);
  s1 ← heap (load modified_spec);
  let patch := from_diff s0 s1 in
  uid ← heap (r ← subscript rq "request"; u ← subscript r "uid"; load u);
  mret (JsonResponse 200 (review_response uid patch)).

Definition mutate_inplace (rq : ref) : ST (S * store) http_response :=
  flask_view (mutate_inplace_view rq).
End Handler.

(** ** Store computations that act on one object *)

(** The outcome [x] of a pure function, as the store computation [m]
    run in [σ] on the object [v] at [r] realises it: on success the
    object at [r] holds the new value and nothing else changed; on an
    exception the same exception, with the other objects untouched. *)
Definition sim_post {A} (σ : store) (v : pyval) (m : ST store A) (r : ref) (x : res (pyval * A)) : Prop :=
  match x with
  | Ok (o', a) => ∃ v', upd_at r.2 (λ _, Ok o') v = Ok v' ∧ m σ = (<[r.1 := v']> σ, Ok a)
  | Err e => ∃ σ', m σ = (σ', Err e) ∧ ∀ j w, j ≠ r.1 → σ !! j = Some w → σ' !! j = Some w
  end.

Definition sim {A} (m : ST store A) (r : ref) (f : pyval → res (pyval * A)) : Prop :=
  ∀ σ v o, σ !! r.1 = Some v → get_at r.2 v = Ok o → sim_post σ v m r (f o).

(** A statement, as a function from the object's value to its new value. *)
Definition effect (h : pyval → res pyval) (o : pyval) : res (pyval * unit) :=
  o' ← h o; Ok (o', ()).

(** ** Reading and writing along a path *)
Section Paths.
Implicit Types (p q : list seg) (v o : pyval).

Lemma py_index_Ok v i c : py_index v i = Ok c ↔ ∃ l, v = PList l ∧ l !! i = Some c.
Proof.
  split; [|by intros (l & -> & Hl); simpl; rewrite Hl].
  destruct v; simpl; try done. case_match; [intros [= ->]|done]. eauto.
Qed.

Lemma get_at_app p q v : get_at (p ++ q) v = c ← get_at p v; get_at q c.
Proof.
  revert v; induction p as [|[k|i] p IH]; intros v; simpl; [done| |].
  - destruct (py_getitem v k); simpl; [apply IH|done].
  - destruct (py_index v i); simpl; [apply IH|done].
Qed.

Lemma upd_at_app p q f v : upd_at (p ++ q) f v = upd_at p (upd_at q f) v.
Proof.
  revert v; induction p as [|[k|i] p IH]; intros v; simpl; [done| |].
  - destruct (py_getitem v k); simpl; [by rewrite IH|done].
  - destruct (py_index v i); simpl; [by rewrite IH|done].
Qed.

(** A write along a readable path is the write of what [f] makes of
    the value read. *)
Lemma upd_at_get p f v o :
  get_at p v = Ok o → upd_at p f v = o' ← f o; upd_at p (λ _, Ok o') v.
Proof.
  revert v; induction p as [|[k|i] p IH]; intros v; simpl.
  - intros [= ->]. by destruct (f o).
  - destruct (py_getitem v k) as [c|]; simpl; [|done]. intros Hc.
    rewrite (IH _ Hc). by destruct (f o).
  - destruct (py_index v i) as [c|]; simpl; [|done]. intros Hc.
    rewrite (IH _ Hc). by destruct (f o).
Qed.

(** Writing back the value read changes nothing. *)
Lemma upd_at_same p v o : get_at p v = Ok o → upd_at p (λ _, Ok o) v = Ok v.
Proof.
  revert v; induction p as [|[k|i] p IH]; intros v; simpl; [by intros [= ->]| |].
  - destruct (py_getitem v k) as [c|] eqn:Hc; simpl; [|done]. intros Ho.
    rewrite (IH _ Ho). simpl. by apply py_setitem_getitem.
  - destruct (py_index v i) as [c|] eqn:Hc; simpl; [|done]. intros Ho.
    rewrite (IH _ Ho). simpl. apply py_index_Ok in Hc as (l & -> & Hl).
    by rewrite list_insert_id.
Qed.

(** A readable path can be written. *)
Lemma upd_at_ok p v o o' : get_at p v = Ok o → ∃ v', upd_at p (λ _, Ok o') v = Ok v'.
Proof.
  revert v; induction p as [|[k|i] p IH]; intros v; simpl; [eauto| |].
  - destruct (py_getitem v k) as [c|] eqn:Hc; simpl; [|done]. intros (c' & ->)%IH. simpl.
    destruct v; simplify_eq/=. eauto.
  - destruct (py_index v i) as [c|] eqn:Hc; simpl; [|done]. intros (c' & ->)%IH. simpl.
    apply py_index_Ok in Hc as (l & -> & _). eauto.
Qed.

(** Reading back a written path gives the value written. *)
Lemma get_at_upd p v o' v' : upd_at p (λ _, Ok o') v = Ok v' → get_at p v' = Ok o'.
Proof.
  revert v v'; induction p as [|[k|i] p IH]; intros v v'; simpl; [by intros [= ->]| |].
  - destruct (py_getitem v k) as [c|]; simpl; [|done].
    destruct (upd_at p _ c) as [c'|] eqn:Hc'; simpl; [|done].
    intros Hv'. rewrite (py_getitem_setitem _ _ _ _ Hv'). simpl. by apply (IH c).
  - destruct (py_index v i) as [c|] eqn:Hc; simpl; [|done].
    destruct (upd_at p _ c) as [c'|] eqn:Hc'; simpl; [|done].
    apply py_index_Ok in Hc as (l & -> & Hl). intros [= <-]. simpl.
    rewrite list_lookup_insert_eq by (eapply lookup_lt_Some; eauto). simpl. by apply (IH c).
Qed.

(** The second of two writes along a path overrides the first. *)
Lemma upd_at_upd p v a b v1 :
  upd_at p (λ _, Ok a) v = Ok v1 → upd_at p (λ _, Ok b) v1 = upd_at p (λ _, Ok b) v.
Proof.
  revert v v1; induction p as [|[k|i] p IH]; intros v v1; simpl; [by intros [= ->]| |].
  - destruct (py_getitem v k) as [c|]; simpl; [|done].
    destruct (upd_at p _ c) as [c1|] eqn:Hc1; simpl; [|done]. intros Hv1.
    rewrite (py_getitem_setitem _ _ _ _ Hv1). simpl. rewrite (IH _ _ Hc1).
    destruct (upd_at p (λ _, Ok b) c); simpl; [|done]. by eapply py_setitem_setitem.
  - destruct (py_index v i) as [c|] eqn:Hc; simpl; [|done].
    destruct (upd_at p _ c) as [c1|] eqn:Hc1; simpl; [|done].
    apply py_index_Ok in Hc as (l & -> & Hl). intros [= <-]. simpl.
    rewrite list_lookup_insert_eq by (eapply lookup_lt_Some; eauto). simpl.
    rewrite (IH _ _ Hc1). destruct (upd_at p (λ _, Ok b) c); simpl; [|done].
    by rewrite list_insert_insert_eq.
Qed.
End Paths.

Section Sim.
Context {A B : Type}.

Lemma deref_at σ r v : σ !! r.1 = Some v → deref σ r = get_at r.2 v.
Proof. unfold deref. by intros ->. Qed.

Lemma sim_ext (m : ST store A) r f g : (∀ o, f o = g o) → sim m r f → sim m r g.
Proof. intros Hfg Hm σ v o Hv Ho. rewrite <- Hfg. by apply Hm. Qed.

Lemma sim_ret r (a : A) : sim (mret a) r (λ o, Ok (o, a)).
Proof.
  intros σ v o Hv Ho. exists v. split; [by apply upd_at_same|].
  by rewrite insert_id.
Qed.

Lemma sim_load r : sim (load r) r (λ o, Ok (o, o)).
Proof.
  intros σ v o Hv Ho. exists v. split; [by apply upd_at_same|].
  unfold load. by rewrite insert_id, (deref_at _ _ _ Hv), Ho.
Qed.

Lemma sim_lift r (x : res A) : sim (lift x) r (λ o, a ← x; Ok (o, a)).
Proof.
  intros σ v o Hv Ho. destruct x as [a|e]; simpl; [|eauto].
  exists v. split; [by apply upd_at_same|]. by rewrite insert_id.
Qed.

Lemma sim_modify r h : sim (modify r h) r (effect h).
Proof.
  intros σ v o Hv Ho. unfold sim_post, modify, effect. rewrite Hv, (upd_at_get _ _ _ _ Ho).
  destruct (h o) as [o'|e]; simpl; [|eauto].
  destruct (upd_at_ok _ _ _ o' Ho) as [v' ->]. eauto.
Qed.

(** Sequencing: a first step that succeeds, then the rest on the
    updated store. *)
Lemma sim_post_seq σ v (m : ST store A) (k : A → ST store B) r o1 a x :
  sim_post σ v m r (Ok (o1, a)) →
  (∀ v1, upd_at r.2 (λ _, Ok o1) v = Ok v1 → sim_post (<[r.1 := v1]> σ) v1 (k a) r x) →
  sim_post σ v (m ≫= k) r x.
Proof.
  intros (v1 & Hu1 & Hm) Hk. specialize (Hk v1 Hu1). unfold sim_post in *.
  rewrite (st_bind_Ok _ _ _ _ _ Hm). destruct x as [[o2 b]|e].
  - destruct Hk as (v2 & Hu2 & ->). exists v2.
    rewrite <- (upd_at_upd _ _ _ _ _ Hu1), Hu2. by rewrite insert_insert_eq.
  - destruct Hk as (σ' & -> & Hfr). exists σ'. split; [done|].
    intros j w Hj Hw. apply Hfr; [done|]. by rewrite lookup_insert_ne.
Qed.

Lemma sim_post_err σ v (m : ST store A) (k : A → ST store B) r e :
  sim_post σ v m r (Err e) → sim_post σ v (m ≫= k) r (Err e).
Proof. intros (σ' & Hm & Hfr). exists σ'. by rewrite (st_bind_Err _ _ _ _ _ Hm). Qed.

Lemma sim_bind (m : ST store A) (k : A → ST store B) r f g :
  sim m r f → (∀ a, sim (k a) r (g a)) →
  sim (m ≫= k) r (λ o, p ← f o; g p.2 p.1).
Proof.
  intros Hm Hk σ v o Hv Ho. specialize (Hm σ v o Hv Ho).
  destruct (f o) as [[o1 a]|e]; [|by apply sim_post_err].
  apply (sim_post_seq _ _ _ _ _ o1 a); [done|]. intros v1 Hu1.
  eapply Hk; [apply lookup_insert_eq | by eapply get_at_upd].
Qed.

Lemma sim_seq (m : ST store A) (m' : ST store B) r f g :
  sim m r f → sim m' r g → sim (m;; m') r (λ o, p ← f o; g p.1).
Proof. intros Hm Hm'. by apply (sim_bind m (λ _, m') r f (λ _, g)). Qed.

(** [o[k]] as a reference, and what is then done through it. *)
Lemma sim_subscript (c : ref → ST store A) r k f :
  sim (c (r.1, r.2 ++ [Key k])) (r.1, r.2 ++ [Key k]) f →
  sim (subscript r k ≫= c) r (λ o, x ← py_getitem o k; p ← f x; o' ← py_setitem o k p.1; Ok (o', p.2)).
Proof.
  intros Hc σ v o Hv Ho. unfold subscript, load, sim_post. unfold_monads.
  rewrite (deref_at _ _ _ Hv), Ho. simpl.
  destruct (py_getitem o k) as [x|e] eqn:Hx; simpl; [|eauto].
  assert (Hx' : get_at (r.2 ++ [Key k]) v = Ok x) by (rewrite get_at_app, Ho; simpl; by rewrite Hx).
  specialize (Hc σ v x Hv Hx'). unfold sim_post in Hc. destruct (f x) as [[x' a]|e]; simpl; [|done].
  destruct Hc as (v' & Hu & ->).
  destruct o as [| | | | |kvs]; simplify_eq/=. eexists; split; [|done].
  rewrite upd_at_app, (upd_at_get _ _ _ _ Ho) in Hu. simpl in Hu. by rewrite Hx in Hu.
Qed.
End Sim.

(** ** Computations that only read *)
Section Reads.
Context {A : Type}.

(** [m] reads the object at [r] and leaves the store as it is. *)
Definition reads (m : ST store A) (r : ref) (g : pyval → res A) : Prop :=
  ∀ σ v o, σ !! r.1 = Some v → get_at r.2 v = Ok o → m σ = (σ, g o).

Lemma reads_subscript (c : ref → ST store A) r k g :
  reads (c (r.1, r.2 ++ [Key k])) (r.1, r.2 ++ [Key k]) g →
  reads (subscript r k ≫= c) r (λ o, x ← py_getitem o k; g x).
Proof.
  intros Hc σ v o Hv Ho. unfold subscript, load, lift. unfold_monads.
  rewrite (deref_at _ _ _ Hv), Ho. simpl.
  destruct (py_getitem o k) as [x|e] eqn:Hx; simpl; [|done].
  apply (Hc σ v x Hv). cbn [fst snd]. by rewrite get_at_app, Ho; simpl; rewrite Hx.
Qed.
End Reads.

Lemma reads_load r : reads (load r) r Ok.
Proof. intros σ v o Hv Ho. unfold load. by rewrite (deref_at _ _ _ Hv), Ho. Qed.

Lemma reads_get_attr r k : reads (get_attr r k) r (λ o, py_get o k).
Proof. intros σ v o Hv Ho. unfold get_attr, load, lift. unfold_monads. by rewrite (deref_at _ _ _ Hv), Ho. Qed.

Lemma reads_subscript_ref r k : reads (subscript r k) r (λ o, _ ← py_getitem o k; Ok (r.1, r.2 ++ [Key k])).
Proof.
  intros σ v o Hv Ho. unfold subscript, load, lift. unfold_monads.
  rewrite (deref_at _ _ _ Hv), Ho. simpl. by destruct (py_getitem o k).
Qed.

Lemma heap_reads {S A} (m : ST store A) r g (s : S) σ v o :
  reads m r g → σ !! r.1 = Some v → get_at r.2 v = Ok o → heap m (s, σ) = ((s, σ), g o).
Proof. intros Hm Hv Ho. unfold heap. simpl. by rewrite (Hm σ v o Hv Ho). Qed.

Lemma heap_reads_bind {S A B} (m : ST store A) (k : A → ST (S * store) B) r g s σ v o :
  reads m r g → σ !! r.1 = Some v → get_at r.2 v = Ok o →
  (heap m ≫= k) (s, σ) = match g o with Ok a => k a (s, σ) | Err e => ((s, σ), Err e) end.
Proof.
  intros Hm Hv Ho. unfold mbind at 1, st_bind. rewrite (heap_reads _ _ _ _ _ _ _ Hm Hv Ho).
  by destruct (g o).
Qed.

Lemma api_bind {S A B} (m : ST S A) (k : A → ST (S * store) B) s σ s' x :
  m s = (s', x) → (api m ≫= k) (s, σ) = match x with Ok a => k a (s', σ) | Err e => ((s', σ), Err e) end.
Proof. intros Hm. unfold api, mbind at 1, st_bind. simpl. rewrite Hm. by destruct x. Qed.

Lemma heap_run {S A} (m : ST store A) (s : S) σ : heap m (s, σ) = ((s, (m σ).1), (m σ).2).
Proof. unfold heap. simpl. by destruct (m σ). Qed.

Lemma fresh_ne (σ : store) i w : σ !! i = Some w → fresh (dom σ) ≠ i.
Proof. intros Hi <-. apply (is_fresh (dom σ)), elem_of_dom. eauto. Qed.

Lemma heap_deepcopy_bind {S A} r (k : ref → ST (S * store) A) (s : S) σ v o :
  σ !! r.1 = Some v → get_at r.2 v = Ok o →
  (heap (deepcopy r) ≫= k) (s, σ) = k (fresh (dom σ), []) (s, <[fresh (dom σ) := o]> σ).
Proof.
  intros Hv Ho. apply st_bind_Ok. unfold heap, deepcopy, load, alloc. unfold_monads. simpl.
  by rewrite (deref_at _ _ _ Hv), Ho.
Qed.

Ltac reads_tac :=
  repeat apply reads_subscript; first [apply reads_get_attr | apply reads_load | apply reads_subscript_ref].

(** Run the first read-only [heap] step of the goal on the object that
    [Hv] and [Ho] describe. *)
Ltac heap_read Hv Ho :=
  match goal with
  | |- context [(heap ?m ≫= ?k) (?s, ?σ)] =>
      let Hr := fresh "Hr" in
      eassert (Hr : reads m _ _) by reads_tac;
      rewrite (heap_reads_bind m k _ _ s σ _ _ Hr Hv Ho); clear Hr
  end.

(** ** Loops *)
Lemma take_S_insert {X} (l : list X) i x : i < length l → take (S i) (<[i := x]> l) = take i l ++ [x].
Proof.
  intros Hi. rewrite (take_S_r _ _ x) by (by rewrite list_lookup_insert_eq).
  by rewrite take_insert_ge.
Qed.

Lemma load_bind {A} σ r v o (k : pyval → ST store A) :
  σ !! r.1 = Some v → get_at r.2 v = Ok o → (load r ≫= k) σ = k o σ.
Proof. intros Hv Ho. apply st_bind_Ok. unfold load. by rewrite (deref_at _ _ _ Hv), Ho. Qed.

(** [sim_post] depends on the computation only through its run in [σ]. *)
Lemma sim_post_run {A} σ v (m m' : ST store A) r x :
  m σ = m' σ → sim_post σ v m' r x → sim_post σ v m r x.
Proof. unfold sim_post. intros ->. done. Qed.

Lemma sim_post_ret {A} σ v r o (a : A) x :
  σ !! r.1 = Some v → get_at r.2 v = Ok o → x = Ok (o, a) → sim_post σ v (mret a) r x.
Proof. intros Hv Ho ->. by apply sim_ret. Qed.

(** A computation on the element [i] of the list at [r], seen from [r]. *)
Lemma sim_post_elem {A} (m : ST store A) σ v r l i x x' a :
  get_at r.2 v = Ok (PList l) → l !! i = Some x →
  sim_post σ v m (r.1, r.2 ++ [Idx i]) (Ok (x', a)) →
  sim_post σ v m r (Ok (PList (<[i := x']> l), a)).
Proof.
  intros Hl Hx (v' & Hu & Hm). exists v'. split; [|done].
  cbn [fst snd] in Hu. rewrite upd_at_app, (upd_at_get _ _ _ _ Hl) in Hu. simpl in Hu. by rewrite Hx in Hu.
Qed.

Lemma for_list_S n r i (body : ref → ST store unit) :
  for_list (S n) r i body =
    o ← load r;
    match o with
    | PList l => if decide (i < length l) then body (r.1, r.2 ++ [Idx i]);; for_list n r (S i) body else mret ()
    | _ => lift (raise TypeError)
    end.
Proof. done. Qed.

Section Loops.
Variable body : ref → ST store unit.
Variable h : pyval → res pyval.
Hypothesis Hbody : ∀ c, sim (body c) c (effect h).

(** The list loop from index [i], with a bound above the number of
    elements left, is [mapM] of the body on them. *)
Lemma for_list_post n i σ v l r :
  σ !! r.1 = Some v → get_at r.2 v = Ok (PList l) → length l - i ≤ n →
  sim_post σ v (for_list (S n) r i body) r (l' ← mapM h (drop i l); Ok (PList (take i l ++ l'), ())).
Proof.
  revert i σ v l. induction n as [|n IH]; intros i σ v l Hv Hl Hn;
    rewrite for_list_S; (eapply sim_post_run; [exact (load_bind _ _ _ _ _ Hv Hl)|]);
    (destruct (decide (i < length l)) as [Hi|Hi]; [|
      apply (sim_post_ret _ _ _ _ _ _ Hv Hl); rewrite drop_ge by lia; simpl;
      by rewrite take_ge, app_nil_r by lia]); [lia|].
  destruct (lookup_lt_is_Some_2 l i Hi) as [x Hx].
  assert (Hc : get_at (r.2 ++ [Idx i]) v = Ok x) by (rewrite get_at_app, Hl; simpl; by rewrite Hx).
  specialize (Hbody (r.1, r.2 ++ [Idx i]) σ v x Hv Hc).
  rewrite (drop_S _ _ _ Hx). unfold effect in Hbody. cbn [mapM].
  destruct (h x) as [x'|e]; cbn [mbind res_bind] in Hbody |- *; [|by apply sim_post_err].
  apply (sim_post_seq _ _ _ _ _ (PList (<[i := x']> l)) ()); [by eapply sim_post_elem|].
  intros v1 Hu1.
  assert (IH' := IH (S i) (<[r.1 := v1]> σ) v1 (<[i := x']> l) (lookup_insert_eq _ _ _) (get_at_upd _ _ _ _ Hu1)).
  rewrite length_insert, drop_insert_lt, take_S_insert in IH' by lia.
  destruct (mapM h (drop (S i) l)); cbn [mbind res_bind mret res_ret] in IH' |- *; [|by apply IH'; lia].
  rewrite <- app_assoc in IH'. by apply IH'; lia.
Qed.

(** The body of lines 75-78 and 81-84 raises on a string. *)
Hypothesis Hstr : ∀ s, ∃ e, h (PStr s) = Err e.

Lemma py_iter_strings o xs : (∀ l, o ≠ PList l) → py_iter o = Ok xs → Forall (λ x, ∃ s, x = PStr s) xs.
Proof.
  intros Hnl. destruct o as [| | | s | l | kvs]; simpl; intros; simplify_eq/=;
    [| by edestruct Hnl |]; apply Forall_map, Forall_forall; eauto.
Qed.

(** A loop over new string objects succeeds only when there are none. *)
Lemma for_vals_post σ v r o xs :
  σ !! r.1 = Some v → get_at r.2 v = Ok o → Forall (λ x, ∃ s, x = PStr s) xs →
  sim_post σ v (for_vals xs body) r (_ ← mapM h xs; Ok (o, ())).
Proof.
  intros Hv Ho Hxs. destruct Hxs as [|x xs [s ->] _]; [by eapply sim_post_ret|].
  destruct (Hstr s) as [e He]. cbn [mapM]. rewrite He. cbn [mbind res_bind].
  set (j := fresh (dom σ)). assert (Hj : σ !! j = None) by apply not_elem_of_dom, is_fresh.
  specialize (Hbody (j, []) (<[j := PStr s]> σ) (PStr s) (PStr s) (lookup_insert_eq _ _ _) eq_refl).
  unfold effect in Hbody. rewrite He in Hbody. destruct Hbody as (σ' & Hb & Hfr).
  exists σ'. split.
  - cbn [for_vals]. unfold mbind at 1, st_bind, alloc. fold j. by rewrite (st_bind_Err _ _ _ _ _ Hb).
  - intros j' w Hj' Hw. apply Hfr; [simpl; congruence|]. rewrite lookup_insert_ne; [done|congruence].
Qed.

(** [for c in o: body(c)], as a function of the iterated value. *)
Definition iter_effect (o : pyval) : res pyval :=
  match o with
  | PList l => l' ← mapM h l; Ok (PList l')
  | _ => xs ← py_iter o; _ ← mapM h xs; Ok o
  end.

Lemma for_vals_iter σ v r o :
  (∀ l, o ≠ PList l) → σ !! r.1 = Some v → get_at r.2 v = Ok o →
  sim_post σ v (xs ← lift (py_iter o); for_vals xs body) r (effect iter_effect o).
Proof.
  intros Hnl Hv Ho.
  replace (effect iter_effect o) with (xs ← py_iter o; _ ← mapM h xs; Ok (o, ()))
    by (unfold effect, iter_effect; destruct o; try (by edestruct Hnl);
        destruct (py_iter _); simpl; try destruct (mapM h _); done).
  destruct (py_iter o) as [xs|e] eqn:Hxs; cbn [mbind res_bind].
  - eapply sim_post_run; [apply st_bind_Ok; reflexivity|].
    by apply (for_vals_post _ _ _ _ _ Hv Ho), (py_iter_strings _ _ Hnl Hxs).
  - exists σ. split; [done | eauto].
Qed.

Lemma for_each_sim r : sim (for_each r body) r (effect iter_effect).
Proof.
  intros σ v o Hv Ho. unfold for_each. eapply sim_post_run; [exact (load_bind _ _ _ _ _ Hv Ho)|].
  destruct o as [| | | | l |]; try (apply for_vals_iter; [congruence|done|done]).
  assert (Hl := for_list_post (length l) 0 σ v l r Hv Ho ltac:(lia)).
  rewrite drop_0, take_0 in Hl. unfold effect, iter_effect.
  destruct (mapM h l); cbn [mbind res_bind] in *; done.
Qed.
End Loops.

Lemma contains_if_run {A} σ v r o k (m1 m2 : ST store A) :
  σ !! r.1 = Some v → get_at r.2 v = Ok o →
  (b ← contains k r; if (b : bool) then m1 else m2) σ =
    match py_contains k o with Ok b => (if b then m1 else m2) σ | Err e => (σ, Err e) end.
Proof.
  intros Hv Ho. unfold contains, load, lift, mbind, st_bind.
  rewrite (deref_at _ _ _ Hv), Ho. by destruct (py_contains k o).
Qed.

(** [if k in o: ... else: ...] *)
Lemma sim_contains_if {A} k r (m1 m2 : ST store A) f1 f2 :
  sim m1 r f1 → sim m2 r f2 →
  sim (b ← contains k r; if (b : bool) then m1 else m2) r (λ o, b ← py_contains k o; if (b : bool) then f1 o else f2 o).
Proof.
  intros H1 H2 σ v o Hv Ho. pose proof (contains_if_run σ v r o k m1 m2 Hv Ho) as Hrun.
  destruct (py_contains k o) as [b|e]; simpl.
  - eapply sim_post_run; [exact Hrun|]. destruct b; [by apply H1 | by apply H2].
  - exists σ. eauto.
Qed.

(** Two pure computations of [res] are equal: case on every step. *)
Ltac res_eq := unfold effect; unfold_monads; repeat (case_match; simplify_eq/=); congruence.

Section HandlerProps.
Context {S : Type} `{CoreV1Api S} `{JsonDiff}.
Variable requests_get : string → res Response.
Variable cfg : Config.

Lemma append_or_init_at_sim k x r : sim (append_or_init_at k x r) r (effect (append_or_init k x)).
Proof.
  eapply sim_ext; [|apply sim_contains_if; [apply sim_subscript, sim_modify | apply sim_modify]].
  intros o. unfold append_or_init. res_eq.
Qed.

Lemma append_or_init_str k x s : ∃ e, append_or_init k x (PStr s) = Err e.
Proof. unfold append_or_init. simpl. case_match; simpl; eauto. Qed.

Lemma mount_all_iter o :
  mount_all cfg o = iter_effect (append_or_init "volumeMounts" (ca_volume_mount cfg)) o.
Proof. by destruct o. Qed.

Lemma for_each_mount_sim r : sim (for_each r (mount_at cfg)) r (effect (mount_all cfg)).
Proof.
  apply (sim_ext _ _ (effect (iter_effect (append_or_init "volumeMounts" (ca_volume_mount cfg))))).
  { intros o. unfold effect. by rewrite mount_all_iter. }
  apply for_each_sim; [intros c; apply append_or_init_at_sim | intros s; apply append_or_init_str].
Qed.

(** Lines 68-84 in place are [Planner.inject] on the value. *)
Lemma inject_at_sim ms : sim (inject_at cfg ms) ms (effect (inject cfg)).
Proof.
  eapply sim_ext; [|apply sim_subscript, sim_seq; [apply append_or_init_at_sim|];
    apply sim_seq; [apply sim_contains_if; [apply sim_subscript, for_each_mount_sim | apply sim_ret]|];
    apply sim_subscript, for_each_mount_sim].
  intros o. unfold inject, mount_init_containers, mount_containers. res_eq.
Qed.
(** Lines 45-84 in place are [Planner.plan] on the value of
    [modified_spec]: the same API calls, the same exception, and on
    success the object holds [plan]'s result. *)
Lemma plan_at_run ms s σ v o :
  σ !! ms.1 = Some v → get_at ms.2 v = Ok o →
  match plan requests_get cfg o s with
  | (s', Ok o') => ∃ v', upd_at ms.2 (λ _, Ok o') v = Ok v' ∧
                     plan_at requests_get cfg ms (s, σ) = ((s', <[ms.1 := v']> σ), Ok ())
  | (s', Err e) => ∃ σ', plan_at requests_get cfg ms (s, σ) = ((s', σ'), Err e) ∧
                     ∀ j w, j ≠ ms.1 → σ !! j = Some w → σ' !! j = Some w
  end.
Proof.
  intros Hv Ho. unfold plan_at, plan. heap_read Hv Ho.
  destruct (py_getitem o "metadata") as [md|e] eqn:E1; cbn [mbind res_bind];
    rewrite ?lift_bind_Ok, ?lift_bind_Err; [|simpl; eauto].
  destruct (py_getitem md "annotations") as [ann|e] eqn:E2; cbn [mbind res_bind];
    rewrite ?lift_bind_Ok, ?lift_bind_Err; [|simpl; eauto].
  destruct (py_get ann _) as [flag|e] eqn:E3; cbn [mbind res_bind];
    rewrite ?lift_bind_Ok, ?lift_bind_Err; [|simpl; eauto].
  destruct (py_eq_str flag "true").
  2:{ unfold mret, st_ret. exists v. split; [by apply upd_at_same|]. by rewrite insert_id. }
  heap_read Hv Ho. rewrite E1. cbn [mbind res_bind].
  destruct (py_getitem md "namespace") as [nsv|e] eqn:E4; cbn [mbind res_bind];
    rewrite ?lift_bind_Ok, ?lift_bind_Err; [|simpl; eauto].
  destruct (namespace_param nsv) as [ns|e] eqn:E5; rewrite ?lift_bind_Ok, ?lift_bind_Err; [|simpl; eauto].
  destruct (ensure_configmap requests_get cfg ns s) as [s1 [[]|e]] eqn:E6;
    rewrite (api_bind _ _ _ _ _ _ E6); [rewrite (st_bind_Ok _ _ _ _ _ E6) | rewrite (st_bind_Err _ _ _ _ _ E6); simpl; eauto].
  rewrite heap_run. unfold lift.
  pose proof (inject_at_sim ms σ v o Hv Ho) as Hinj. unfold effect in Hinj.
  destruct (inject cfg o) as [o'|e]; simpl in Hinj |- *.
  - destruct Hinj as (v' & Hu & ->). eauto.
  - destruct Hinj as (σ' & -> & Hfr). eauto.
Qed.
(** The whole view: the in-place handler answers as [mutate_view],
    leaves the API server in the same state, and [request.json] as it
    found it. *)
Lemma mutate_inplace_view_run body s σ i :
  σ !! i = Some body →
  ∃ σ', mutate_inplace_view requests_get cfg (i, []) (s, σ) =
          (((mutate_view requests_get cfg body s).1, σ'), (mutate_view requests_get cfg body s).2) ∧
        σ' !! i = Some body.
Proof.
  intros Hi. assert (Hb : get_at [] body = Ok body) by done.
  unfold mutate_inplace_view, mutate_view. heap_read Hi Hb.
  destruct (py_getitem body "request") as [req|e] eqn:E1; cbn [mbind res_bind];
    rewrite ?lift_bind_Ok, ?lift_bind_Err; [|simpl; eauto].
  destruct (py_getitem req "object") as [spec|e] eqn:E2; cbn [mbind res_bind];
    rewrite ?lift_bind_Ok, ?lift_bind_Err; [|simpl; eauto].
  assert (Hspec : get_at [Key "request"; Key "object"] body = Ok spec) by (simpl; rewrite E1; simpl; by rewrite E2).
  cbn [fst snd app]. rewrite (heap_deepcopy_bind (i, [Key "request"; Key "object"]) _ _ _ _ _ Hi Hspec).
  set (j := fresh (dom σ)). assert (Hj : j ≠ i) by (eapply fresh_ne; eauto).
  pose proof (plan_at_run (j, []) s (<[j := spec]> σ) spec spec (lookup_insert_eq _ _ _) eq_refl) as Hp.
  destruct (plan requests_get cfg spec s) as [s' [o'|e]] eqn:Ep.
  - destruct Hp as (v' & [= <-] & Hrun).
    rewrite (st_bind_Ok _ _ _ _ _ Hrun), (st_bind_Ok _ _ _ _ _ Ep).
    assert (Hi2 : <[j := o']> (<[j := spec]> σ) !! i = Some body) by (by rewrite !lookup_insert_ne).
    heap_read Hi2 Hspec. cbn [mbind res_bind].
    heap_read (lookup_insert_eq (<[j := spec]> σ) j o') (eq_refl : get_at [] o' = Ok o'). cbn [mbind res_bind].
    heap_read Hi2 Hb. rewrite E1. cbn [mbind res_bind]. rewrite lift_bind_Ok.
    destruct (py_getitem req "uid"); simpl; eauto.
  - destruct Hp as (σ' & Hrun & Hfr).
    rewrite (st_bind_Err _ _ _ _ _ Hrun), (st_bind_Err _ _ _ _ _ Ep). simpl.
    exists σ'. split; [done|]. apply Hfr; [done|]. by rewrite lookup_insert_ne.
Qed.

Lemma mutate_inplace_run body s σ i :
  σ !! i = Some body →
  ∃ σ', mutate_inplace requests_get cfg (i, []) (s, σ) =
          (((mutate requests_get cfg body s).1, σ'), (mutate requests_get cfg body s).2) ∧
        σ' !! i = Some body.
Proof.
  intros Hi. destruct (mutate_inplace_view_run body s σ i Hi) as (σ' & Hrun & Hσ').
  exists σ'. split; [|done]. unfold mutate_inplace, mutate, flask_view. rewrite Hrun.
  by destruct (mutate_view requests_get cfg body s) as [? []].
Qed.

(** C6: the handler as written, which mutates [modified_spec] in
    place through references into Python's object store, answers
    exactly as the value model [Webhook.mutate] and leaves the API
    server in the same state. *)
Theorem mutate_inplace_equiv body s σ i :
  σ !! i = Some body →
  ∃ σ', mutate_inplace requests_get cfg (i, []) (s, σ) =
          (((mutate requests_get cfg body s).1, σ'), (mutate requests_get cfg body s).2).
Proof. intros Hi. destruct (mutate_inplace_run body s σ i Hi) as (σ' & ? & _). eauto. Qed.

(** C7: [request.json] is as the handler found it, whatever the
    outcome: every write goes to the [copy.deepcopy] of line 43. *)
Theorem mutate_inplace_request_intact body s σ i :
  σ !! i = Some body → (mutate_inplace requests_get cfg (i, []) (s, σ)).1.2 !! i = Some body.
Proof. intros Hi. destruct (mutate_inplace_run body s σ i Hi) as (σ' & -> & ?). done. Qed.
(** No Python operation of the model raises the model's [OutOfFuel]. *)
Lemma bind_no_fuel {X Y} (m : res X) (k : X → res Y) :
  m ≠ Err OutOfFuel → (∀ a, k a ≠ Err OutOfFuel) → (m ≫= k) ≠ Err OutOfFuel.
Proof. intros Hm Hk. destruct m; [apply Hk|]. intros [=]; subst. by apply Hm. Qed.

Lemma py_ops_no_fuel o k x i :
  py_getitem o k ≠ Err OutOfFuel ∧ py_index o i ≠ Err OutOfFuel ∧ py_setitem o k x ≠ Err OutOfFuel ∧
  py_append o x ≠ Err OutOfFuel ∧ py_contains k o ≠ Err OutOfFuel ∧ py_iter o ≠ Err OutOfFuel.
Proof. destruct o; simpl; repeat split; try case_match; done. Qed.

End HandlerProps.

(** ** Concrete scenarios *)
Module StoreDemo.
(** [request.json] of a triggered pod, as object 0 of the store. *)
Definition σ0 : store := {[0 := ReviewDemo.body (PodDemo.pod PodDemo.trig)]}.
End StoreDemo.

Lemma mutate_inplace_equiv_witness :
  ∃ σ', mutate_inplace (H0 := replace_diff) Demo.get_ok Demo.cfg (0, []) (Demo.server ∅, StoreDemo.σ0) =
    (((mutate (H0 := replace_diff) Demo.get_ok Demo.cfg (ReviewDemo.body (PodDemo.pod PodDemo.trig)) (Demo.server ∅)).1, σ'),
     (mutate (H0 := replace_diff) Demo.get_ok Demo.cfg (ReviewDemo.body (PodDemo.pod PodDemo.trig)) (Demo.server ∅)).2).
Proof. apply (mutate_inplace_equiv (H0 := replace_diff) Demo.get_ok Demo.cfg). reflexivity. Defined.

Lemma mutate_inplace_request_intact_witness :
  (mutate_inplace (H0 := replace_diff) Demo.get_ok Demo.cfg (0, []) (Demo.server ∅, StoreDemo.σ0)).1.2 !! 0
    = Some (ReviewDemo.body (PodDemo.pod PodDemo.trig)).
Proof. apply (mutate_inplace_request_intact (H0 := replace_diff) Demo.get_ok Demo.cfg). reflexivity. Defined.

(** The in-place handler runs: on the demo pod the copy, object 1,
    ends holding [inject]'s result. *)
Example mutate_inplace_demo :
  ∃ o', inject Demo.cfg (PodDemo.pod PodDemo.trig) = Ok o' ∧
    (mutate_inplace (H0 := replace_diff) Demo.get_ok Demo.cfg (0, []) (Demo.server ∅, StoreDemo.σ0)).1.2 !! 1 = Some o'.
Proof. eexists; split; [reflexivity|]. vm_compute. reflexivity. Qed.
