(* ===== verification/Server.v ===== *)
(** * The HTTP server: Flask's dispatch to the two views

    [app.py] line 11 creates the Flask application and lines 40 and 99
    register [mutate] for [POST /mutate] and [health] for [GET /health].
    Flask answers a path with no route 404 and a method the route does
    not allow 405; it adds [HEAD] to a [GET] route (the body is dropped)
    and answers [OPTIONS] itself.  Line 42's [request.json] is a 415 when
    the content type is not JSON and a 400 when the body does not parse
    (Flask 2.3 and later); both happen before anything else in the view,
    so the view runs only on a parsed body.  [dispatch] is that wiring,
    modelled from Flask's documentation; the views are [Webhook]'s. *)

From S2P Require Import Prelude PyVal Config Provisioner Planner Patch Webhook.

Inductive http_method := GET | HEAD | POST | PUT | DELETE | PATCH | OPTIONS.

#[export] Instance http_method_eq_dec : EqDecision http_method.
Proof. solve_decision. Defined.

(** The request as the views see it.  [req_json] is [None] for a
    content type other than JSON, [Some None] for a body that does not
    parse and [Some (Some v)] for the parsed [request.json]. *)
Record http_request := {
  req_method : http_method;
  req_path : string;
  req_json : option (option pyval)
}.

(** Lines 40 and 99: the routes and the methods they accept. *)
Definition allowed_methods (path : string) : option (list http_method) :=
  if String.eqb path "/mutate" then Some [POST; OPTIONS]
  else if String.eqb path "/health" then Some [GET; HEAD; OPTIONS]
  else None.

(** [HEAD] answers with the status of [GET] and no body. *)
Definition head_of (r : http_response) : http_response :=
  match r with
  | JsonResponse st _ | TextResponse st _ => TextResponse st ""
  end.

Section Server.
Context {S : Type} `{CoreV1Api S} `{JsonDiff}.
Variable requests_get : string → res Response.
Variable cfg : Config.

Definition dispatch (req : http_request) : ST S http_response :=
  match allowed_methods req.(req_path) with
  | None => mret (TextResponse 404 "Not Found")
  | Some ms =>
      if decide (req.(req_method) ∈ ms) then
        if decide (req.(req_method) = OPTIONS) then mret (TextResponse 200 "")
        else if String.eqb req.(req_path) "/mutate" then
          match req.(req_json) with
          | None => mret (TextResponse 415 "Unsupported Media Type")
          | Some None => mret (TextResponse 400 "Bad Request")
          | Some (Some body) => mutate requests_get cfg body
          end
        else if decide (req.(req_method) = HEAD) then mret (head_of health)
        else mret health
      else mret (TextResponse 405 "Method Not Allowed")
  end.
End Server.

Section ServerProps.
Context {S : Type} `{CoreV1Api S} `{JsonDiff}.
Variable requests_get : string → res Response.
Variable cfg : Config.

(** A request that is not a [POST /mutate] with a parsed JSON body is
    answered without a view that could reach the cluster. *)
Definition reaches_mutate (req : http_request) : Prop :=
  req.(req_method) = POST ∧ req.(req_path) = "/mutate" ∧ ∃ body, req.(req_json) = Some (Some body).

Lemma dispatch_mutate_unfold req body :
  req.(req_method) = POST → req.(req_path) = "/mutate" → req.(req_json) = Some (Some body) →
  dispatch requests_get cfg req = mutate requests_get cfg body.
Proof.
  destruct req as [m p j]; simpl. intros -> -> ->. reflexivity.
Qed.

(** C23: routing.  [POST /mutate] with a JSON body runs the view of
    lines 41-96 on [request.json]; every other request is answered
    without touching the cluster, with Flask's 404, 405, 415 or 400, the
    automatic [OPTIONS] answer or [/health]. *)
Theorem dispatch_routes req s :
  (∀ body, req.(req_method) = POST → req.(req_path) = "/mutate" → req.(req_json) = Some (Some body) →
     dispatch requests_get cfg req s = mutate requests_get cfg body s) ∧
  (¬ reaches_mutate req → ∃ r, dispatch requests_get cfg req s = (s, Ok r)).
Proof.
  split; [intros body Hm Hp Hj; by rewrite (dispatch_mutate_unfold req body Hm Hp Hj)|].
  intros Hnot. destruct req as [m p j]. unfold dispatch, reaches_mutate in *. simpl in *.
  destruct (allowed_methods p) as [ms|] eqn:Hp; [|eauto].
  destruct (decide (m ∈ ms)) as [Hm|]; [|eauto]. destruct (decide (m = OPTIONS)); [eauto|].
  destruct (String.eqb_spec p "/mutate") as [->|]; [|repeat case_decide; eauto].
  destruct j as [[body|]|]; try eauto. exfalso. apply Hnot. vm_compute in Hp. simplify_eq.
  rewrite !elem_of_cons, elem_of_nil in Hm. naive_solver.
Qed.
End ServerProps.
