(* ===== verification/Diff.v ===== *)
(** * A structural JSON diff in the manner of [jsonpatch.make_patch]

    [app.py] line 86 calls [jsonpatch.JsonPatch.from_diff(spec,
    modified_spec)].  [Webhook] is proved for every lawful [JsonDiff];
    this file gives the structural instance [struct_diff], modelled on
    the library's documented algorithm: two dicts are compared key by key
    (removed keys, then the common keys recursively, then the added
    keys), two lists index by index with the extra elements added at
    their index or the missing ones removed from the end, and anything
    else is replaced.  Three departures from the library: no [move] or
    [copy] operations are generated; the operations come in the order
    removals, common keys, additions, where the library emits a dict's
    additions before its common keys; and a dict whose keys cannot be put in the new order
    by removals and appends is replaced whole, so that applying the diff
    gives the new document exactly (including key order, which [pyval]
    keeps).  No theorem depends on the order of independent operations:
    C24 is about their kinds.

    The theorems: [struct_diff] is a lawful [JsonDiff], and on the
    webhook's own change the patch only adds: it never removes or
    replaces anything of the admitted pod. *)

From S2P Require Import Prelude PyVal Config Provisioner Planner Growth Patch Webhook.
From Stdlib Require Import DecimalString DecimalNat.

(** The JSON Pointer token of an array index. *)
Definition index_token (i : nat) : string := NilEmpty.string_of_uint (Nat.to_uint i).

Definition prefix_op (t : string) (op : patch_op) : patch_op :=
  match op with
  | PAdd p v => PAdd (t :: p) v
  | PRemove p => PRemove (t :: p)
  | PReplace p v => PReplace (t :: p) v
  end.

(** The key order removals and appends can produce: the kept keys in
    their old order, then the new keys. *)
Definition dict_order_ok (ka kb : dict) : bool :=
  bool_decide (kb.*1 = filter (λ k, k ∈ kb.*1) ka.*1 ++ filter (λ k, k ∉ ka.*1) kb.*1).

Fixpoint struct_diff (a b : pyval) {struct a} : list patch_op :=
  if decide (a = b) then [] else
  match a, b with
  | PDict ka, PDict kb =>
      if dict_order_ok ka kb then
        map (λ kv, PRemove [kv.1]) (filter (λ kv, kv.1 ∉ kb.*1) ka) ++
        (fix common (l : dict) : list patch_op :=
           match l with
           | [] => []
           | (k, va) :: r =>
               match dict_lookup k kb with
               | Some vb => map (prefix_op k) (struct_diff va vb)
               | None => []
               end ++ common r
           end) ka ++
        map (λ kv, PAdd [kv.1] kv.2) (filter (λ kv, kv.1 ∉ ka.*1) kb)
      else [PReplace [] b]
  | PList la, PList lb =>
      (fix elems (i : nat) (la lb : list pyval) {struct la} : list patch_op :=
         match la, lb with
         | x :: la', y :: lb' => map (prefix_op (index_token i)) (struct_diff x y) ++ elems (S i) la' lb'
         | _, _ => []
         end) 0 la lb ++
      (if decide (length la ≤ length lb) then
         imap (λ j y, PAdd [index_token (length la + j)] y) (drop (length la) lb)
       else replicate (length la - length lb) (PRemove [index_token (length lb)]))
  | _, _ => [PReplace [] b]
  end.

#[export] Instance struct_json_diff : JsonDiff := struct_diff.

(** The three phases of a dict diff and the two of a list diff, as
    functions of their own (the fixes inside [struct_diff] compute them). *)
Definition dict_removes (ka kb : dict) : list patch_op :=
  map (λ kv, PRemove [kv.1]) (filter (λ kv, kv.1 ∉ kb.*1) ka).

Fixpoint common_ops (kb : dict) (l : dict) : list patch_op :=
  match l with
  | [] => []
  | (k, va) :: r =>
      match dict_lookup k kb with
      | Some vb => map (prefix_op k) (struct_diff va vb)
      | None => []
      end ++ common_ops kb r
  end.

Definition dict_adds (ka kb : dict) : list patch_op :=
  map (λ kv, PAdd [kv.1] kv.2) (filter (λ kv, kv.1 ∉ ka.*1) kb).

Fixpoint elems_ops (i : nat) (la lb : list pyval) : list patch_op :=
  match la, lb with
  | x :: la', y :: lb' => map (prefix_op (index_token i)) (struct_diff x y) ++ elems_ops (S i) la' lb'
  | _, _ => []
  end.

Definition list_tail_ops (la lb : list pyval) : list patch_op :=
  if decide (length la ≤ length lb) then
    imap (λ j y, PAdd [index_token (length la + j)] y) (drop (length la) lb)
  else replicate (length la - length lb) (PRemove [index_token (length lb)]).

(** The kept keys of [ka] with their values in [kb]. *)
Definition common_result (ka kb : dict) : dict := omap (λ kv, pair kv.1 <$> dict_lookup kv.1 kb) ka.

(** What the diff of [a] against any well-formed [b] must do: applied
    to [a], give [b]. *)
Definition diff_ok (a : pyval) : Prop := ∀ b, wf a → wf b → apply_patch (struct_diff a b) a = Some b.

(** An [add] operation: the patch never removes or replaces. *)
Definition is_add (op : patch_op) : bool := match op with PAdd _ _ => true | _ => false end.

(** The child [t] of a container. *)
Definition child (t : string) (doc : pyval) : option pyval :=
  match doc with
  | PDict kvs => dict_lookup t kvs
  | PList l => i ← parse_index t; l !! i
  | _ => None
  end.

(** The operations that can be moved under a prefix. *)
Definition op_ok (op : patch_op) : Prop :=
  match op with PReplace _ _ => True | PAdd p _ | PRemove p => p ≠ [] end.

(** ** Array index tokens *)
Lemma nzhead_not_D0 d d' : Decimal.nzhead d ≠ Decimal.D0 d'.
Proof. induction d; simpl; congruence. Qed.

Lemma nat_of_to_uint n : Nat.of_uint (Nat.to_uint n) = n.
Proof. exact (DecimalNat.Unsigned.of_to n). Qed.

(** [Nat.to_uint] has no leading zero: a first digit [0] is the number 0. *)
Lemma to_uint_D0 n d : Nat.to_uint n = Decimal.D0 d → n = 0.
Proof.
  intros Hn.
  assert (Hnorm : Nat.to_uint n = Decimal.unorm (Nat.to_uint n)).
  { pose proof (DecimalNat.Unsigned.to_of (Nat.to_uint n)) as H. rewrite DecimalNat.Unsigned.of_to in H. exact H. }
  pose proof (nat_of_to_uint n) as Hof. rewrite Hn in Hnorm, Hof.
  unfold Decimal.unorm in Hnorm. simpl in Hnorm.
  destruct (Decimal.nzhead d) eqn:E; try discriminate.
  - injection Hnorm as ->. by rewrite <- Hof.
  - by destruct (nzhead_not_D0 _ _ E).
Qed.

Lemma parse_index_token i : parse_index (index_token i) = Some i.
Proof.
  unfold parse_index, index_token.
  assert (Hi : Nat.of_uint <$> NilEmpty.uint_of_string (NilEmpty.string_of_uint (Nat.to_uint i)) = Some i)
    by (rewrite NilEmpty.usu; simpl; f_equal; apply nat_of_to_uint).
  destruct (Nat.to_uint i) eqn:E; try exact Hi; simpl.
  pose proof (to_uint_D0 _ _ E) as ->. cbn in E. by injection E as <-.
Qed.

(** ** Applying patches under a prefix *)
Section Apply.
Implicit Types (t : string) (doc : pyval) (ops : list patch_op).

Lemma apply_patch_app ops1 ops2 doc :
  apply_patch (ops1 ++ ops2) doc = apply_patch ops1 doc ≫= apply_patch ops2.
Proof.
  revert doc; induction ops1 as [|op ops IH]; intros doc; simpl; [done|].
  destruct (apply_op op doc); simpl; [apply IH|done].
Qed.

Lemma apply_patch_app_Some ops1 ops2 doc d1 :
  apply_patch ops1 doc = Some d1 → apply_patch (ops1 ++ ops2) doc = apply_patch ops2 d1.
Proof. intros H. by rewrite apply_patch_app, H. Qed.

Lemma update_at_cons t rest g doc : update_at (t :: rest) g doc = update_at [t] (update_at rest g) doc.
Proof. by destruct doc. Qed.

Lemma update_at_child t g doc d' :
  update_at [t] g doc = Some d' → ∃ c c', child t doc = Some c ∧ g c = Some c' ∧ child t d' = Some c'.
Proof.
  destruct doc as [| | | |l|kvs]; simpl; try done.
  - destruct (parse_index t) as [i|] eqn:Hi; simpl; [|by intros ?].
    destruct (l !! i) as [c|] eqn:Hc; simpl; [|by intros ?].
    destruct (g c) as [c'|] eqn:Hg; simpl; [|by intros ?].
    intros [= <-]. exists c, c'. simpl. rewrite Hi. simpl.
    rewrite list_lookup_insert_eq; [done|]. by eapply lookup_lt_Some.
  - destruct (dict_lookup t kvs) as [c|]; simpl; [|by intros ?].
    destruct (g c) as [c'|] eqn:Hg; simpl; [|by intros ?].
    intros [= <-]. exists c, c'. simpl. by rewrite dict_lookup_set_eq.
Qed.

Lemma update_at_id t doc : is_Some (child t doc) → update_at [t] Some doc = Some doc.
Proof.
  destruct doc as [| | | |l|kvs]; simpl; intros [c Hc]; try done.
  - destruct (parse_index t) as [i|]; simpl in *; [|done]. rewrite Hc. simpl. by rewrite list_insert_id.
  - rewrite Hc. simpl. by rewrite dict_set_lookup.
Qed.

Lemma update_at_compose t f g doc :
  update_at [t] f doc ≫= update_at [t] g = update_at [t] (λ x, f x ≫= g) doc.
Proof.
  destruct doc as [| | | |l|kvs]; simpl; try done.
  - destruct (parse_index t) as [i|]; simpl; [|done].
    destruct (l !! i) as [c|] eqn:Hc; simpl; [|done]. destruct (f c) as [c'|]; simpl; [|done].
    rewrite list_lookup_insert_eq by (by eapply lookup_lt_Some). simpl.
    destruct (g c'); simpl; [|done]. by rewrite list_insert_insert_eq.
  - destruct (dict_lookup t kvs) as [c|]; simpl; [|done]. destruct (f c) as [c'|]; simpl; [|done].
    rewrite dict_lookup_set_eq. simpl. destruct (g c'); simpl; [|done]. by rewrite dict_set_set.
Qed.

Lemma replace_child_update t v doc : replace_child t v doc = update_at [t] (λ _, Some v) doc.
Proof.
  destruct doc as [| | | |l|kvs]; simpl; try done.
  - destruct (parse_index t) as [i|]; simpl; [|done].
    destruct (l !! i) eqn:Hc; simpl; case_guard; try done;
      exfalso; first [apply lookup_lt_Some in Hc | apply lookup_ge_None in Hc]; lia.
Qed.

Lemma apply_op_prefix t op doc : op_ok op → apply_op (prefix_op t op) doc = update_at [t] (apply_op op) doc.
Proof.
  destruct op as [[|x p] v|[|x p]|[|x p] v]; simpl; intros Hok; try done.
  exact (replace_child_update t v doc).
Qed.

(** A patch under the prefix [t] is the patch applied to the child. *)
Lemma apply_patch_prefix t ops doc :
  Forall op_ok ops → is_Some (child t doc) →
  apply_patch (map (prefix_op t) ops) doc = update_at [t] (apply_patch ops) doc.
Proof.
  intros Hok. revert doc. induction Hok as [|op ops Hop Hops IH]; intros doc Hc; simpl.
  - symmetry. by apply update_at_id.
  - rewrite apply_op_prefix by done.
    transitivity (update_at [t] (λ x, apply_op op x ≫= apply_patch ops) doc); [|done].
    rewrite <- update_at_compose.
    destruct (update_at [t] (apply_op op) doc) as [d'|] eqn:E; simpl; [|done].
    apply IH. destruct (update_at_child _ _ _ _ E) as (c & c' & _ & _ & ->). by eexists.
Qed.
End Apply.

(** ** [struct_diff] by cases *)
Lemma struct_diff_eq a b :
  struct_diff a b =
    if decide (a = b) then [] else
    match a, b with
    | PDict ka, PDict kb =>
        if dict_order_ok ka kb then dict_removes ka kb ++ common_ops kb ka ++ dict_adds ka kb
        else [PReplace [] b]
    | PList la, PList lb => elems_ops 0 la lb ++ list_tail_ops la lb
    | _, _ => [PReplace [] b]
    end.
Proof.
  destruct a as [| | | |la|ka], b as [| | | |lb|kb]; simpl; try reflexivity; case_decide; try done.
  case_match; [|done]. do 2 f_equal. clear. induction ka as [|[k va] r IH]; simpl; [done|]. by rewrite IH.
Qed.

Lemma op_ok_prefix t ops : Forall op_ok (map (prefix_op t) ops).
Proof. apply Forall_forall. intros op (op' & -> & _)%list_elem_of_fmap. by destruct op'. Qed.

Lemma common_ops_ok kb l : Forall op_ok (common_ops kb l).
Proof.
  induction l as [|[k va] r IH]; simpl; [done|].
  apply Forall_app; split; [case_match; [apply op_ok_prefix|done]|done].
Qed.

Lemma elems_ops_ok i la lb : Forall op_ok (elems_ops i la lb).
Proof.
  revert i lb; induction la as [|x la IH]; intros i [|y lb]; simpl; try done.
  apply Forall_app; split; [apply op_ok_prefix|apply IH].
Qed.

Lemma list_tail_ops_ok la lb : Forall op_ok (list_tail_ops la lb).
Proof.
  unfold list_tail_ops. case_decide; [|by apply Forall_replicate].
  apply Forall_forall. intros op (j & y & -> & _)%elem_of_lookup_imap. done.
Qed.

(** Every operation of the diff can be moved under a prefix. *)
Lemma struct_diff_ok a b : Forall op_ok (struct_diff a b).
Proof.
  rewrite struct_diff_eq. case_decide; [done|].
  destruct a, b; repeat case_match; rewrite ?Forall_app; repeat constructor;
    eauto using common_ops_ok, elems_ops_ok, list_tail_ops_ok.
  - apply Forall_forall. unfold dict_removes. by intros op (kv & -> & _)%list_elem_of_fmap.
  - apply Forall_forall. unfold dict_adds. by intros op (kv & -> & _)%list_elem_of_fmap.
Qed.


(** ** The dict phases *)
Section DictPhases.
Implicit Types (pre kvs ka kb : dict) (k : string) (v : pyval).

Lemma NoDup_keys_middle pre k v r :
  NoDup (pre ++ (k, v) :: r).*1 → (k ∉ pre.*1) ∧ (k ∉ r.*1) ∧ NoDup (pre ++ r).*1.
Proof.
  rewrite !fmap_app, fmap_cons, <- Permutation_middle, NoDup_cons, not_elem_of_app. naive_solver.
Qed.

Lemma dict_lookup_middle pre k v r : k ∉ pre.*1 → dict_lookup k (pre ++ (k, v) :: r) = Some v.
Proof.
  intros Hk. rewrite dict_lookup_app, (proj2 (dict_lookup_None _ _) Hk). simpl. by rewrite String.eqb_refl.
Qed.

Lemma dict_set_middle pre k v v' r : k ∉ pre.*1 → dict_set k v' (pre ++ (k, v) :: r) = pre ++ (k, v') :: r.
Proof.
  induction pre as [|[k0 v0] pre IH]; simpl; [by rewrite String.eqb_refl|].
  intros [Hk0 Hk]%not_elem_of_cons. rewrite (proj2 (String.eqb_neq k k0) Hk0). by rewrite IH.
Qed.

Lemma filter_key_notin k kvs : k ∉ kvs.*1 → filter (λ kv, kv.1 ≠ k) kvs = kvs.
Proof.
  induction kvs as [|[k' v'] r IH]; [done|]. intros [Hk Hr]%not_elem_of_cons.
  rewrite (filter_cons_True (λ kv : string * pyval, kv.1 ≠ k)) by (simpl; naive_solver). f_equal. by apply IH.
Qed.

(** The removals, applied in order, delete the chosen keys and keep the
    order of the rest. *)
Lemma apply_removes (Q : string → Prop) `{!∀ k, Decision (Q k)}
    (Hkv : ∀ kv : string * pyval, Decision (Q kv.1)) pre kvs :
  NoDup (pre ++ kvs).*1 →
  apply_patch (map (λ kv, PRemove [kv.1]) (@filter _ _ _ (λ kv, Q kv.1) Hkv kvs)) (PDict (pre ++ kvs))
    = Some (PDict (pre ++ filter (λ kv, ¬ Q kv.1) kvs)).
Proof.
  revert pre. induction kvs as [|[k v] r IH]; intros pre Hnd; [reflexivity|].
  destruct (NoDup_keys_middle _ _ _ _ Hnd) as (Hpre & Hr & Hnd').
  destruct (decide (Q k)) as [Hq|Hq].
  - rewrite (@filter_cons_True _ (λ kv : string * pyval, Q kv.1) Hkv),
      (filter_cons_False (λ kv : string * pyval, ¬ Q kv.1)) by (simpl; tauto).
    simpl. rewrite dict_lookup_middle by done. simpl.
    rewrite filter_app, (filter_cons_False (λ kv : string * pyval, kv.1 ≠ k)) by (simpl; tauto).
    rewrite !filter_key_notin by done. by apply IH.
  - rewrite (@filter_cons_False _ (λ kv : string * pyval, Q kv.1) Hkv),
      (filter_cons_True (λ kv : string * pyval, ¬ Q kv.1)) by naive_solver.
    rewrite !cons_middle, !app_assoc. apply IH. by rewrite <- app_assoc.
Qed.

(** The additions of new keys append them in order. *)
Lemma apply_adds C l :
  NoDup (C ++ l).*1 → apply_patch (map (λ kv, PAdd [kv.1] kv.2) l) (PDict C) = Some (PDict (C ++ l)).
Proof.
  revert C. induction l as [|[k v] r IH]; intros C Hnd; simpl; [by rewrite app_nil_r|].
  destruct (NoDup_keys_middle _ _ _ _ Hnd) as (Hpre & _ & _).
  rewrite dict_set_absent by by apply dict_lookup_None. simpl.
  rewrite IH, <- app_assoc; [done|]. by rewrite <- app_assoc.
Qed.

Lemma common_result_cons k va r kb :
  common_result ((k, va) :: r) kb =
    match dict_lookup k kb with Some vb => (k, vb) :: common_result r kb | None => common_result r kb end.
Proof. unfold common_result. simpl. by destruct (dict_lookup k kb). Qed.

Lemma common_result_keys ka kb : (common_result ka kb).*1 = filter (λ k, k ∈ kb.*1) ka.*1.
Proof.
  induction ka as [|[k va] r IH]; [done|]. rewrite common_result_cons, fmap_cons, filter_cons.
  destruct (dict_lookup k kb) as [vb|] eqn:E; rewrite ?fmap_cons, IH.
  - rewrite decide_True; [done|]. apply list_elem_of_fmap. exists (k, vb). by eauto using dict_lookup_elem.
  - rewrite decide_False; [done|]. by apply dict_lookup_None.
Qed.

Lemma common_result_lookup ka kb k :
  dict_lookup k (common_result ka kb) = if decide (k ∈ ka.*1) then dict_lookup k kb else None.
Proof.
  induction ka as [|[k' va] r IH]; [done|]. rewrite common_result_cons, fmap_cons.
  destruct (String.eqb_spec k k') as [->|Hne].
  - rewrite decide_True by set_solver. destruct (dict_lookup k' kb) eqn:E; simpl.
    + by rewrite String.eqb_refl.
    + rewrite IH. by case_decide.
  - assert (Hiff : k ∈ (k' :: r.*1) ↔ k ∈ r.*1) by set_solver.
    rewrite (decide_ext _ _ _ _ Hiff), <- IH. destruct (dict_lookup k' kb); simpl; [|done].
    by rewrite (proj2 (String.eqb_neq k k') Hne).
Qed.
(** The common keys, in [ka]'s order, each changed by the diff of its
    two values. *)
Lemma apply_common kb pre l :
  Forall (λ kv, diff_ok kv.2) l → Forall (λ kv, wf kv.2) l → Forall (λ kv, wf kv.2) kb →
  NoDup (pre ++ l).*1 →
  apply_patch (common_ops kb l) (PDict (pre ++ filter (λ kv, kv.1 ∈ kb.*1) l))
    = Some (PDict (pre ++ common_result l kb)).
Proof.
  intros Hok Hwf Hkb. revert pre. induction l as [|[k va] r IH]; intros pre Hnd; [reflexivity|].
  apply Forall_cons in Hok as [Hva Hok], Hwf as [Hwa Hwf].
  destruct (NoDup_keys_middle _ _ _ _ Hnd) as (Hpre & _ & Hnd').
  rewrite common_result_cons. simpl common_ops. destruct (dict_lookup k kb) as [vb|] eqn:E.
  - rewrite (filter_cons_True (λ kv : string * pyval, kv.1 ∈ kb.*1)).
    2:{ apply list_elem_of_fmap. exists (k, vb). by eauto using dict_lookup_elem. }
    assert (Hwb : wf vb).
    { rewrite Forall_forall in Hkb. exact (Hkb _ (dict_lookup_elem _ _ _ E)). }
    rewrite apply_patch_app, apply_patch_prefix by (apply struct_diff_ok || (simpl; rewrite dict_lookup_middle; eauto)).
    simpl update_at. rewrite dict_lookup_middle by done. simpl. rewrite Hva by done. simpl.
    rewrite dict_set_middle by done. rewrite !cons_middle, !app_assoc.
    apply IH; [done|done|]. rewrite <- app_assoc, !fmap_app in *. by simpl in *.
  - rewrite (filter_cons_False (λ kv : string * pyval, kv.1 ∈ kb.*1)) by (simpl; by apply dict_lookup_None).
    by apply IH.
Qed.

(** A dict diff whose key order is reachable gives [kb] back. *)
Lemma dict_merge_keys ka kb :
  dict_order_ok ka kb = true → (common_result ka kb ++ filter (λ kv, kv.1 ∉ ka.*1) kb).*1 = kb.*1.
Proof.
  unfold dict_order_ok. rewrite bool_decide_eq_true. intros Hord.
  rewrite fmap_app, common_result_keys. etransitivity; [|symmetry; exact Hord]. f_equal. apply (fst_filter (λ k, k ∉ ka.*1)).
Qed.

Lemma dict_merge ka kb :
  NoDup kb.*1 → dict_order_ok ka kb = true → common_result ka kb ++ filter (λ kv, kv.1 ∉ ka.*1) kb = kb.
Proof.
  intros Hnd Hord. pose proof (dict_merge_keys _ _ Hord) as Hk.
  apply dict_eq_of_lookup; [done|by rewrite Hk|]. intros k.
  rewrite dict_lookup_app, common_result_lookup, (dict_lookup_filter (λ k, k ∉ ka.*1)).
  repeat case_decide; try done. by destruct (dict_lookup k kb).
Qed.

Lemma apply_dict_diff ka kb :
  Forall (λ kv, diff_ok kv.2) ka → wf (PDict ka) → wf (PDict kb) → dict_order_ok ka kb = true →
  apply_patch (dict_removes ka kb ++ common_ops kb ka ++ dict_adds ka kb) (PDict ka) = Some (PDict kb).
Proof.
  intros Hok [Hnda Hwa]%wf_dict [Hndb Hwb]%wf_dict Hord.
  rewrite (apply_patch_app_Some _ _ _ (PDict ([] ++ filter (λ kv, kv.1 ∈ kb.*1) ka))).
  2:{ etransitivity; [apply (apply_removes (λ k, k ∉ kb.*1) _ [] ka Hnda)|].
      do 2 f_equal. apply list_filter_iff. intros kv. destruct (decide (kv.1 ∈ kb.*1)); tauto. }
  rewrite (apply_patch_app_Some _ _ _ _ (apply_common kb [] ka Hok Hwa Hwb Hnda)).
  unfold dict_adds. rewrite app_nil_l, apply_adds; [by rewrite dict_merge|]. by rewrite dict_merge_keys.
Qed.
End DictPhases.


(** ** The list phases *)
Section ListPhases.
Implicit Types (pre l la lb : list pyval) (x y : pyval).

Lemma index_token_not_dash n : String.eqb (index_token n) "-" = false.
Proof.
  destruct (String.eqb_spec (index_token n) "-") as [E|]; [|done].
  pose proof (parse_index_token n) as P. rewrite E in P. by vm_compute in P.
Qed.

(** The common indices, each changed by the diff of its two elements. *)
Lemma apply_elems i pre la lb :
  length pre = i → Forall diff_ok la → Forall wf la → Forall wf lb →
  apply_patch (elems_ops i la lb) (PList (pre ++ la))
    = Some (PList (pre ++ take (length la) lb ++ drop (length lb) la)).
Proof.
  revert i pre lb. induction la as [|x la IH]; intros i pre [|y lb] Hi Hok Hwa Hwb; try done.
  apply Forall_cons in Hok as [Hx Hok], Hwa as [Hwx Hwa], Hwb as [Hwy Hwb].
  assert (Hc : child (index_token i) (PList (pre ++ x :: la)) = Some x).
  { simpl. rewrite parse_index_token. simpl. by apply list_lookup_middle. }
  simpl elems_ops. rewrite apply_patch_app, apply_patch_prefix by (apply struct_diff_ok || by eexists).
  simpl update_at. rewrite parse_index_token. simpl. rewrite list_lookup_middle by done. simpl.
  rewrite Hx by done. simpl. subst i. rewrite insert_app_r_alt, Nat.sub_diag by lia. simpl.
  rewrite cons_middle, app_assoc, (IH (S (length pre))); [|by rewrite length_app; simpl; lia|done..].
  by rewrite <- app_assoc.
Qed.

(** The extra elements of the new list, added at their indices. *)
Lemma apply_list_adds l ys :
  apply_patch (imap (λ j y, PAdd [index_token (length l + j)] y) ys) (PList l) = Some (PList (l ++ ys)).
Proof.
  revert l. induction ys as [|y ys IH]; intros l; simpl; [by rewrite app_nil_r|].
  rewrite index_token_not_dash, Nat.add_0_r, parse_index_token. simpl.
  rewrite option_guard_True by lia. simpl. rewrite take_ge, drop_ge by lia.
  rewrite (imap_ext _ (λ j z, PAdd [index_token (length (l ++ [y]) + j)] z) ys).
  - by rewrite IH, <- app_assoc.
  - intros j z _. simpl. rewrite length_app. simpl. by replace (length l + 1 + j) with (length l + S j) by lia.
Qed.

(** The extra elements of the old list, removed from the end. *)
Lemma apply_list_removes l extra :
  apply_patch (replicate (length extra) (PRemove [index_token (length l)])) (PList (l ++ extra)) = Some (PList l).
Proof.
  induction extra as [|x extra IH]; simpl; [by rewrite app_nil_r|].
  rewrite parse_index_token. simpl. rewrite option_guard_True by (rewrite length_app; simpl; lia). simpl.
  rewrite take_app_length. replace (drop (S (length l)) (l ++ x :: extra)) with extra by (clear; induction l as [|? ? IHl]; simpl; [done|exact IHl]).
  exact IH.
Qed.

Lemma apply_list_diff la lb :
  Forall diff_ok la → wf (PList la) → wf (PList lb) →
  apply_patch (elems_ops 0 la lb ++ list_tail_ops la lb) (PList la) = Some (PList lb).
Proof.
  intros Hok Hwa%wf_list Hwb%wf_list.
  rewrite (apply_patch_app_Some _ _ _ _ (apply_elems 0 [] la lb eq_refl Hok Hwa Hwb)). simpl app.
  unfold list_tail_ops. case_decide as Hlen.
  - rewrite (drop_ge la), app_nil_r by lia.
    pose proof (apply_list_adds (take (length la) lb) (drop (length la) lb)) as R.
    rewrite length_take_le in R by lia. by rewrite R, take_drop.
  - rewrite (take_ge lb) by lia.
    replace (length la - length lb) with (length (drop (length lb) la)) by (rewrite length_drop; lia).
    apply apply_list_removes.
Qed.
End ListPhases.

(** ** The diff is lawful *)
Lemma struct_diff_apply_all a : diff_ok a.
Proof.
  induction a as [| | | |la IH|ka IH] using pyval_ind'; intros y Ha Hy;
    rewrite struct_diff_eq; (case_decide as Heq; [by subst|]).
  1-4: done.
  - destruct y; try done. by apply apply_list_diff.
  - destruct y; try done. case_match; [|done]. by apply apply_dict_diff.
Qed.

Lemma struct_diff_refl a : struct_diff a a = [].
Proof. rewrite struct_diff_eq. by rewrite decide_True. Qed.

#[export] Instance struct_json_diff_laws : JsonDiffLaws (H := struct_json_diff).
Proof. split; [exact struct_diff_apply_all | exact struct_diff_refl]. Qed.

(** ** On a value that grows, the diff only adds *)
Section Additive.
Implicit Types (ops : list patch_op).

Lemma is_add_prefix t ops : Forall (λ op, is_add op = true) ops → Forall (λ op, is_add op = true) (map (prefix_op t) ops).
Proof. induction 1 as [|[] ? ? ?]; simpl; by constructor. Qed.

(** What the induction carries: the diff of [a] with any value grown
    from it only adds. *)
Definition diff_adds (a : pyval) : Prop :=
  ∀ b, wf a → grows a b = true → Forall (λ op, is_add op = true) (struct_diff a b).

Lemma elems_ops_adds i la lb1 lb2 :
  Forall diff_adds la → Forall wf la → Forall2 (λ x y, grows x y = true) la lb1 →
  Forall (λ op, is_add op = true) (elems_ops i la (lb1 ++ lb2)).
Proof.
  intros Hok Hwf H. revert i Hok Hwf. induction H as [|x y la lb1 Hxy _ IH]; intros i Hok Hwf.
  - done.
  - apply Forall_cons in Hok as [Hx Hok], Hwf as [Hwx Hwf]. simpl.
    apply Forall_app. split; [apply is_add_prefix; by apply Hx|by apply IH].
Qed.

Lemma kv_grows_lookup ka kb1 kb2 k va vb :
  NoDup ka.*1 → Forall2 kv_grows ka kb1 → (k, va) ∈ ka → dict_lookup k (kb1 ++ kb2) = Some vb → grows va vb = true.
Proof.
  intros Hnd H. revert Hnd. induction H as [|[k0 x0] [k1 y0] ka kb1 [Hk Hg] _ IH]; simpl in *;
    [by intros _ ?%elem_of_nil|subst k1].
  intros [Hk0 Hnd]%NoDup_cons [[= -> ->]|Hin]%elem_of_cons.
  - rewrite String.eqb_refl. by intros [= <-].
  - destruct (String.eqb_spec k k0) as [->|]; [|by apply IH].
    exfalso. apply Hk0, list_elem_of_fmap. by exists (k0, va).
Qed.

Lemma common_ops_adds kb l :
  Forall (λ kv, ∀ vb, dict_lookup kv.1 kb = Some vb → Forall (λ op, is_add op = true) (struct_diff kv.2 vb)) l →
  Forall (λ op, is_add op = true) (common_ops kb l).
Proof.
  induction 1 as [|[k va] r Hkv _ IH]; simpl; [done|]. apply Forall_app. split; [|done].
  destruct (dict_lookup k kb) eqn:E; [apply is_add_prefix; by apply Hkv|done].
Qed.

Lemma dict_order_ok_grows ka kb1 kb2 :
  Forall2 kv_grows ka kb1 → Forall (λ k, k ∉ ka.*1) kb2.*1 → dict_order_ok ka (kb1 ++ kb2) = true.
Proof.
  intros H Hf. unfold dict_order_ok. apply bool_decide_eq_true.
  rewrite fmap_app, <- (kv_grows_keys _ _ H).
  rewrite (filter_all (λ k, k ∈ ka.*1 ++ kb2.*1)) by (apply Forall_forall; set_solver).
  rewrite filter_app, (filter_none (λ k, k ∉ ka.*1) ka.*1) by (apply Forall_forall; set_solver).
  by rewrite (filter_all (λ k, k ∉ ka.*1) kb2.*1).
Qed.

Lemma struct_diff_adds a : diff_adds a.
Proof.
  induction a as [?|?|?|?|la IH|ka IH] using pyval_ind'; intros y Ha Hg; rewrite struct_diff_eq;
    (case_decide as Heq; [done|]);
    destruct (grows_cases _ _ Hg) as [(la' & lb & [=] & ->)|[(ka' & kb & [=] & ->)|<-]]; subst; try congruence.
  - apply grows_PList in Hg as (lb1 & lb2 & -> & H). apply wf_list in Ha.
    apply Forall_app. split; [by apply elems_ops_adds|].
    unfold list_tail_ops. rewrite decide_True by (rewrite length_app, <- (Forall2_length _ _ _ H); lia).
    apply Forall_forall. by intros op (j & z & -> & _)%elem_of_lookup_imap.
  - apply grows_PDict in Hg as (kb1 & kb2 & -> & H & Hf). apply wf_dict in Ha as [Hnd Hwf].
    rewrite dict_order_ok_grows by done. rewrite !Forall_app. split_and!.
    + apply Forall_forall. unfold dict_removes. intros op (kv & -> & Hkv)%list_elem_of_fmap.
      apply list_elem_of_filter in Hkv as [Hn Hin]. exfalso. apply Hn.
      rewrite fmap_app, <- (kv_grows_keys _ _ H). apply elem_of_app. left.
      apply list_elem_of_fmap. by exists kv.
    + apply common_ops_adds. rewrite Forall_forall in IH, Hwf |- *. intros [k va] Hin vb Hl.
      apply (IH _ Hin); [by apply (Hwf _ Hin)|]. by eapply kv_grows_lookup.
    + apply Forall_forall. unfold dict_adds. by intros op (kv & -> & _)%list_elem_of_fmap.
Qed.
End Additive.


(** The mutation changes the spec: the volumes gain an element. *)
Lemma planned_spec_changes vol vm sp sp' : planned_spec vol vm sp sp' → sp ≠ sp'.
Proof.
  intros [Hv _] <-. unfold items in Hv.
  destruct (field "volumes" sp) as [[| | | |l|]|]; simplify_eq.
  match goal with H : l = l ++ [vol] |- _ => apply (f_equal length) in H end.
  rewrite length_app in *. simpl in *. lia.
Qed.

Section WebhookAdditive.
Context {S : Type} `{CoreV1Api S}.
Variable requests_get : string → res Response.
Variable cfg : Config.

(** C24: with the structural diff, the response to a triggered,
    well-shaped pod carries a patch that is not empty and whose every
    operation is an [add]: the webhook never removes or replaces a field
    of the admitted pod, at any depth. *)
Theorem mutate_patch_additive body s s' req spec uid md ann ns sp :
  field "request" body = Some req → field "object" req = Some spec → field "uid" req = Some uid →
  wf spec →
  field "metadata" spec = Some md → field "annotations" md = Some ann →
  field cfg.(ca_bundle_annotation) ann = Some (PStr "true") → field "namespace" md = Some (PStr ns) →
  field "spec" spec = Some sp → pod_spec_ok sp = true →
  ensure_configmap requests_get cfg ns s = (s', Ok ()) →
  ∃ ops, mutate (H0 := struct_json_diff) requests_get cfg body s
           = (s', Ok (JsonResponse 200 (review_response uid ops))) ∧
    ops ≠ [] ∧ Forall (λ op, is_add op = true) ops.
Proof.
  intros Hreq Hobj Huid Hwf Hmd Hann Hflag Hns Hsp Hok Hens.
  destruct (inject_spec cfg spec sp Hsp Hok) as (spec' & sp' & Hinj & Hsp' & Hpl & _).
  exists (struct_diff spec spec'). split_and!.
  - rewrite (mutate_unfold (H0 := struct_json_diff) requests_get cfg body s req spec Hreq Hobj).
    by rewrite (plan_triggered_unfold _ _ _ _ _ _ _ Hmd Hann Hflag Hns), Hens, Hinj, Huid.
  - intros E. pose proof (struct_diff_apply_all spec spec' Hwf (inject_wf cfg _ _ Hwf Hinj)) as Ha.
    rewrite E in Ha. simpl in Ha. simplify_eq.
    apply (planned_spec_changes _ _ _ _ Hpl). congruence.
  - apply struct_diff_adds; [done|]. by eapply inject_grows.
Qed.
End WebhookAdditive.

(** The patch of the demonstration pod: the [volumes] key and the
    container's [volumeMounts] key are added. *)
Lemma mutate_patch_additive_witness :
  ∃ ops, mutate (H0 := struct_json_diff) Demo.get_ok Demo.cfg (ReviewDemo.body (PodDemo.pod PodDemo.trig)) (Demo.server ∅)
           = (PodDemo.s1, Ok (JsonResponse 200 (review_response (PStr "705ab4f5") ops))) ∧
    ops ≠ [] ∧ Forall (λ op, is_add op = true) ops.
Proof.
  apply (mutate_patch_additive Demo.get_ok Demo.cfg _ _ PodDemo.s1
    (ReviewDemo.req (PodDemo.pod PodDemo.trig)) (PodDemo.pod PodDemo.trig) (PStr "705ab4f5") (PodDemo.meta PodDemo.trig) PodDemo.trig "ns1"
    (PDict [("containers", PList [PodDemo.app])])); try reflexivity.
  simpl. split_and!; repeat constructor; set_solver.
Defined.

Example struct_diff_demo :
  struct_diff (PodDemo.pod PodDemo.trig) GrowthDemo.injected_pod =
    [PAdd ["spec"; "containers"; "0"; "volumeMounts"] (PList [ca_volume_mount Demo.cfg]);
     PAdd ["spec"; "volumes"] (PList [ca_volume Demo.cfg])].
Proof. vm_compute. reflexivity. Qed.
